(** * Motor-skills feature extraction and aggregation: a shallow embedding

    The development follows the JavaScript sources:

    - [utils/featureExtraction.js]  ->  [Module FeatureExtraction]
    - [models/MotorPointerTraceBucket.js]  ->  [Module MotorPointerTraceBucket]
    - [models/MotorAttemptBucket.js]  ->  [Module MotorAttemptBucket]
    - [models/MotorSummary.js]  ->  [Module MotorSummary]
    - [controllers/motorController.js]  ->  [Module MotorController]

    [Module Spec] holds the specification's wording where a theorem compares
    the code with it, [Module Invariants] the loop invariants, and
    [Module Scenario] the concrete inputs of the examples.

    Numbers.  A JavaScript number is an IEEE-754 binary64 value, which is
    what Rocq's primitive [float] is: coordinates, speeds and every derived
    quantity are [float]s and are computed with the same roundings as the
    engine.  Timestamps ([tms], [spawnTms], [click.tms]) are integer
    milliseconds since the epoch; on integers below 2^53 binary64 arithmetic
    is exact, so they are modelled as [Z] and converted with [Z2float] where
    the code mixes them with fractional values.  [null], [undefined] and an
    absent property are all [None]: the code tests them with [!= null]. *)

From Stdlib Require Import ZArith List String Floats Lia Bool Sorted.
From stdpp Require Import base gmap strings pretty.
Import ListNotations.

Set Warnings "-inexact-float".

(* ===================================================================== *)
(** * JavaScript values, exceptions and the Math object *)
(* ===================================================================== *)

Module JS.

(** Exceptions: reading a property of [undefined] raises a [TypeError];
    [throw new Error(msg)] raises [Error msg]; a document that fails the
    validators or the casts of its schema makes [save] raise a
    [ValidationError]. *)
Inductive JsError : Type :=
| TypeError (what : string)
| Error (message : string)
| ValidationError (message : string).

Inductive result (A : Type) : Type :=
| Ok (a : A)
| Throw (e : JsError).
Arguments Ok {A} a.
Arguments Throw {A} e.

Definition bind {A B : Type} (r : result A) (k : A -> result B) : result B :=
  match r with
  | Ok a => k a
  | Throw e => Throw e
  end.

(** [arr[i]] followed by a property access: a [TypeError] out of range. *)
Definition at_index {A : Type} (arr : list A) (i : nat) : result A :=
  match nth_error arr i with
  | Some a => Ok a
  | None => Throw (TypeError "Cannot read properties of undefined")
  end.

(** [arr[i]] on an array of numbers used in arithmetic: [undefined]
    coerces to [NaN]. *)
Definition num_at (arr : list float) (i : nat) : float := nth i arr nan.

(** [for (let i = lo; i < hi; i++) body], with a body that may throw. *)
Fixpoint forM {S : Type} (idx : list nat) (body : nat -> S -> result S) (s : S)
  : result S :=
  match idx with
  | [] => Ok s
  | i :: rest => bind (body i s) (forM rest body)
  end.

(** The indices [lo, lo+1, ..., hi-1] of such a loop. *)
Definition range (lo hi : nat) : list nat := seq lo (hi - lo).

(** The binary64 value nearest to an integer. *)
Definition Z2float (z : Z) : float :=
  SF2Prim (binary_normalize prec emax z 0 false).

Definition nat2float (n : nat) : float := Z2float (Z.of_nat n).

(** [!v] on a number: [0], [-0] and [NaN] are falsy. *)
Definition falsy (v : float) : bool := (v =? 0)%float || is_nan v.

(** [Math.max(a, b)]: [NaN] if either is, and [+0] above [-0]. *)
Definition Math_max (a b : float) : float :=
  if is_nan a || is_nan b then nan
  else if (a <? b)%float then b
  else if (b <? a)%float then a
  else if (1 / a <? 1 / b)%float then b else a.

(** [Math.max(...arr)]; [-Infinity] on no argument. *)
Definition Math_max_list (arr : list float) : float :=
  fold_left Math_max arr neg_infinity.

Definition Math_sqrt : float -> float := PrimFloat.sqrt.

(** [Math.floor] on a finite value, as an integer. *)
Definition Math_floor (v : float) : Z :=
  match Prim2SF v with
  | S754_finite s m e =>
      let n := if s then Z.neg m else Z.pos m in
      if (0 <=? e)%Z then (n * 2 ^ e)%Z else (n / 2 ^ (- e))%Z
  | _ => 0%Z
  end.

(** The functions of [Math] that the language leaves
    implementation-approximated. *)
Class MathLib : Type := {
  Math_hypot : float -> float -> float;
  Math_log2 : float -> float;
  Math_pow : float -> float -> float;
}.

End JS.

Export JS.

(** [result] is a monad; sequencing is written [x ← e; k]. *)
#[export] Instance result_ret : MRet result := @Ok.
#[export] Instance result_bind : MBind result := fun A B k r => bind r k.

(* ===================================================================== *)
(** * The sub-documents shared by the models *)
(* ===================================================================== *)

Module Schema.

(** [pointerSampleSchema]: one pointer sample. *)
Record Sample : Type := mkSample {
  round : Z;
  tms : Z;
  x : float;
  y : float;
  isDown : bool;
  pointerType : string;
}.

(** [target: {x, y, radius}], normalized. *)
Record Target : Type := mkTarget {
  target_x : float;
  target_y : float;
  radius : float;
}.

(** A [Number] path holds any number but [NaN], which fails the cast. *)
Definition isNumber (v : float) : bool := negb (is_nan v).

(** An optional [Number] path. *)
Definition isNumberOrAbsent (v : option float) : bool :=
  match v with
  | Some f => isNumber f
  | None => true
  end.

(** A [String] path with [required: true]: the empty string is refused. *)
Definition isRequiredString (s : string) : bool :=
  match s with
  | EmptyString => false
  | String _ _ => true
  end.

(** A [String] path with an [enum]. *)
Definition inEnum (values : list string) (s : string) : bool :=
  existsb (String.eqb s) values.

(** The validators of [pointerSampleSchema]: [round] within [min: 1] and
    [max: 3], [x] and [y] numbers, [pointerType] in its [enum]. *)
Definition validSample (s : Sample) : bool :=
  (1 <=? round s)%Z && (round s <=? 3)%Z
  && isNumber (x s) && isNumber (y s)
  && inEnum ["mouse"; "touch"; "pen"; "unknown"]%string (pointerType s).

(** The required numbers of [target]. *)
Definition validTarget (t : Target) : bool :=
  isNumber (target_x t) && isNumber (target_y t) && isNumber (radius t).

End Schema.

(* ===================================================================== *)
(** * utils/featureExtraction.js *)
(* ===================================================================== *)

Module FeatureExtraction.

Export Schema.

Record Point : Type := mkPoint {
  point_x : float;
  point_y : float;
}.

(** [dist] reads [.x] and [.y] of whatever it is given. *)
Class HasXY (A : Type) : Type := { get_x : A -> float; get_y : A -> float }.

#[export] Instance Sample_xy : HasXY Sample := {| get_x := x; get_y := y |}.
#[export] Instance Target_xy : HasXY Target :=
  {| get_x := target_x; get_y := target_y |}.
#[export] Instance Point_xy : HasXY Point :=
  {| get_x := point_x; get_y := point_y |}.

Record Timing : Type := mkTiming {
  reactionTimeMs : Z;
  movementTimeMs : option Z;
  interTapMs : option Z;
}.

Record Spatial : Type := mkSpatial {
  errorDistNorm : option float;
  pathLengthNorm : option float;
  directDistNorm : option float;
  straightness : option float;
}.

Record Kinematics : Type := mkKinematics {
  meanSpeed : option float;
  peakSpeed : option float;
  speedVar : option float;
  meanAccel : option float;
  peakAccel : option float;
  jerkRMS : option float;
  submovementCount : option nat;
  overshootCount : option nat;
}.

Record Fitts : Type := mkFitts {
  D : option float;
  W : option float;
  ID : option float;
  throughput : option float;
}.

Record Features : Type := mkFeatures {
  timing : Timing;
  spatial : Spatial;
  kinematics : Kinematics;
  fitts : Fitts;
}.

(** The empty objects [spatial: {}], [kinematics: {}], [fitts: {}]. *)
Definition noSpatial : Spatial := mkSpatial None None None None.
Definition noKinematics : Kinematics :=
  mkKinematics None None None None None None None None.
Definition noFitts : Fitts := mkFitts None None None None.

Section Extractor.

Context {M : MathLib}.

Definition dist {A B : Type} `{HasXY A} `{HasXY B} (a : A) (b : B) : float :=
  let dx := (get_x a - get_x b)%float in
  let dy := (get_y a - get_y b)%float in
  Math_hypot dx dy.

(** [movingAverage(arr, w)]. *)
Definition movingAverage (arr : list float) (w : nat) : list float :=
  if (length arr <? w)%nat then arr
  else
    map (fun i : nat =>
           let half := Z.of_nat (w / 2) in
           let ks := map (fun o : nat => (Z.of_nat i - half + Z.of_nat o)%Z)
                         (seq 0 (2 * (w / 2) + 1)) in
           let sc :=
             fold_left
               (fun (sc : float * nat) (k : Z) =>
                  if ((0 <=? k)%Z && (k <? Z.of_nat (length arr))%Z)%bool
                  then ((fst sc + num_at arr (Z.to_nat k))%float, S (snd sc))
                  else sc)
               ks (0%float, 0%nat) in
           (fst sc / nat2float (snd sc))%float)
        (seq 0 (length arr)).

(** Step 1: the samples in [[spawnTms, clickTms]]. *)
Definition segment (samples : list Sample) (spawnTms clickTms : Z)
  : list Sample :=
  List.filter (fun s => ((spawnTms <=? tms s)%Z && (tms s <=? clickTms)%Z)%bool)
              samples.

Definition EPS : float := 0.003%float.

(** Step 2: the loop from [i] over the remaining samples; it stops at the
    first displacement above [EPS] and leaves [startIdx = 0] otherwise. *)
Fixpoint scanStart (p0 : Point) (rest : list Sample) (i : nat) : nat :=
  match rest with
  | [] => 0
  | s :: rest' =>
      if (EPS <? dist (mkPoint (x s) (y s)) p0)%float then i - 1
      else scanStart p0 rest' (S i)
  end.

Definition startIdxOf (seg : list Sample) : nat :=
  match seg with
  | [] => 0
  | s0 :: rest => scanStart (mkPoint (x s0) (y s0)) rest 1
  end.

(** [moveSeg = seg.slice(startIdx)]. *)
Definition movingSegment (samples : list Sample) (spawnTms clickTms : Z)
  : list Sample :=
  let seg := segment samples spawnTms clickTms in
  skipn (startIdxOf seg) seg.

(** Step 3: the path length, summed over consecutive samples. *)
Definition pathLengthOf (moveSeg : list Sample) : result float :=
  forM (range 1 (length moveSeg))
       (fun i pathLength =>
          a ← at_index moveSeg (i - 1);
          b ← at_index moveSeg i;
          Ok (pathLength + dist a b)%float)
       0%float.

(** The three arrays a differentiation loop pushes to. *)
Record Deriv : Type := mkDeriv {
  dx_ : list float;
  dy_ : list float;
  mag_ : list float;
}.

Definition push (d : Deriv) (vx vy m : float) : Deriv :=
  mkDeriv (dx_ d ++ [vx]) (dy_ d ++ [vy]) (mag_ d ++ [m]).

(** Step 4.1: velocity. *)
Definition velocityOf (t xs ys : list float) (n : nat) : Deriv :=
  fold_left
    (fun (acc : Deriv) (i : nat) =>
       let dt := (num_at t i - num_at t (i - 1))%float in
       if (dt <=? 0)%float then acc
       else
         let vxi := ((num_at xs i - num_at xs (i - 1)) / dt)%float in
         let vyi := ((num_at ys i - num_at ys (i - 1)) / dt)%float in
         push acc vxi vyi (Math_hypot vxi vyi))
    (range 1 n) (mkDeriv [] [] []).

(** Steps 4.2 and 4.3: the derivative of [(vx, vy)], with the time step
    read [off] places further in [t] (1 for acceleration, 2 for jerk). *)
Definition derivOf (t vx vy : list float) (off : nat) : Deriv :=
  fold_left
    (fun (acc : Deriv) (i : nat) =>
       let dt := (num_at t (i + off) - num_at t (i + off - 1))%float in
       if (falsy dt || (dt <=? 0)%float)%bool then acc
       else
         let axi := ((num_at vx i - num_at vx (i - 1)) / dt)%float in
         let ayi := ((num_at vy i - num_at vy (i - 1)) / dt)%float in
         push acc axi ayi (Math_hypot axi ayi))
    (range 1 (length vx)) (mkDeriv [] [] []).

Definition sum (arr : list float) : float :=
  fold_left (fun a b => (a + b)%float) arr 0%float.

Definition meanOf (arr : list float) : option float :=
  match arr with
  | [] => None
  | _ => Some (sum arr / nat2float (length arr))%float
  end.

Definition peakOf (arr : list float) : option float :=
  match arr with
  | [] => None
  | _ => Some (Math_max_list arr)
  end.

Definition speedVarOf (speed : list float) : option float :=
  match speed, meanOf speed with
  | _ :: _, Some meanSpeed =>
      Some (fold_left (fun a b => (a + Math_pow (b - meanSpeed) 2)%float)
                      speed 0%float
            / nat2float (length speed))%float
  | _, _ => None
  end.

Definition jerkRMSOf (jerk : list float) : option float :=
  match jerk with
  | [] => None
  | _ => Some (Math_sqrt (fold_left (fun a b => (a + b * b)%float) jerk 0%float
                          / nat2float (length jerk))%float)
  end.

(** Counting loops: [n] is incremented at every index where [hit] holds. *)
Definition countLoop (idx : list nat) (hit : nat -> bool) : nat :=
  fold_left (fun n i => if hit i then S n else n) idx 0.

(** Step 5: peaks of the smoothed speed. *)
Definition submovementsOf (speed : list float) (peakSpeed : option float) : nat :=
  let smoothedSpeed := movingAverage speed 5 in
  match peakSpeed with
  | None => 0
  | Some peak =>
      let vThresh := (0.15 * peak)%float in
      countLoop (range 1 (length smoothedSpeed - 1))
        (fun i =>
           (num_at smoothedSpeed (i - 1) <? num_at smoothedSpeed i)%float
           && (num_at smoothedSpeed (i + 1) <? num_at smoothedSpeed i)%float
           && (vThresh <=? num_at smoothedSpeed i)%float)
  end.

(** Step 6, method 1: distance reversals inside the gate. *)
Definition reversalAt (d : list float) (i : nat) : bool :=
  let ddPrev := (num_at d (i - 1) - num_at d (i - 2))%float in
  let dd := (num_at d i - num_at d (i - 1))%float in
  (ddPrev <? -0.001)%float && (0.001 <? dd)%float.

Definition distanceReversals (d : list float) (gate : float) : nat :=
  countLoop (range 2 (length d))
            (fun i => reversalAt d i && (num_at d i <? gate)%float).

(** Step 6, method 2: reversals in the final phase. *)
Definition finalPhaseStartOf (n : nat) : nat :=
  Z.to_nat (Math_floor (nat2float n * 0.7)%float).

Definition finalPhaseReversals (moveSeg : list Sample) (target : Target) : nat :=
  let finalPhaseStart := finalPhaseStartOf (length moveSeg) in
  if (5 <? length moveSeg)%nat then
    let finalSeg := skipn finalPhaseStart moveSeg in
    let finalD := map (fun s => dist s target) finalSeg in
    countLoop (range 2 (length finalD)) (reversalAt finalD)
  else 0.

(** Step 6, method 3: back-and-forth steps in x or y inside the gate. *)
Definition stepReversal (dPrev dCur : float) : bool :=
  ((0.002 <? dPrev)%float && (dCur <? -0.002)%float)
  || ((dPrev <? -0.002)%float && (0.002 <? dCur)%float).

Definition oscillations (moveSeg : list Sample) (d : list float) (gate : float)
  : result nat :=
  if (4 <? length moveSeg)%nat then
    forM (range 3 (length moveSeg))
         (fun i oscillationCount =>
            if (num_at d i <? gate)%float then
              s2 ← at_index moveSeg (i - 2);
              s1 ← at_index moveSeg (i - 1);
              s ← at_index moveSeg i;
              let xReversal := stepReversal (x s1 - x s2) (x s - x s1) in
              let yReversal := stepReversal (y s1 - y s2) (y s - y s1) in
              Ok (if xReversal || yReversal then S oscillationCount
                  else oscillationCount)
            else Ok oscillationCount)
         0
  else Ok 0.

(** [Math.max] of the three counts. *)
Definition max3 (a b c : nat) : nat := Nat.max (Nat.max a b) c.

(** Step 7: Fitts' law. *)
Definition fittsOf (directDist : float) (target : Target) (movementTimeMs : Z)
  : Fitts :=
  let D := directDist in
  let W := (2 * radius target)%float in
  let ID := if (0 <? W)%float then Some (Math_log2 (D / W + 1))%float else None in
  let mtSec := Math_max (Z2float movementTimeMs / 1000)%float 0.05%float in
  let throughput := option_map (fun id => (id / mtSec)%float) ID in
  mkFitts (Some D) (Some W) ID throughput.

Definition minimalFeatures (spawnTms clickTms : Z) (prevClickTms : option Z)
  : Features :=
  mkFeatures
    (mkTiming (clickTms - spawnTms) None
              (option_map (fun p => (clickTms - p)%Z) prevClickTms))
    noSpatial noKinematics noFitts.

Definition extractAttemptFeatures (samples : list Sample)
    (spawnTms clickTms : Z) (target : Target) (prevClickTms : option Z)
  : result Features :=
  let seg := segment samples spawnTms clickTms in
  if (length seg <? 4)%nat then
    Ok (minimalFeatures spawnTms clickTms prevClickTms)
  else
    s0 ← at_index seg 0;
    let p0 := mkPoint (x s0) (y s0) in
    let startIdx := scanStart p0 (skipn 1 seg) 1 in
    let moveSeg := skipn startIdx seg in
    mFirst ← at_index moveSeg 0;
    mLast ← at_index moveSeg (length moveSeg - 1);
    let moveStart := mkPoint (x mFirst) (y mFirst) in
    let moveEnd := mkPoint (x mLast) (y mLast) in
    let reactionTimeMs := (clickTms - spawnTms)%Z in
    let movementTimeMs := (tms mLast - tms mFirst)%Z in
    pathLength ← pathLengthOf moveSeg;
    let directDist := dist moveStart target in
    let straightness :=
      if (0 <? pathLength)%float then Some (directDist / pathLength)%float
      else None in
    let clickPos := moveEnd in
    let errorDist := dist clickPos target in
    let errorDistNorm :=
      if (0 <? radius target)%float then Some (errorDist / radius target)%float
      else None in
    let t := map (fun s => (Z2float (tms s) / 1000)%float) moveSeg in
    let xs := map x moveSeg in
    let ys := map y moveSeg in
    let vel := velocityOf t xs ys (length moveSeg) in
    let speed := mag_ vel in
    let meanSpeed := meanOf speed in
    let peakSpeed := peakOf speed in
    let speedVar := speedVarOf speed in
    let accel := derivOf t (dx_ vel) (dy_ vel) 1 in
    let acc := mag_ accel in
    let meanAccel := meanOf acc in
    let peakAccel := peakOf acc in
    let jerk := mag_ (derivOf t (dx_ accel) (dy_ accel) 2) in
    let jerkRMS := jerkRMSOf jerk in
    let submovementCount := submovementsOf speed peakSpeed in
    let d := map (fun s => dist s target) moveSeg in
    let gate := (4 * radius target)%float in
    let overshootCount := distanceReversals d gate in
    let finalPhaseOvershoots := finalPhaseReversals moveSeg target in
    oscillationCount ← oscillations moveSeg d gate;
    let overshootCount :=
      max3 overshootCount finalPhaseOvershoots oscillationCount in
    Ok (mkFeatures
          (mkTiming reactionTimeMs (Some movementTimeMs)
                    (option_map (fun p => (clickTms - p)%Z) prevClickTms))
          (mkSpatial errorDistNorm (Some pathLength) (Some directDist)
                     straightness)
          (mkKinematics meanSpeed peakSpeed speedVar meanAccel peakAccel
                        jerkRMS (Some submovementCount) (Some overshootCount))
          (fittsOf directDist target movementTimeMs)).

End Extractor.

End FeatureExtraction.

(* ===================================================================== *)
(** * The Mongoose operations the models use *)
(* ===================================================================== *)

Module Mongoose.

(** The Session collection, by its [sessionId]s: all the models ask is
    whether [Session.findOne({ sessionId })] finds a document. *)
Definition sessionFindOne (sessions : gset string) (sessionId : string) : bool :=
  bool_decide (sessionId ∈ sessions).

Definition dquote : string := String (Ascii.ascii_of_nat 34) EmptyString.

Definition doesNotExist (sessionId : string) : JsError :=
  Error ("Session with sessionId " ++ dquote ++ sessionId ++ dquote
         ++ " does not exist.").

(** What the bucket queries read of a bucket document, and [valid], the
    validators and casts of its schema. *)
Class BucketDoc (D : Type) : Type := {
  _id : D -> nat;
  set_id : nat -> D -> D;
  sessionId : D -> string;
  bucketNumber : D -> nat;
  isFull : D -> bool;
  valid : D -> bool;
}.

(** The message of a [ValidationError] is worded by Mongoose, from the
    model and the values that fail; the wording is left open. *)
Class Wording (D : Type) : Type := validationMessage : D -> string.

(** An operation on a collection leaves a collection behind whether it
    returns or throws: what was written before a failure stays written. *)
Definition andThen {S A B : Type} (r : S * result A)
    (k : S -> A -> S * result B) : S * result B :=
  match r with
  | (s, Ok a) => k s a
  | (s, Throw e) => (s, Throw e)
  end.

Section Model.

Context {D : Type} `{BucketDoc D} {wording : Wording D}.

Definition validationError (doc : D) : JsError :=
  ValidationError (validationMessage doc).

(** [Model.create(doc)]: the document is validated, then the
    [pre('save')] hook checks the session of the new document, and the
    document is inserted under a fresh [_id]. *)
Definition create (sessions : gset string) (coll : list D) (doc : D)
  : list D * result D :=
  if negb (valid doc) then (coll, Throw (validationError doc))
  else if sessionFindOne sessions (sessionId doc) then
    let doc := set_id (length coll) doc in
    (coll ++ [doc], Ok doc)
  else (coll, Throw (doesNotExist (sessionId doc))).

(** [doc.save()] of a document that is not new and whose [sessionId] is
    unmodified: the document is validated, the hook does nothing, and the
    stored copy is replaced. *)
Definition save (coll : list D) (doc : D) : list D * result D :=
  if valid doc then (<[ _id doc := doc ]> coll, Ok doc)
  else (coll, Throw (validationError doc)).

(** [findOne({ sessionId, isFull: false }).sort({ bucketNumber: -1 })]. *)
Definition findOneActive (coll : list D) (sid : string) : option D :=
  fold_left
    (fun (best : option D) (d : D) =>
       if bool_decide (sessionId d = sid) && negb (isFull d) then
         match best with
         | None => Some d
         | Some b => if (bucketNumber b <? bucketNumber d)%nat then Some d else best
         end
       else best)
    coll None.

(** [find({ sessionId }).sort({ bucketNumber: 1 })]: a stable sort. *)
Fixpoint insertByNumber (d : D) (sorted : list D) : list D :=
  match sorted with
  | [] => [d]
  | e :: rest =>
      if (bucketNumber d <? bucketNumber e)%nat then d :: e :: rest
      else e :: insertByNumber d rest
  end.

Definition sortByNumber (docs : list D) : list D :=
  fold_left (fun sorted d => insertByNumber d sorted) docs [].

Definition ofSession (coll : list D) (sid : string) : list D :=
  List.filter (fun d => bool_decide (sessionId d = sid)) coll.

Definition findBySession (coll : list D) (sid : string) : list D :=
  sortByNumber (ofSession coll sid).

End Model.

(** [for (const item of array) body], with a body that works on the
    collection and on the document held in memory, and may throw. *)
Fixpoint forOf {S A I : Type} (body : S -> A -> I -> S * result A)
    (array : list I) (s : S) (a : A) : S * result A :=
  match array with
  | [] => (s, Ok a)
  | item :: rest =>
      andThen (body s a item) (fun s a => forOf body rest s a)
  end.

(** A string is truthy when it is present and not empty. *)
Definition truthy (s : option string) : bool :=
  match s with
  | Some EmptyString | None => false
  | Some _ => true
  end.

End Mongoose.

(* ===================================================================== *)
(** * models/MotorPointerTraceBucket.js *)
(* ===================================================================== *)

Module MotorPointerTraceBucket.

Export Schema.
Import Mongoose.

Definition MAX_TRACE_SAMPLES_PER_BUCKET : nat := 5000.

Record Bucket : Type := mkBucket {
  bucket_id : nat;
  bucket_sessionId : string;
  userId : option string;
  bucket_bucketNumber : nat;
  count : nat;
  bucket_isFull : bool;
  firstTms : Z;
  lastTms : Z;
  samples : list Sample;
}.

#[export] Instance Bucket_doc : BucketDoc Bucket := {|
  _id := bucket_id;
  set_id := fun i b =>
    mkBucket i (bucket_sessionId b) (userId b) (bucket_bucketNumber b) (count b)
             (bucket_isFull b) (firstTms b) (lastTms b) (samples b);
  sessionId := bucket_sessionId;
  bucketNumber := bucket_bucketNumber;
  isFull := bucket_isFull;
  valid := fun b =>
    isRequiredString (bucket_sessionId b) && forallb validSample (samples b);
|}.

(** The document [{ sessionId, userId, bucketNumber, count: 0, samples: [] }]
    with the schema's defaults. *)
Definition newBucket (sid : string) (uid : option string) (number : nat) : Bucket :=
  mkBucket 0 sid uid number 0 false 0 0 [].

Definition setUserId (uid : option string) (b : Bucket) : Bucket :=
  mkBucket (bucket_id b) (bucket_sessionId b) uid (bucket_bucketNumber b)
           (count b) (bucket_isFull b) (firstTms b) (lastTms b) (samples b).

Definition markFull (b : Bucket) : Bucket :=
  mkBucket (bucket_id b) (bucket_sessionId b) (userId b) (bucket_bucketNumber b)
           (count b) true (firstTms b) (lastTms b) (samples b).

(** [bucket.samples.push(sample)] and the bookkeeping after it. *)
Definition pushSample (sample : Sample) (b : Bucket) : Bucket :=
  let samples' := samples b ++ [sample] in
  mkBucket (bucket_id b) (bucket_sessionId b) (userId b) (bucket_bucketNumber b)
           (length samples') (bucket_isFull b)
           (if (firstTms b =? 0)%Z then tms sample else firstTms b)
           (tms sample) samples'.

Section Capacity.

Context {wording : Wording Bucket}.

(** The capacity of a bucket; [MAX_TRACE_SAMPLES_PER_BUCKET] in the code. *)
Variable cap : nat.

(** The body of [for (const sample of samplesArray)], on the collection
    and the bucket held in memory. *)
Definition addOne (sessions : gset string) (sid : string) (uid : option string)
    (coll : list Bucket) (bucket : Bucket) (sample : Sample)
  : list Bucket * result Bucket :=
  andThen
    (if (cap <=? count bucket)%nat then
       let bucket := markFull bucket in
       andThen (save coll bucket) (fun coll bucket =>
       create sessions coll (newBucket sid uid (bucketNumber bucket + 1)))
     else (coll, Ok bucket))
    (fun coll bucket => (coll, Ok (pushSample sample bucket))).

(** [addSamples(sessionId, userId, samplesArray)]: the collection it
    leaves, and the bucket it returns or the error it throws. *)
Definition addSamplesWith (sessions : gset string) (coll : list Bucket)
    (sid : string) (uid : option string) (samplesArray : list Sample)
  : list Bucket * result Bucket :=
  match samplesArray with
  | [] => (coll, Throw (Error "samplesArray must be a non-empty array"))
  | _ =>
      if negb (sessionFindOne sessions sid) then (coll, Throw (doesNotExist sid))
      else
        andThen
          match findOneActive coll sid with
          | None => create sessions coll (newBucket sid uid 1)
          | Some bucket =>
              (coll,
               Ok (if truthy uid && negb (truthy (userId bucket))
                   then setUserId uid bucket else bucket))
          end
          (fun coll bucket =>
        andThen (forOf (addOne sessions sid uid) samplesArray coll bucket)
          (fun coll bucket =>
        save coll bucket))
  end.

End Capacity.

Definition addSamples {wording : Wording Bucket} :=
  addSamplesWith MAX_TRACE_SAMPLES_PER_BUCKET.

(** [getSessionSamples(sessionId, round = null)]. *)
Definition getSessionSamples (coll : list Bucket) (sid : string)
    (round_ : option Z) : list Sample :=
  flat_map
    (fun bucket =>
       match round_ with
       | Some r => List.filter (fun s => (round s =? r)%Z) (samples bucket)
       | None => samples bucket
       end)
    (findBySession coll sid).

(** [getSamplesInRange(sessionId, startTms, endTms, round = null)]. *)
Definition getSamplesInRange (coll : list Bucket) (sid : string)
    (startTms endTms : Z) (round_ : option Z) : list Sample :=
  List.filter (fun s => ((startTms <=? tms s)%Z && (tms s <=? endTms)%Z)%bool)
              (getSessionSamples coll sid round_).

End MotorPointerTraceBucket.

(* ===================================================================== *)
(** * models/MotorAttemptBucket.js *)
(* ===================================================================== *)

Module MotorAttemptBucket.

Import Mongoose.

Definition MAX_ATTEMPTS_PER_BUCKET : nat := 2000.

(** [motorAttemptSchema]; every derived field is a [Number] that may be
    absent. *)
Record Click : Type := mkClick {
  clicked : bool;
  hit : bool;
  missType : string;
  click_tms : option Z;
  click_x : option float;
  click_y : option float;
}.

Record Timing : Type := mkTiming {
  reactionTimeMs : option float;
  movementTimeMs : option float;
  interTapMs : option float;
}.

Record Spatial : Type := mkSpatial {
  errorDistNorm : option float;
  pathLengthNorm : option float;
  directDistNorm : option float;
  straightness : option float;
}.

Record Kinematics : Type := mkKinematics {
  meanSpeed : option float;
  peakSpeed : option float;
  speedVar : option float;
  meanAccel : option float;
  peakAccel : option float;
  jerkRMS : option float;
  submovementCount : option float;
  overshootCount : option float;
}.

Record Fitts : Type := mkFitts {
  D : option float;
  W : option float;
  ID : option float;
  throughput : option float;
}.

Record Attempt : Type := mkAttempt {
  round : Z;
  attemptId : string;
  bubbleId : string;
  spawnTms : Z;
  target : Schema.Target;
  click : Click;
  timing : Timing;
  spatial : Spatial;
  kinematics : Kinematics;
  fitts : Fitts;
}.

(** The validators and casts of [motorAttemptSchema]: [round] within
    [min: 1] and [max: 3], the required strings and numbers, [missType] in
    its [enum], and every optional [Number] path a number when present. *)
Definition validClick (c : Click) : bool :=
  Schema.inEnum ["hit"; "bubble_miss"; "stage_miss"; "timeout"; "unknown"]%string
         (missType c)
  && Schema.isNumberOrAbsent (click_x c) && Schema.isNumberOrAbsent (click_y c).

Definition validTiming (t : Timing) : bool :=
  Schema.isNumberOrAbsent (reactionTimeMs t) && Schema.isNumberOrAbsent (movementTimeMs t)
  && Schema.isNumberOrAbsent (interTapMs t).

Definition validSpatial (s : Spatial) : bool :=
  Schema.isNumberOrAbsent (errorDistNorm s) && Schema.isNumberOrAbsent (pathLengthNorm s)
  && Schema.isNumberOrAbsent (directDistNorm s) && Schema.isNumberOrAbsent (straightness s).

Definition validKinematics (k : Kinematics) : bool :=
  Schema.isNumberOrAbsent (meanSpeed k) && Schema.isNumberOrAbsent (peakSpeed k)
  && Schema.isNumberOrAbsent (speedVar k) && Schema.isNumberOrAbsent (meanAccel k)
  && Schema.isNumberOrAbsent (peakAccel k) && Schema.isNumberOrAbsent (jerkRMS k)
  && Schema.isNumberOrAbsent (submovementCount k)
  && Schema.isNumberOrAbsent (overshootCount k).

Definition validFitts (f : Fitts) : bool :=
  Schema.isNumberOrAbsent (D f) && Schema.isNumberOrAbsent (W f) && Schema.isNumberOrAbsent (ID f)
  && Schema.isNumberOrAbsent (throughput f).

Definition validAttempt (a : Attempt) : bool :=
  (1 <=? round a)%Z && (round a <=? 3)%Z
  && Schema.isRequiredString (attemptId a) && Schema.isRequiredString (bubbleId a)
  && Schema.validTarget (target a) && validClick (click a)
  && validTiming (timing a) && validSpatial (spatial a)
  && validKinematics (kinematics a) && validFitts (fitts a).

(** The four derived blocks an enrichment produces. *)
Record Derived : Type := mkDerived {
  d_timing : Timing;
  d_spatial : Spatial;
  d_kinematics : Kinematics;
  d_fitts : Fitts;
}.

(** [{ ...attempt, ...features }]. *)
Definition merge (attempt : Attempt) (features : Derived) : Attempt :=
  mkAttempt (round attempt) (attemptId attempt) (bubbleId attempt)
            (spawnTms attempt) (target attempt) (click attempt)
            (d_timing features) (d_spatial features) (d_kinematics features)
            (d_fitts features).

(** The extractor's result as the four blocks of the document. *)
Definition ofFeatures (f : FeatureExtraction.Features) : Derived :=
  let t := FeatureExtraction.timing f in
  let s := FeatureExtraction.spatial f in
  let k := FeatureExtraction.kinematics f in
  let ft := FeatureExtraction.fitts f in
  mkDerived
    (mkTiming (Some (Z2float (FeatureExtraction.reactionTimeMs t)))
              (option_map Z2float (FeatureExtraction.movementTimeMs t))
              (option_map Z2float (FeatureExtraction.interTapMs t)))
    (mkSpatial (FeatureExtraction.errorDistNorm s)
               (FeatureExtraction.pathLengthNorm s)
               (FeatureExtraction.directDistNorm s)
               (FeatureExtraction.straightness s))
    (mkKinematics (FeatureExtraction.meanSpeed k) (FeatureExtraction.peakSpeed k)
                  (FeatureExtraction.speedVar k) (FeatureExtraction.meanAccel k)
                  (FeatureExtraction.peakAccel k) (FeatureExtraction.jerkRMS k)
                  (option_map nat2float (FeatureExtraction.submovementCount k))
                  (option_map nat2float (FeatureExtraction.overshootCount k)))
    (mkFitts (FeatureExtraction.D ft) (FeatureExtraction.W ft)
             (FeatureExtraction.ID ft) (FeatureExtraction.throughput ft)).

(** A timestamp is truthy when it is present and not [0]. *)
Definition truthyTms (t : option Z) : option Z :=
  match t with
  | Some 0%Z | None => None
  | Some v => Some v
  end.

(** [buildBasicFeatures(attempt, prevClickTms)]. *)
Definition buildBasicFeatures (attempt : Attempt) (prevClickTms : option Z)
  : Derived :=
  let reactionTimeMs :=
    match reactionTimeMs (timing attempt) with
    | Some r => Some r
    | None =>
        match truthyTms (click_tms (click attempt)) with
        | Some c =>
            if clicked (click attempt) && negb (spawnTms attempt =? 0)%Z
            then Some (Z2float (c - spawnTms attempt))
            else None
        | None => None
        end
    end in
  let interTapMs :=
    match truthyTms prevClickTms, truthyTms (click_tms (click attempt)) with
    | Some p, Some c => Some (Z2float (c - p))
    | _, _ => None
    end in
  let errorDistNorm := errorDistNorm (spatial attempt) in
  mkDerived (mkTiming reactionTimeMs None interTapMs)
            (mkSpatial errorDistNorm None None None)
            (mkKinematics None None None None None None None None)
            (mkFitts None None None None).

(** The extractor called with [clickTms] undefined: no sample passes
    [s.tms <= undefined], and the differences with it are [NaN]. *)
Definition undefinedClickFeatures (prevClickTms : option Z) : Derived :=
  mkDerived (mkTiming (Some nan) None (option_map (fun _ => nan) prevClickTms))
            (mkSpatial None None None None)
            (mkKinematics None None None None None None None None)
            (mkFitts None None None None).

Section Enrichment.

Context {M : MathLib}.

(** The callback of [attemptsArray.map((attempt, idx) => ...)]. *)
Definition enrichOne (allSamples : list Schema.Sample) (attempt : Attempt)
    (prevClickTms : option Z) : Attempt :=
  let features :=
    if negb (length allSamples =? 0)%nat && clicked (click attempt) then
      match click_tms (click attempt) with
      | Some clickTms =>
          match FeatureExtraction.extractAttemptFeatures
                  allSamples (spawnTms attempt) clickTms (target attempt)
                  prevClickTms with
          | Ok f => ofFeatures f
          | Throw _ => buildBasicFeatures attempt prevClickTms
          end
      | None => undefinedClickFeatures prevClickTms
      end
    else buildBasicFeatures attempt prevClickTms in
  merge attempt features.

(** The map, with [prevClickTms = attemptsArray[idx - 1].click?.tms]. *)
Fixpoint enrichFrom (allSamples : list Schema.Sample) (prevClickTms : option Z)
    (attemptsArray : list Attempt) : list Attempt :=
  match attemptsArray with
  | [] => []
  | attempt :: rest =>
      enrichOne allSamples attempt prevClickTms
      :: enrichFrom allSamples (click_tms (click attempt)) rest
  end.

Definition enrich (allSamples : list Schema.Sample) (attemptsArray : list Attempt)
  : list Attempt :=
  enrichFrom allSamples None attemptsArray.

End Enrichment.

Record Bucket : Type := mkBucket {
  bucket_id : nat;
  bucket_sessionId : string;
  userId : option string;
  bucket_bucketNumber : nat;
  count : nat;
  bucket_isFull : bool;
  attempts : list Attempt;
}.

#[export] Instance Bucket_doc : BucketDoc Bucket := {|
  _id := bucket_id;
  set_id := fun i b =>
    mkBucket i (bucket_sessionId b) (userId b) (bucket_bucketNumber b) (count b)
             (bucket_isFull b) (attempts b);
  sessionId := bucket_sessionId;
  bucketNumber := bucket_bucketNumber;
  isFull := bucket_isFull;
  valid := fun b =>
    Schema.isRequiredString (bucket_sessionId b)
    && forallb validAttempt (attempts b);
|}.

Definition newBucket (sid : string) (uid : option string) (number : nat) : Bucket :=
  mkBucket 0 sid uid number 0 false [].

Definition setUserId (uid : option string) (b : Bucket) : Bucket :=
  mkBucket (bucket_id b) (bucket_sessionId b) uid (bucket_bucketNumber b)
           (count b) (bucket_isFull b) (attempts b).

Definition markFull (b : Bucket) : Bucket :=
  mkBucket (bucket_id b) (bucket_sessionId b) (userId b) (bucket_bucketNumber b)
           (count b) true (attempts b).

Definition pushAttempt (attempt : Attempt) (b : Bucket) : Bucket :=
  let attempts' := attempts b ++ [attempt] in
  mkBucket (bucket_id b) (bucket_sessionId b) (userId b) (bucket_bucketNumber b)
           (length attempts') (bucket_isFull b) attempts'.

Section Capacity.

Context {M : MathLib} {wording : Wording Bucket}.

Variable cap : nat.

Definition addOne (sessions : gset string) (sid : string) (uid : option string)
    (coll : list Bucket) (bucket : Bucket) (attempt : Attempt)
  : list Bucket * result Bucket :=
  andThen
    (if (cap <=? count bucket)%nat then
       let bucket := markFull bucket in
       andThen (save coll bucket) (fun coll bucket =>
       create sessions coll (newBucket sid uid (bucketNumber bucket + 1)))
     else (coll, Ok bucket))
    (fun coll bucket => (coll, Ok (pushAttempt attempt bucket))).

(** [addAttempts(sessionId, userId, attemptsArray)]: the collection it
    leaves, and the bucket it returns or the error it throws; [traces] is
    the MotorPointerTraceBucket collection it reads the samples from. *)
Definition addAttemptsWith (sessions : gset string)
    (traces : list MotorPointerTraceBucket.Bucket) (coll : list Bucket)
    (sid : string) (uid : option string) (attemptsArray : list Attempt)
  : list Bucket * result Bucket :=
  match attemptsArray with
  | [] => (coll, Throw (Error "attemptsArray must be a non-empty array"))
  | _ =>
      if negb (sessionFindOne sessions sid) then (coll, Throw (doesNotExist sid))
      else
        let allSamples :=
          MotorPointerTraceBucket.getSessionSamples traces sid None in
        let enrichedAttempts := enrich allSamples attemptsArray in
        andThen
          match findOneActive coll sid with
          | None => create sessions coll (newBucket sid uid 1)
          | Some bucket =>
              (coll,
               Ok (if truthy uid && negb (truthy (userId bucket))
                   then setUserId uid bucket else bucket))
          end
          (fun coll bucket =>
        andThen (forOf (addOne sessions sid uid) enrichedAttempts coll bucket)
          (fun coll bucket =>
        save coll bucket))
  end.

End Capacity.

Definition addAttempts {M : MathLib} {wording : Wording Bucket} :=
  addAttemptsWith MAX_ATTEMPTS_PER_BUCKET.

(** [getSessionAttempts(sessionId, round = null)]. *)
Definition getSessionAttempts (coll : list Bucket) (sid : string)
    (round_ : option Z) : list Attempt :=
  flat_map
    (fun bucket =>
       match round_ with
       | Some r => List.filter (fun a => (round a =? r)%Z) (attempts bucket)
       | None => attempts bucket
       end)
    (findBySession coll sid).

End MotorAttemptBucket.

(* ===================================================================== *)
(** * models/MotorSummary.js *)
(* ===================================================================== *)

Module MotorSummary.

Import MotorAttemptBucket.

(** [.filter(v => v != null)]. *)
Definition nonNull (arr : list (option float)) : list float :=
  omap id arr.

(** [[...arr].sort((a, b) => a - b)]: a stable sort. *)
Fixpoint insertSorted (v : float) (sorted : list float) : list float :=
  match sorted with
  | [] => [v]
  | e :: rest =>
      if (v - e <? 0)%float then v :: e :: rest else e :: insertSorted v rest
  end.

Definition sort (arr : list float) : list float :=
  fold_left (fun sorted v => insertSorted v sorted) arr [].

(** The aggregates of a round, field for field. *)
Record RoundFeatures : Type := mkRoundFeatures {
  reactionTime_mean : option float;
  reactionTime_std : option float;
  reactionTime_median : option float;
  movementTime_mean : option float;
  movementTime_std : option float;
  movementTime_median : option float;
  interTapTime_mean : option float;
  interTapTime_std : option float;
  errorDist_mean : option float;
  errorDist_std : option float;
  pathLength_mean : option float;
  straightness_mean : option float;
  straightness_std : option float;
  meanSpeed_mean : option float;
  peakSpeed_mean : option float;
  jerkRMS_mean : option float;
  jerkRMS_std : option float;
  submovementCount_mean : option float;
  submovementCount_std : option float;
  overshootCount_mean : option float;
  overshootCount_std : option float;
  throughput_mean : option float;
  throughput_std : option float;
  ID_mean : option float;
  nAttempts : nat;
  nHits : nat;
  nMisses : nat;
  hitRate : float;
}.

(** [Object.entries(rf)], in the order the object literal lists them. *)
Definition entries (rf : RoundFeatures) : list (string * option float) :=
  [ ("reactionTime_mean", reactionTime_mean rf);
    ("reactionTime_std", reactionTime_std rf);
    ("reactionTime_median", reactionTime_median rf);
    ("movementTime_mean", movementTime_mean rf);
    ("movementTime_std", movementTime_std rf);
    ("movementTime_median", movementTime_median rf);
    ("interTapTime_mean", interTapTime_mean rf);
    ("interTapTime_std", interTapTime_std rf);
    ("errorDist_mean", errorDist_mean rf);
    ("errorDist_std", errorDist_std rf);
    ("pathLength_mean", pathLength_mean rf);
    ("straightness_mean", straightness_mean rf);
    ("straightness_std", straightness_std rf);
    ("meanSpeed_mean", meanSpeed_mean rf);
    ("peakSpeed_mean", peakSpeed_mean rf);
    ("jerkRMS_mean", jerkRMS_mean rf);
    ("jerkRMS_std", jerkRMS_std rf);
    ("submovementCount_mean", submovementCount_mean rf);
    ("submovementCount_std", submovementCount_std rf);
    ("overshootCount_mean", overshootCount_mean rf);
    ("overshootCount_std", overshootCount_std rf);
    ("throughput_mean", throughput_mean rf);
    ("throughput_std", throughput_std rf);
    ("ID_mean", ID_mean rf);
    ("nAttempts", Some (nat2float (nAttempts rf)));
    ("nHits", Some (nat2float (nHits rf)));
    ("nMisses", Some (nat2float (nMisses rf)));
    ("hitRate", Some (hitRate rf)) ]%string.

Section Aggregator.

Context {M : MathLib}.

Definition mean (arr : list float) : option float :=
  if (0 <? length arr)%nat
  then Some (fold_left (fun a b => (a + b)%float) arr 0%float
             / nat2float (length arr))%float
  else None.

Definition std (arr : list float) : option float :=
  if (length arr <? 2)%nat then None
  else
    match mean arr with
    | Some m =>
        let variance :=
          (fold_left (fun sum v => (sum + Math_pow (v - m) 2)%float) arr 0%float
           / nat2float (length arr))%float in
        Some (Math_sqrt variance)
    | None => None
    end.

Definition median (arr : list float) : option float :=
  if (length arr =? 0)%nat then None
  else
    let sorted := sort arr in
    let mid := length sorted / 2 in
    if (length sorted mod 2 =? 0)%nat
    then Some ((num_at sorted (mid - 1) + num_at sorted mid) / 2)%float
    else Some (num_at sorted mid).

(** The body of [computeRoundFeatures] once the attempts are loaded. *)
Definition aggregate (attempts : list Attempt) : RoundFeatures :=
  let hits := List.filter (fun a => hit (click a)) attempts in
  let misses := List.filter (fun a => negb (hit (click a))) attempts in
  let reactionTimes := nonNull (map (fun a => reactionTimeMs (timing a)) attempts) in
  let movementTimes := nonNull (map (fun a => movementTimeMs (timing a)) hits) in
  let interTapTimes := nonNull (map (fun a => interTapMs (timing a)) attempts) in
  let errorDists := nonNull (map (fun a => errorDistNorm (spatial a)) hits) in
  let pathLengths := nonNull (map (fun a => pathLengthNorm (spatial a)) hits) in
  let straightness := nonNull (map (fun a => straightness (spatial a)) hits) in
  let meanSpeeds := nonNull (map (fun a => meanSpeed (kinematics a)) hits) in
  let peakSpeeds := nonNull (map (fun a => peakSpeed (kinematics a)) hits) in
  let jerkRMS := nonNull (map (fun a => jerkRMS (kinematics a)) hits) in
  let submovements := nonNull (map (fun a => submovementCount (kinematics a)) hits) in
  let overshoots := nonNull (map (fun a => overshootCount (kinematics a)) hits) in
  let throughputs := nonNull (map (fun a => throughput (fitts a)) hits) in
  let IDs := nonNull (map (fun a => ID (fitts a)) hits) in
  {| reactionTime_mean := mean reactionTimes;
     reactionTime_std := std reactionTimes;
     reactionTime_median := median reactionTimes;
     movementTime_mean := mean movementTimes;
     movementTime_std := std movementTimes;
     movementTime_median := median movementTimes;
     interTapTime_mean := mean interTapTimes;
     interTapTime_std := std interTapTimes;
     errorDist_mean := mean errorDists;
     errorDist_std := std errorDists;
     pathLength_mean := mean pathLengths;
     straightness_mean := mean straightness;
     straightness_std := std straightness;
     meanSpeed_mean := mean meanSpeeds;
     peakSpeed_mean := mean peakSpeeds;
     jerkRMS_mean := mean jerkRMS;
     jerkRMS_std := std jerkRMS;
     submovementCount_mean := mean submovements;
     submovementCount_std := std submovements;
     overshootCount_mean := mean overshoots;
     overshootCount_std := std overshoots;
     throughput_mean := mean throughputs;
     throughput_std := std throughputs;
     ID_mean := mean IDs;
     nAttempts := length attempts;
     nHits := length hits;
     nMisses := length misses;
     hitRate :=
       if (0 <? length attempts)%nat
       then (nat2float (length hits) / nat2float (length attempts))%float
       else 0%float |}.

(** [computeRoundFeatures(sessionId, round)]. *)
Definition computeRoundFeatures (coll : list Bucket) (sid : string) (round_ : Z)
  : option RoundFeatures :=
  let attempts := getSessionAttempts coll sid (Some round_) in
  if (length attempts =? 0)%nat then None else Some (aggregate attempts).

(** The key [`r${r}_${key}`]. *)
Definition roundKey (r : nat) (key : string) : string :=
  ("r" ++ pretty r ++ "_" ++ key)%string.

(** [for (const [key, value] of Object.entries(rf)) allFeatures[...] = value]. *)
Definition copyRound (r : nat) (rf : RoundFeatures)
    (allFeatures : gmap string (option float)) : gmap string (option float) :=
  fold_left (fun all kv => <[ roundKey r (fst kv) := snd kv ]> all)
            (entries rf) allFeatures.

(** [arr[arr.length - 1] - arr[0]] when [arr.length > 1]. *)
Definition trend (arr : list float) : option float :=
  if (1 <? length arr)%nat
  then Some (num_at arr (length arr - 1) - num_at arr 0)%float
  else None.

Definition setTrend (key : string) (arr : list float)
    (allFeatures : gmap string (option float)) : gmap string (option float) :=
  match trend arr with
  | Some v => <[ key := Some v ]> allFeatures
  | None => allFeatures
  end.

(** [for (let r = 1; r <= 3; r++)]: the rounds that have features are
    copied into the empty [allFeatures]. *)
Definition copyRounds (features1 features2 features3 : option RoundFeatures)
  : gmap string (option float) :=
  fold_left
    (fun all r =>
       match nth (r - 1) [features1; features2; features3] None with
       | Some rf => copyRound r rf all
       | None => all
       end)
    [1; 2; 3] (∅ : gmap string (option float)).

(** [computeSessionFeatures(sessionId)]. *)
Definition computeSessionFeatures (coll : list Bucket) (sid : string)
  : gmap string (option float) :=
  let features1 := computeRoundFeatures coll sid 1 in
  let features2 := computeRoundFeatures coll sid 2 in
  let features3 := computeRoundFeatures coll sid 3 in
  let allFeatures := copyRounds features1 features2 features3 in
  let hitRates :=
    nonNull (map (option_map hitRate) [features1; features2; features3]) in
  let allFeatures := setTrend "hitRate_trend" hitRates allFeatures in
  let throughputs :=
    nonNull (map (fun f : option RoundFeatures => f ≫= throughput_mean)
                 [features1; features2; features3]) in
  setTrend "throughput_trend" throughputs allFeatures.

End Aggregator.

End MotorSummary.

(* ===================================================================== *)
(** * controllers/motorController.js *)
(* ===================================================================== *)

Module MotorController.

Import Mongoose.

(** The body of [POST /api/motor/attempts]. *)
Record Request : Type := mkRequest {
  req_sessionId : option string;
  req_userId : option string;
  req_attempts : option (list MotorAttemptBucket.Attempt);
}.

(** What [res.json] sends; [res.json] alone answers with status 200. *)
Inductive Body : Type :=
| Received (received : nat) (processing : bool)
| Failure (error : string).

Record Response : Type := mkResponse {
  status : nat;
  success : bool;
  body : Body;
}.

Inductive LogEntry : Type :=
| LogInfo (what : string) (sessionId : string) (count bucketNumber : nat)
| LogError (what : string) (sessionId : string) (error : string).

(** The collections and the log the handlers act on. *)
Record World : Type := mkWorld {
  sessions : gset string;
  traces : list MotorPointerTraceBucket.Bucket;
  attemptBuckets : list MotorAttemptBucket.Bucket;
  logs : list LogEntry;
}.

Definition message (e : JsError) : string :=
  match e with
  | TypeError m => m
  | Error m => m
  | ValidationError m => m
  end.

(** [s.includes(sub)]. *)
Fixpoint includes (s sub : string) : bool :=
  String.prefix sub s
  || match s with
     | EmptyString => false
     | String _ s' => includes s' sub
     end.

Section Handlers.

Context {M : MathLib} {wording : Wording MotorAttemptBucket.Bucket}.

(** The callback given to [setImmediate]: it runs once the response is
    sent, and its own [try]/[catch] turns a failure into a log entry; the
    attempt buckets are as [addAttempts] leaves them either way. *)
Definition processAttempts (sid : string) (uid : option string)
    (attempts : list MotorAttemptBucket.Attempt) (w : World) : World :=
  match MotorAttemptBucket.addAttempts (sessions w) (traces w)
          (attemptBuckets w) sid uid attempts with
  | (coll, Ok bucket) =>
      mkWorld (sessions w) (traces w) coll
              (logs w ++ [LogInfo "Motor attempts logged" sid (length attempts)
                                  (MotorAttemptBucket.bucket_bucketNumber bucket)])
  | (coll, Throw e) =>
      mkWorld (sessions w) (traces w) coll
              (logs w ++ [LogError "Error processing motor attempts:" sid
                                   (message e)])
  end.

(** The [try] block of [logAttempts]. *)
Definition logAttemptsBody (req : Request) (w : World)
  : result (Response * World) :=
  match truthy (req_sessionId req), req_sessionId req, req_attempts req with
  | true, Some sid, Some ((_ :: _) as attempts) =>
      let response := mkResponse 200 true (Received (length attempts) true) in
      Ok (response, processAttempts sid (req_userId req) attempts w)
  | _, _, _ =>
      Ok (mkResponse 400 false
                     (Failure "Session ID and attempts array are required"), w)
  end.

(** [logAttempts(req, res)], with the [catch] block of the handler. *)
Definition logAttempts (req : Request) (w : World) : Response * World :=
  match logAttemptsBody req w with
  | Ok rw => rw
  | Throw e =>
      if includes (message e) "does not exist"
      then (mkResponse 404 false (Failure (message e)), w)
      else (mkResponse 500 false (Failure (message e)), w)
  end.

End Handlers.

(** The [counts] block [computeRoundSummary] stores. *)
Record Counts : Type := mkCounts {
  nTargets : nat;
  nHits : nat;
  nMisses : nat;
  hitRate : float;
}.

Definition countsOf (features : MotorSummary.RoundFeatures) : Counts :=
  mkCounts (MotorSummary.nAttempts features) (MotorSummary.nHits features)
           (MotorSummary.nMisses features) (MotorSummary.hitRate features).

End MotorController.

(* ===================================================================== *)
(** * The specification's wording, as definitions *)
(* ===================================================================== *)

Module Spec.

Import FeatureExtraction.

(** The number of windows of three consecutive elements that satisfy [P]. *)
Fixpoint countTriples {A : Type} (P : A -> A -> A -> bool) (l : list A) : nat :=
  match l with
  | a :: ((b :: c :: _) as rest) =>
      (if P a b c then 1 else 0) + countTriples P rest
  | _ => 0
  end.

Section Detectors.

Context {M : MathLib}.

(** A reversal of the distance to the target: it fell by more than
    [0.001] and then rose by more than [0.001]. *)
Definition reversal (d0 d1 d2 : float) : bool :=
  (d1 - d0 <? -0.001)%float && (0.001 <? d2 - d1)%float.

(** Detector 1: reversals whose last distance is inside the gate. *)
Definition globalReversals (d : list float) (gate : float) : nat :=
  countTriples (fun d0 d1 d2 => reversal d0 d1 d2 && (d2 <? gate)%float) d.

(** The last 30% of the moving segment. *)
Definition lastThirtyPercent (moveSeg : list Sample) : list Sample :=
  skipn (Z.to_nat (Math_floor (nat2float (length moveSeg) * 0.7)%float)) moveSeg.

(** Detector 2: reversals in the last 30%, for more than 5 samples. *)
Definition finalApproachReversals (moveSeg : list Sample) (target : Target) : nat :=
  if (5 <? length moveSeg)%nat
  then countTriples reversal
                    (map (fun s => dist s target) (lastThirtyPercent moveSeg))
  else 0.

(** Three consecutive samples oscillate when the last is inside the gate
    and the step in x or in y changes sign, beyond [0.002] both times. *)
Definition oscillates (target : Target) (gate : float) (s0 s1 s2 : Sample) : bool :=
  (dist s2 target <? gate)%float
  && (stepReversal (x s1 - x s0) (x s2 - x s1)
      || stepReversal (y s1 - y s0) (y s2 - y s1)).

(** Detector 3 as the specification words it: every sample of the
    segment. *)
Definition oscillationsClaimed (moveSeg : list Sample) (target : Target)
    (gate : float) : nat :=
  countTriples (oscillates target gate) moveSeg.

(** Detector 3 as the code runs it: the windows that end at index 3 or
    later, and only for more than 4 samples. *)
Definition oscillationsFromThird (moveSeg : list Sample) (target : Target)
    (gate : float) : nat :=
  if (4 <? length moveSeg)%nat
  then countTriples (oscillates target gate) (tl moveSeg)
  else 0.

End Detectors.

(** Sorted by timestamp. *)
Definition sortedByTms (samples : list Sample) : Prop :=
  Sorted (fun a b => (tms a <= tms b)%Z) samples.

(** [last - first] of the values of rounds 1, 2, 3 that are available,
    round by round: the first available one and the last available one,
    when two or more are. *)
Definition trendOver (v1 v2 v3 : option float) : option float :=
  match v1, v2, v3 with
  | Some first, _, Some last => Some (last - first)%float
  | Some first, Some last, None => Some (last - first)%float
  | None, Some first, Some last => Some (last - first)%float
  | _, _, _ => None
  end.

(** How many of the rounds have a value. *)
Definition available (values : list (option float)) : nat :=
  length (List.filter (fun v => match v with Some _ => true | None => false end)
                      values).

(** The movement time in seconds, and 0.05 s where it is below that. *)
Definition clampedSeconds (movementTimeMs : Z) : float :=
  let seconds := (Z2float movementTimeMs / 1000)%float in
  if (seconds <? 0.05)%float then 0.05%float else seconds.

(** The enriched attempts of a round of a session: the attempts of that
    round, out of every bucket of the collection that belongs to the
    session. *)
Definition attemptsOfRound (coll : list MotorAttemptBucket.Bucket)
    (sid : string) (r : Z) : list MotorAttemptBucket.Attempt :=
  flat_map
    (fun b : MotorAttemptBucket.Bucket =>
       if String.eqb (MotorAttemptBucket.bucket_sessionId b) sid
       then List.filter (fun a => (MotorAttemptBucket.round a =? r)%Z)
                        (MotorAttemptBucket.attempts b)
       else [])
    coll.

(** The values a feature takes over a set of attempts, nulls left out. *)
Definition valuesOver (subset : list MotorAttemptBucket.Attempt)
    (feature : MotorAttemptBucket.Attempt -> option float) : list float :=
  MotorSummary.nonNull (map feature subset).

(** A synchronous rejection with an unknown-session error: a failure
    whose message names the missing session. *)
Definition unknownSessionRejection (r : MotorController.Response) : bool :=
  negb (MotorController.success r)
  && match MotorController.body r with
     | MotorController.Failure error =>
         MotorController.includes error "does not exist"
     | MotorController.Received _ _ => false
     end.

(** [ceil(n / c)]. *)
Definition ceilDiv (n c : nat) : nat := (n + c - 1) / c.

End Spec.

(* ===================================================================== *)
(** * Invariants of the append loops *)
(* ===================================================================== *)

Module Invariants.

Import Schema MotorPointerTraceBucket.

(** Buckets in ascending order of their numbers, no number twice. *)
Definition ascending {D : Type} `{Mongoose.BucketDoc D} (docs : list D) : Prop :=
  StronglySorted
    (fun a b => Mongoose.bucketNumber a < Mongoose.bucketNumber b) docs.

End Invariants.

(* ===================================================================== *)
(** * Scenarios *)
(* ===================================================================== *)

Module Scenario.

Import Schema.

(** A [Math] that is exact where the scenarios use it: [hypot] on
    axis-aligned steps, [log2] on powers of two, [pow] on squares. *)
Definition ScenarioMath : MathLib := {|
  Math_hypot := fun a b =>
    if (b =? 0)%float then abs a
    else if (a =? 0)%float then abs b
    else PrimFloat.sqrt (a * a + b * b)%float;
  Math_log2 := fun v =>
    let '(m, e) := Z.frexp v in (Z2float (e - 1) + (2 * m - 1))%float;
  Math_pow := fun b e => if (e =? 2)%float then (b * b)%float else nan;
|}.

(** A wording of validation failures for the scenarios. *)
Definition traceWording : Mongoose.Wording MotorPointerTraceBucket.Bucket :=
  fun _ => "MotorPointerTraceBucket validation failed"%string.

Definition attemptWording : Mongoose.Wording MotorAttemptBucket.Bucket :=
  fun _ => "MotorAttemptBucket validation failed"%string.

Definition sampleAt (t : Z) (px py : float) : Sample :=
  mkSample 1 t px py false "mouse".

(** Five samples that swing across the target once, at the second
    sample, and then rest. *)
Definition swing : list Sample :=
  [ sampleAt 0 (-0.01) 0; sampleAt 10 0.01 0; sampleAt 20 (-0.01) 0;
    sampleAt 30 (-0.01) 0; sampleAt 40 (-0.01) 0 ]%float.

Definition swingTarget : Target := mkTarget 0 0 1.

(** Scenario A: a straight line from (0,0) to (0.1,0) in 100 ms. *)
Definition straightLine : list Sample :=
  [ sampleAt 0 0 0; sampleAt 25 0.025 0; sampleAt 50 0.05 0;
    sampleAt 75 0.075 0; sampleAt 100 0.1 0 ]%float.

Definition lineTarget : Target := mkTarget 0.1 0 0.05.

(** The same line in 8 ms, below the floor of 50 ms. *)
Definition quickLine : list Sample :=
  [ sampleAt 0 0 0; sampleAt 2 0.025 0; sampleAt 4 0.05 0;
    sampleAt 6 0.075 0; sampleAt 8 0.1 0 ]%float.

(** Four samples at rest on a target of radius zero. *)
Definition atRest : list Sample :=
  [ sampleAt 0 0.5 0.5; sampleAt 10 0.5 0.5; sampleAt 20 0.5 0.5;
    sampleAt 30 0.5 0.5 ]%float.

Definition pointTarget : Target := mkTarget 0.5 0.5 0.

Definition threeSamples : list Sample :=
  [ sampleAt 1 0.5 0.5; sampleAt 2 0.5 0.5; sampleAt 3 0.5 0.5 ]%float.

Definition fiveSamples : list Sample :=
  threeSamples ++ [ sampleAt 4 0.5 0.5; sampleAt 5 0.5 0.5 ]%float.

(** An enriched attempt of round [r]: hit or missed, with a movement time
    and a throughput. *)
Definition attemptOf (r : Z) (isHit : bool) (movement thr : option float)
  : MotorAttemptBucket.Attempt :=
  MotorAttemptBucket.mkAttempt r "a" "b" 1000 (mkTarget 0.5 0.5 0.05)
    (MotorAttemptBucket.mkClick true isHit (if isHit then "hit" else "bubble_miss")
                                (Some 1400%Z) (Some 0.5%float) (Some 0.5%float))
    (MotorAttemptBucket.mkTiming (Some 400%float) movement None)
    (MotorAttemptBucket.mkSpatial None None None None)
    (MotorAttemptBucket.mkKinematics None None None None None None None None)
    (MotorAttemptBucket.mkFitts None None None thr).

Definition aHit (r : Z) (thr : float) : MotorAttemptBucket.Attempt :=
  attemptOf r true (Some 300%float) (Some thr).

Definition aMiss (r : Z) : MotorAttemptBucket.Attempt :=
  attemptOf r false (Some 100%float) None.

Definition bucketOf (attempts : list MotorAttemptBucket.Attempt)
  : MotorAttemptBucket.Bucket :=
  MotorAttemptBucket.mkBucket 0 "s1" None 1 (length attempts) false attempts.

(** Scenario B: one round, 10 attempts, 6 hits and 4 misses. *)
Definition sixOfTen : list MotorAttemptBucket.Bucket :=
  [ bucketOf [ aHit 1 4; aMiss 1; aHit 1 4; aHit 1 4; aMiss 1;
               aHit 1 4; aMiss 1; aHit 1 4; aHit 1 4; aMiss 1 ]%float ].

(** Scenario E: rounds 1 and 3 only; 1 hit of 2, then 3 hits of 4. *)
Definition roundsOneAndThree : list MotorAttemptBucket.Bucket :=
  [ bucketOf [ aHit 1 4; aMiss 1;
               aHit 3 6; aHit 3 6; aMiss 3; aHit 3 6 ]%float ].

(** A round whose only attempt is a miss that has a movement time. *)
Definition loneMiss : list MotorAttemptBucket.Bucket := [ bucketOf [ aMiss 1 ] ].

(** A batch for a session that was never registered. *)
Definition ghostRequest : MotorController.Request :=
  MotorController.mkRequest (Some "ghost") None (Some [ aMiss 1 ]).

Definition oneSession : MotorController.World :=
  MotorController.mkWorld {[ "s1" ]} [] [] [].

End Scenario.

(* ===================================================================== *)
(** * What the two bucket models share *)
(* ===================================================================== *)

(** The modules from here on cover the code around the functions above:

    - [Module ChunkedStore]: the append loop [addSamples] and [addAttempts]
      share, the shape it gives a collection, and the collections the
      calls leave, from the empty one on, whether they return or throw;
    - [Module Bookkeeping]: the time range of a trace bucket;
    - [Module FeatureExtractionBatch]: [extractBatchFeatures] of
      [utils/featureExtraction.js];
    - [Module AttemptStats]: [getSessionStats] of
      [models/MotorAttemptBucket.js];
    - [Module MotorTraceController]: [logPointerSamples] of
      [controllers/motorController.js];
    - [Module StoreScenario]: more concrete inputs. *)

Module ChunkedStore.

Import Mongoose.

(** The operations of a bucket model on its buckets: [B] is the bucket
    document, [I] what it stores, [validItem] the validators of the
    schema of [I]. *)
Class BucketOps (B I : Type) : Type := {
  items : B -> list I;
  itemCount : B -> nat;
  userOf : B -> option string;
  closeBucket : B -> B;
  pushItem : I -> B -> B;
  freshBucket : string -> option string -> nat -> B;
  withUser : option string -> B -> B;
  validItem : I -> bool;
}.

#[export] Instance Trace_ops
  : BucketOps MotorPointerTraceBucket.Bucket Schema.Sample := {|
  items := MotorPointerTraceBucket.samples;
  itemCount := MotorPointerTraceBucket.count;
  userOf := MotorPointerTraceBucket.userId;
  closeBucket := MotorPointerTraceBucket.markFull;
  pushItem := MotorPointerTraceBucket.pushSample;
  freshBucket := MotorPointerTraceBucket.newBucket;
  withUser := MotorPointerTraceBucket.setUserId;
  validItem := Schema.validSample;
|}.

#[export] Instance Attempt_ops
  : BucketOps MotorAttemptBucket.Bucket MotorAttemptBucket.Attempt := {|
  items := MotorAttemptBucket.attempts;
  itemCount := MotorAttemptBucket.count;
  userOf := MotorAttemptBucket.userId;
  closeBucket := MotorAttemptBucket.markFull;
  pushItem := MotorAttemptBucket.pushAttempt;
  freshBucket := MotorAttemptBucket.newBucket;
  withUser := MotorAttemptBucket.setUserId;
  validItem := MotorAttemptBucket.validAttempt;
|}.

Section Generic.

Context {B I : Type} `{BucketDoc B} {ops : BucketOps B I}.

(** What the operations keep and change. *)
Record Lawful : Prop := {
  set_id_id : forall n b, _id (set_id n b) = n;
  set_id_session : forall n b, sessionId (set_id n b) = sessionId b;
  set_id_number : forall n b, bucketNumber (set_id n b) = bucketNumber b;
  set_id_full : forall n b, isFull (set_id n b) = isFull b;
  set_id_items : forall n b, items (set_id n b) = items b;
  set_id_count : forall n b, itemCount (set_id n b) = itemCount b;
  close_id : forall b, _id (closeBucket b) = _id b;
  close_session : forall b, sessionId (closeBucket b) = sessionId b;
  close_number : forall b, bucketNumber (closeBucket b) = bucketNumber b;
  close_full : forall b, isFull (closeBucket b) = true;
  close_items : forall b, items (closeBucket b) = items b;
  close_count : forall b, itemCount (closeBucket b) = itemCount b;
  push_id : forall i b, _id (pushItem i b) = _id b;
  push_session : forall i b, sessionId (pushItem i b) = sessionId b;
  push_number : forall i b, bucketNumber (pushItem i b) = bucketNumber b;
  push_full : forall i b, isFull (pushItem i b) = isFull b;
  push_items : forall i b, items (pushItem i b) = items b ++ [i];
  push_count : forall i b, itemCount (pushItem i b) = S (length (items b));
  fresh_session : forall sid uid n, sessionId (freshBucket sid uid n) = sid;
  fresh_number : forall sid uid n, bucketNumber (freshBucket sid uid n) = n;
  fresh_full : forall sid uid n, isFull (freshBucket sid uid n) = false;
  fresh_items : forall sid uid n, items (freshBucket sid uid n) = [];
  fresh_count : forall sid uid n, itemCount (freshBucket sid uid n) = 0;
  user_id : forall uid b, _id (withUser uid b) = _id b;
  user_session : forall uid b, sessionId (withUser uid b) = sessionId b;
  user_number : forall uid b, bucketNumber (withUser uid b) = bucketNumber b;
  user_full : forall uid b, isFull (withUser uid b) = isFull b;
  user_items : forall uid b, items (withUser uid b) = items b;
  user_count : forall uid b, itemCount (withUser uid b) = itemCount b;
  valid_items : forall b,
    valid b
    = Schema.isRequiredString (sessionId b) && forallb validItem (items b);
}.

Context {wording : Wording B}.

(** The body of the append loop of [addSamples] and [addAttempts]. *)
Definition appendOne (cap : nat) (sessions : gset string) (sid : string)
    (uid : option string) (coll : list B) (bucket : B) (item : I)
  : list B * result B :=
  andThen
    (if (cap <=? itemCount bucket)%nat then
       let bucket := closeBucket bucket in
       andThen (save coll bucket) (fun coll bucket =>
       create sessions coll (freshBucket sid uid (bucketNumber bucket + 1)))
     else (coll, Ok bucket))
    (fun coll bucket => (coll, Ok (pushItem item bucket))).

(** Both functions from the lookup of the active bucket on. *)
Definition appendAll (cap : nat) (sessions : gset string) (coll : list B)
    (sid : string) (uid : option string) (batch : list I)
  : list B * result B :=
  andThen
    match findOneActive coll sid with
    | None => create sessions coll (freshBucket sid uid 1)
    | Some bucket =>
        (coll,
         Ok (if truthy uid && negb (truthy (userOf bucket))
             then withUser uid bucket else bucket))
    end
    (fun coll bucket =>
  andThen (forOf (appendOne cap sessions sid uid) batch coll bucket)
    (fun coll bucket =>
  save coll bucket)).

(** Everything a session stores, bucket after bucket in the order of the
    collection. *)
Definition stored (coll : list B) (sid : string) : list I :=
  concat (map items (ofSession coll sid)).

(** Every document sits at the position its [_id] names. *)
Definition placed (coll : list B) : Prop :=
  forall i b, nth_error coll i = Some b -> _id b = i.

(** The shape of the buckets of one session, in the order of the
    collection: they are numbered from 1; all but the last are marked
    full and hold exactly [cap] items; the last is open and holds at most
    [cap] items, none when it was created by an append that then failed;
    [count] is the number of items. *)
Definition shaped (cap : nat) (mine : list B) : Prop :=
  forall (closed : list B) (last : B),
    mine = closed ++ [last] ->
    map bucketNumber (closed ++ [last]) = seq 1 (S (length closed))
    /\ List.Forall (fun b => isFull b = true
                            /\ length (items b) = cap
                            /\ itemCount b = cap) closed
    /\ isFull last = false
    /\ itemCount last = length (items last)
    /\ length (items last) <= cap.

(** The shape appends give a collection, whether they return or throw:
    every document sits at the position its [_id] names, every document
    is valid, and the buckets of every session are [shaped]. *)
Definition wellFormed (cap : nat) (coll : list B) : Prop :=
  placed coll
  /\ List.Forall (fun b => valid b = true) coll
  /\ forall sid : string, shaped cap (ofSession coll sid).

(** The state of the append loop on the session [sid], started on
    [coll0]: the collection is well formed and holds, after what the
    session stored, the items [flushed]; the bucket in memory is the last
    bucket of the session with the items [pending] pushed and not yet
    saved; the other sessions are as they were. *)
Definition filling (cap : nat) (sid : string) (coll0 : list B)
    (coll : list B) (bucket : B) (flushed pending : list I) : Prop :=
  exists (before : list B) (copy : B) (after : list B),
    coll = before ++ [copy] ++ after
    /\ wellFormed cap coll
    /\ ofSession after sid = []
    /\ sessionId copy = sid
    /\ sessionId bucket = sid
    /\ _id bucket = length before
    /\ isFull bucket = false
    /\ bucketNumber bucket = bucketNumber copy
    /\ itemCount bucket = length (items bucket)
    /\ length (items bucket) <= cap
    /\ items bucket = items copy ++ pending
    /\ stored coll sid = stored coll0 sid ++ flushed
    /\ (forall sid', sid' <> sid -> ofSession coll sid' = ofSession coll0 sid').

End Generic.

(** The collections that calls of [addSamples] leave, from the empty one
    on, whether the calls return or throw. *)
Section TraceReachable.

Context {wording : Wording MotorPointerTraceBucket.Bucket}.

Inductive traceReachable (cap : nat)
  : list MotorPointerTraceBucket.Bucket -> Prop :=
| trace_empty : traceReachable cap []
| trace_added (sessions : gset string) (coll : list MotorPointerTraceBucket.Bucket)
    (sid : string) (uid : option string) (samplesArray : list Schema.Sample)
    (coll' : list MotorPointerTraceBucket.Bucket)
    (outcome : result MotorPointerTraceBucket.Bucket) :
    traceReachable cap coll ->
    MotorPointerTraceBucket.addSamplesWith cap sessions coll sid uid samplesArray
    = (coll', outcome) ->
    traceReachable cap coll'.

End TraceReachable.

(** The collections that calls of [addAttempts] leave, likewise. *)
Section AttemptsReachable.

Context {M : MathLib} {wording : Wording MotorAttemptBucket.Bucket}.

Inductive attemptReachable (cap : nat)
  : list MotorAttemptBucket.Bucket -> Prop :=
| attempt_empty : attemptReachable cap []
| attempt_added (sessions : gset string)
    (traces : list MotorPointerTraceBucket.Bucket)
    (coll : list MotorAttemptBucket.Bucket)
    (sid : string) (uid : option string)
    (attemptsArray : list MotorAttemptBucket.Attempt)
    (coll' : list MotorAttemptBucket.Bucket)
    (outcome : result MotorAttemptBucket.Bucket) :
    attemptReachable cap coll ->
    MotorAttemptBucket.addAttemptsWith cap sessions traces coll sid uid
                                       attemptsArray
    = (coll', outcome) ->
    attemptReachable cap coll'.

End AttemptsReachable.

End ChunkedStore.

(* ===================================================================== *)
(** * The bookkeeping of a trace bucket *)
(* ===================================================================== *)

Module Bookkeeping.

Import MotorPointerTraceBucket.




End Bookkeeping.

(* ===================================================================== *)
(** * utils/featureExtraction.js: the batch entry point *)
(* ===================================================================== *)

Module FeatureExtractionBatch.

Import MotorAttemptBucket.

Section Batch.

Context {M : MathLib}.

(** One turn of the loop of [extractBatchFeatures]: the extractor is
    called with no [try] around it, and its features are merged over the
    attempt. *)
Definition extractOne (allSamples : list Schema.Sample) (attempt : Attempt)
    (prevClickTms : option Z) : result Attempt :=
  features ←
    match click_tms (click attempt) with
    | Some clickTms =>
        f ← FeatureExtraction.extractAttemptFeatures
              allSamples (spawnTms attempt) clickTms (target attempt)
              prevClickTms;
        Ok (ofFeatures f)
    | None => Ok (undefinedClickFeatures prevClickTms)
    end;
  Ok (merge attempt features).

(** The loop, with [prevClickTms = attempts[i-1].click.tms]. *)
Fixpoint extractBatchFrom (allSamples : list Schema.Sample)
    (prevClickTms : option Z) (attempts : list Attempt)
  : result (list Attempt) :=
  match attempts with
  | [] => Ok []
  | attempt :: rest =>
      enriched ← extractOne allSamples attempt prevClickTms;
      more ← extractBatchFrom allSamples (click_tms (click attempt)) rest;
      Ok (enriched :: more)
  end.

(** [extractBatchFeatures(attempts, allSamples)]. *)
Definition extractBatchFeatures (attempts : list Attempt)
    (allSamples : list Schema.Sample) : result (list Attempt) :=
  extractBatchFrom allSamples None attempts.

End Batch.

End FeatureExtractionBatch.

(* ===================================================================== *)
(** * models/MotorAttemptBucket.js: the statistics of a session *)
(* ===================================================================== *)

Module AttemptStats.

Import Mongoose MotorAttemptBucket.

Record RoundStats : Type := mkRoundStats {
  totalAttempts : nat;
  hits : nat;
  misses : nat;
  hitRate : float;
  avgReactionTime : option float;
  avgMovementTime : option float;
  avgThroughput : option float;
}.

Record Stats : Type := mkStats {
  stats_sessionId : string;
  total : nat;
  rounds : gmap string RoundStats;
}.

(** [v || 0] on a number that may be absent. *)
Definition orZero (v : option float) : float :=
  match v with
  | Some f => if falsy f then 0%float else f
  | None => 0%float
  end.

(** [arr.reduce((sum, a) => sum + (field(a) || 0), 0) / n]. *)
Definition average (field : Attempt -> option float) (arr : list Attempt)
    (n : nat) : float :=
  (fold_left (fun sum a => (sum + orZero (field a))%float) arr 0%float
   / nat2float n)%float.

(** The body of the loop over [Object.entries(byRound)]; [misses] is the
    difference of two lengths, the second never above the first. *)
Definition roundStats (attempts : list Attempt) : RoundStats :=
  let hits := List.filter (fun a => hit (click a)) attempts in
  {| totalAttempts := length attempts;
     hits := length hits;
     misses := length attempts - length hits;
     hitRate :=
       if (0 <? length attempts)%nat
       then (nat2float (length hits) / nat2float (length attempts))%float
       else 0%float;
     avgReactionTime :=
       if (0 <? length attempts)%nat
       then Some (average (fun a => reactionTimeMs (timing a)) attempts
                          (length attempts))
       else None;
     avgMovementTime :=
       if (0 <? length attempts)%nat
       then Some (average (fun a => movementTimeMs (timing a)) attempts
                          (length attempts))
       else None;
     avgThroughput :=
       if (0 <? length hits)%nat
       then Some (average (fun a => throughput (fitts a)) hits (length hits))
       else None |}.

(** [byRound], with the keys [Object.entries] gives, in its order. *)
Definition byRound (allAttempts : list Attempt) : list (string * list Attempt) :=
  [ ("1"%string, List.filter (fun a => (round a =? 1)%Z) allAttempts);
    ("2"%string, List.filter (fun a => (round a =? 2)%Z) allAttempts);
    ("3"%string, List.filter (fun a => (round a =? 3)%Z) allAttempts) ].

(** [getSessionStats(sessionId)]. *)
Definition getSessionStats (coll : list Bucket) (sid : string) : Stats :=
  let allAttempts := getSessionAttempts coll sid None in
  {| stats_sessionId := sid;
     total := length allAttempts;
     rounds :=
       fold_left
         (fun (rounds : gmap string RoundStats) entry =>
            <[ fst entry := roundStats (snd entry) ]> rounds)
         (byRound allAttempts) ∅ |}.

End AttemptStats.

(* ===================================================================== *)
(** * controllers/motorController.js: the pointer trace endpoint *)
(* ===================================================================== *)

Module MotorTraceController.

Import Mongoose MotorController.

(** The body of [POST /api/motor/trace]. *)
Record Request : Type := mkRequest {
  req_sessionId : option string;
  req_userId : option string;
  req_samples : option (list Schema.Sample);
}.

Section Handlers.

Context {wording : Wording MotorPointerTraceBucket.Bucket}.

(** The callback given to [setImmediate]; the trace is as [addSamples]
    leaves it, whether it returns or throws. *)
Definition processSamples (sid : string) (uid : option string)
    (samples : list Schema.Sample) (w : World) : World :=
  match MotorPointerTraceBucket.addSamples (sessions w) (traces w) sid uid
          samples with
  | (coll, Ok bucket) =>
      mkWorld (sessions w) coll (attemptBuckets w)
              (logs w ++ [LogInfo "Pointer samples logged" sid (length samples)
                                  (MotorPointerTraceBucket.bucket_bucketNumber
                                     bucket)])
  | (coll, Throw e) =>
      mkWorld (sessions w) coll (attemptBuckets w)
              (logs w ++ [LogError "Error processing pointer samples:" sid
                                   (message e)])
  end.

(** The [try] block of [logPointerSamples]. *)
Definition logPointerSamplesBody (req : Request) (w : World)
  : result (Response * World) :=
  match truthy (req_sessionId req), req_sessionId req, req_samples req with
  | true, Some sid, Some ((_ :: _) as samples) =>
      let response := mkResponse 200 true (Received (length samples) true) in
      Ok (response, processSamples sid (req_userId req) samples w)
  | _, _, _ =>
      Ok (mkResponse 400 false
                     (Failure "Session ID and samples array are required"), w)
  end.

(** [logPointerSamples(req, res)], with the [catch] block of the handler. *)
Definition logPointerSamples (req : Request) (w : World) : Response * World :=
  match logPointerSamplesBody req w with
  | Ok rw => rw
  | Throw e =>
      if includes (message e) "does not exist"
      then (mkResponse 404 false (Failure (message e)), w)
      else (mkResponse 500 false (Failure (message e)), w)
  end.

End Handlers.

End MotorTraceController.

(* ===================================================================== *)
(** * More scenarios *)
(* ===================================================================== *)

Module StoreScenario.

Import Scenario.

(** The trace collection once [fiveSamples] went into buckets of two. *)
Definition fiveStored : list MotorPointerTraceBucket.Bucket :=
  fst (MotorPointerTraceBucket.addSamplesWith (wording := traceWording) 2
         {[ "s1"%string ]} [] "s1" None fiveSamples).

Definition twoSessions : gset string := {[ "s1"%string; "s2"%string ]}.

(** Three samples, the last of a round the schema does not allow. *)
Definition strayRound : list Schema.Sample :=
  [ sampleAt 1 0.5 0.5; sampleAt 2 0.5 0.5;
    Schema.mkSample 7 3 0.5 0.5 false "mouse" ]%float.

(** The trace collection once [strayRound] was refused for the session
    s2, with buckets of two. *)
Definition afterRefusal : list MotorPointerTraceBucket.Bucket :=
  fst (MotorPointerTraceBucket.addSamplesWith (wording := traceWording) 2
         twoSessions [] "s2" None strayRound).

(** The attempt collection once [aHit 1 4; aMiss 1; aHit 2 6] went into
    buckets of two, with no trace stored. *)
Definition threeAttempts : list MotorAttemptBucket.Attempt :=
  [ aHit 1 4; aMiss 1; aHit 2 6 ]%float.

Definition threeStored : list MotorAttemptBucket.Bucket :=
  fst (MotorAttemptBucket.addAttemptsWith (M := ScenarioMath)
         (wording := attemptWording) 2 {[ "s1"%string ]} [] [] "s1" None
         threeAttempts).



(** Scenario B next to a bucket of another session that holds two hits
    of round 1. *)
Definition sixOfTenAndOthers : list MotorAttemptBucket.Bucket :=
  sixOfTen
  ++ [ MotorAttemptBucket.mkBucket 1 "s2" None 1 2 false
         [ aHit 1 4; aHit 1 4 ]%float ].

(** Six samples that pass the target twice and come back. *)
Definition wobble : list Schema.Sample :=
  [ sampleAt 0 0 0; sampleAt 10 0.125 0; sampleAt 20 0.25 0;
    sampleAt 30 0.125 0; sampleAt 40 0.25 0; sampleAt 50 0.125 0 ]%float.

Definition wobbleTarget : Schema.Target := Schema.mkTarget 0.25 0 0.125.

(** A hit at the end of [straightLine], as the client submits it. *)
Definition lineAttempt : MotorAttemptBucket.Attempt :=
  MotorAttemptBucket.mkAttempt 1 "a1" "b1" 0 lineTarget
    (MotorAttemptBucket.mkClick true true "hit" (Some 100%Z) (Some 0.1%float)
                                (Some 0%float))
    (MotorAttemptBucket.mkTiming None None None)
    (MotorAttemptBucket.mkSpatial None None None None)
    (MotorAttemptBucket.mkKinematics None None None None None None None None)
    (MotorAttemptBucket.mkFitts None None None None).



Definition lineAttemptRequest : MotorController.Request :=
  MotorController.mkRequest (Some "s1") None (Some [ lineAttempt ]).

Definition ghostTraceRequest : MotorTraceController.Request :=
  MotorTraceController.mkRequest (Some "ghost") None (Some threeSamples).

End StoreScenario.

Module ExtractorFacts.

Import FeatureExtraction Spec.

Lemma at_index_lt {A : Type} (l : list A) (i : nat) (d : A) :
  i < length l -> at_index l i = Ok (nth i l d).
Proof.
  intros Hi. unfold at_index.
  rewrite (nth_error_nth' l d Hi). reflexivity.
Qed.

Lemma in_range (lo hi i : nat) : In i (range lo hi) <-> lo <= i < hi.
Proof. unfold range. rewrite in_seq. lia. Qed.

Lemma range_succ (lo hi : nat) : range (S lo) (S hi) = map S (range lo hi).
Proof. unfold range. simpl. symmetry. apply seq_shift. Qed.

Lemma range_cons (lo hi : nat) : lo < hi -> range lo hi = lo :: range (S lo) hi.
Proof.
  intros Hlt. unfold range.
  replace (hi - lo) with (S (hi - S lo)) by lia. reflexivity.
Qed.

Lemma range_nil (lo hi : nat) : hi <= lo -> range lo hi = [].
Proof. intros Hle. unfold range. replace (hi - lo) with 0 by lia. reflexivity. Qed.

(** A counting loop from a running count. *)
Lemma count_from (hit : nat -> bool) (idx : list nat) (n : nat) :
  fold_left (fun n i => if hit i then S n else n) idx n = n + countLoop idx hit.
Proof.
  unfold countLoop. revert n.
  induction idx as [|i idx IH]; intros n; simpl.
  - lia.
  - rewrite IH. rewrite (IH (if hit i then 1 else 0)).
    destruct (hit i); lia.
Qed.

Lemma countLoop_cons (hit : nat -> bool) (i : nat) (idx : list nat) :
  countLoop (i :: idx) hit = (if hit i then 1 else 0) + countLoop idx hit.
Proof. unfold countLoop at 1. simpl. apply count_from. Qed.

Lemma countLoop_ext (f g : nat -> bool) (idx : list nat) :
  (forall i, In i idx -> f i = g i) -> countLoop idx f = countLoop idx g.
Proof.
  induction idx as [|i idx IH]; intros Hfg.
  - reflexivity.
  - rewrite !countLoop_cons, (Hfg i) by (left; reflexivity).
    rewrite IH; [reflexivity|]. intros j Hj. apply Hfg. right. exact Hj.
Qed.

Lemma countLoop_map (f : nat -> nat) (hit : nat -> bool) (idx : list nat) :
  countLoop (map f idx) hit = countLoop idx (fun i => hit (f i)).
Proof.
  induction idx as [|i idx IH]; [reflexivity|].
  simpl map. rewrite !countLoop_cons, IH. reflexivity.
Qed.

(** An index loop over windows of three is a count of the windows. *)
Lemma countLoop_triples {A : Type} (P : A -> A -> A -> bool) (d : A) (l : list A) :
  countLoop (range 2 (length l))
            (fun i => P (nth (i - 2) l d) (nth (i - 1) l d) (nth i l d))
  = countTriples P l.
Proof.
  induction l as [|a l IH]; [reflexivity|].
  destruct l as [|b [|c l]]; [reflexivity|reflexivity|].
  change (length (a :: b :: c :: l)) with (S (S (S (length l)))).
  rewrite range_cons by lia. rewrite countLoop_cons.
  change (countTriples P (a :: b :: c :: l))
    with ((if P a b c then 1 else 0) + countTriples P (b :: c :: l)).
  f_equal.
  rewrite <- IH. change (length (b :: c :: l)) with (S (S (length l))).
  rewrite range_succ, countLoop_map.
  apply countLoop_ext. intros i Hi. apply in_range in Hi.
  replace (S i - 2) with (S (i - 2)) by lia.
  replace (S i - 1) with (S (i - 1)) by lia.
  reflexivity.
Qed.

(** A loop whose body never throws and only counts. *)
Lemma forM_count (idx : list nat) (body : nat -> nat -> result nat)
    (hit : nat -> bool) :
  (forall i n, In i idx -> body i n = Ok (if hit i then S n else n)) ->
  forall n, forM idx body n = Ok (n + countLoop idx hit).
Proof.
  induction idx as [|i idx IH]; intros Hbody n.
  - simpl. f_equal. unfold countLoop. simpl. lia.
  - simpl. rewrite Hbody by (left; reflexivity). simpl.
    rewrite IH by (intros j m Hj; apply Hbody; right; exact Hj).
    rewrite countLoop_cons. f_equal. destruct (hit i); lia.
Qed.

(** A loop whose body never throws returns. *)
Lemma forM_total {S : Type} (idx : list nat) (body : nat -> S -> result S) :
  (forall i s, In i idx -> exists s', body i s = Ok s') ->
  forall s, exists s', forM idx body s = Ok s'.
Proof.
  induction idx as [|i idx IH]; intros Hbody s.
  - exists s. reflexivity.
  - destruct (Hbody i s) as [s1 Hs1]; [left; reflexivity|].
    simpl. rewrite Hs1. simpl.
    apply IH. intros j s2 Hj. apply Hbody. right. exact Hj.
Qed.

End ExtractorFacts.

Module ExtractorShape.

Import FeatureExtraction Spec ExtractorFacts.

Section Shape.

Context {M : MathLib}.

Lemma scanStart_bound (p0 : Point) (rest : list Sample) (i : nat) :
  scanStart p0 rest i = 0 \/ scanStart p0 rest i + 2 <= i + length rest.
Proof.
  revert i. induction rest as [|s rest IH]; intros i; simpl.
  - left. reflexivity.
  - destruct (EPS <? dist (mkPoint (x s) (y s)) p0)%float.
    + destruct i; [left; reflexivity | right; lia].
    + destruct (IH (S i)) as [H0 | Hle]; [left; exact H0 | right; lia].
Qed.

Lemma startIdxOf_bound (seg : list Sample) :
  startIdxOf seg = 0 \/ startIdxOf seg + 2 <= length seg.
Proof.
  destruct seg as [|s0 rest]; [left; reflexivity|].
  simpl. destruct (scanStart_bound (mkPoint (x s0) (y s0)) rest 1) as [H0|Hle];
    [left; exact H0 | right; lia].
Qed.

(** The moving segment keeps at least two samples of a segment of four. *)
Lemma movingSegment_length (samples : list Sample) (spawnTms clickTms : Z) :
  4 <= length (segment samples spawnTms clickTms) ->
  2 <= length (movingSegment samples spawnTms clickTms).
Proof.
  intros Hlen. unfold movingSegment. rewrite length_skipn.
  destruct (startIdxOf_bound (segment samples spawnTms clickTms)); lia.
Qed.

Lemma pathLengthOf_total (moveSeg : list Sample) :
  exists pathLength, pathLengthOf moveSeg = Ok pathLength.
Proof.
  unfold pathLengthOf. apply forM_total.
  intros i s Hi. apply in_range in Hi.
  destruct moveSeg as [|dflt rest]; [simpl in Hi; lia|].
  rewrite (at_index_lt _ (i - 1) dflt), (at_index_lt _ i dflt) by lia.
  eexists. reflexivity.
Qed.

Lemma nth_map_dist (moveSeg : list Sample) (target : Target) (dflt : Sample)
    (i : nat) :
  i < length moveSeg ->
  num_at (map (fun s => dist s target) moveSeg) i = dist (nth i moveSeg dflt) target.
Proof.
  intros Hi. unfold num_at.
  rewrite (nth_indep _ nan (dist dflt target)) by (rewrite length_map; exact Hi).
  apply (map_nth (fun s => dist s target)).
Qed.

(** Method 1 counts the reversals inside the gate. *)
Lemma distanceReversals_spec (d : list float) (gate : float) :
  distanceReversals d gate = globalReversals d gate.
Proof.
  unfold distanceReversals, globalReversals.
  rewrite <- (countLoop_triples _ nan). reflexivity.
Qed.

(** Method 2 counts the reversals of the last 30%. *)
Lemma finalPhaseReversals_spec (moveSeg : list Sample) (target : Target) :
  finalPhaseReversals moveSeg target = finalApproachReversals moveSeg target.
Proof.
  unfold finalPhaseReversals, finalApproachReversals, lastThirtyPercent,
    finalPhaseStartOf.
  destruct (5 <? length moveSeg)%nat; [|reflexivity].
  rewrite <- (countLoop_triples _ nan). reflexivity.
Qed.

(** Method 3 never throws, and counts the oscillating windows from the
    second sample on. *)
Lemma oscillations_spec (moveSeg : list Sample) (target : Target) (gate : float) :
  oscillations moveSeg (map (fun s => dist s target) moveSeg) gate
  = Ok (oscillationsFromThird moveSeg target gate).
Proof.
  unfold oscillations, oscillationsFromThird.
  destruct (4 <? length moveSeg)%nat; [|reflexivity].
  destruct moveSeg as [|s0 rest]; [reflexivity|].
  set (ms := s0 :: rest).
  rewrite (forM_count _ _
             (fun i => oscillates target gate (nth (i - 2) ms s0)
                                  (nth (i - 1) ms s0) (nth i ms s0))).
  - f_equal. simpl tl. change (length ms) with (S (length rest)).
    destruct (Nat.le_gt_cases (length rest) 2) as [Hshort|Hlong].
    + rewrite range_nil by lia.
      destruct rest as [|a [|b [|c rest]]]; try reflexivity. simpl in Hshort. lia.
    + rewrite <- (countLoop_triples _ s0).
      replace (range 3 (S (length rest))) with (map S (range 2 (length rest)))
        by (symmetry; apply range_succ).
      rewrite countLoop_map.
      apply countLoop_ext. intros i Hi. apply in_range in Hi.
      replace (S i - 2) with (S (i - 2)) by lia.
      replace (S i - 1) with (S (i - 1)) by lia.
      reflexivity.
  - intros i n Hi. apply in_range in Hi.
    rewrite (nth_map_dist ms target s0) by lia.
    rewrite (at_index_lt ms (i - 2) s0), (at_index_lt ms (i - 1) s0),
      (at_index_lt ms i s0) by lia.
    unfold oscillates. cbn [mbind result_bind bind].
    destruct (dist (nth i ms s0) target <? gate)%float; reflexivity.
Qed.

(** The result of the full path. *)
Lemma extract_full (samples : list Sample) (spawnTms clickTms : Z)
    (target : Target) (prevClickTms : option Z) :
  4 <= length (segment samples spawnTms clickTms) ->
  let moveSeg := movingSegment samples spawnTms clickTms in
  let gate := (4 * radius target)%float in
  exists (mFirst mLast : Sample) (pathLength : float) (kin : Kinematics),
    nth_error moveSeg 0 = Some mFirst
    /\ nth_error moveSeg (length moveSeg - 1) = Some mLast
    /\ pathLengthOf moveSeg = Ok pathLength
    /\ overshootCount kin
       = Some (max3 (globalReversals (map (fun s => dist s target) moveSeg) gate)
                    (finalApproachReversals moveSeg target)
                    (oscillationsFromThird moveSeg target gate))
    /\ extractAttemptFeatures samples spawnTms clickTms target prevClickTms
       = Ok (mkFeatures
               (mkTiming (clickTms - spawnTms) (Some (tms mLast - tms mFirst)%Z)
                         (option_map (fun p => (clickTms - p)%Z) prevClickTms))
               (mkSpatial
                  (if (0 <? radius target)%float
                   then Some (dist (mkPoint (x mLast) (y mLast)) target
                              / radius target)%float
                   else None)
                  (Some pathLength)
                  (Some (dist (mkPoint (x mFirst) (y mFirst)) target))
                  (if (0 <? pathLength)%float
                   then Some (dist (mkPoint (x mFirst) (y mFirst)) target
                              / pathLength)%float
                   else None))
               kin
               (fittsOf (dist (mkPoint (x mFirst) (y mFirst)) target) target
                        (tms mLast - tms mFirst))).
Proof.
  intros Hlen moveSeg gate.
  pose proof (movingSegment_length samples spawnTms clickTms Hlen) as Hms.
  fold moveSeg in Hms.
  destruct (segment samples spawnTms clickTms) as [|s0 rest] eqn:Hseg;
    [simpl in Hlen; lia|].
  assert (HmsEq : moveSeg
                  = skipn (scanStart (mkPoint (x s0) (y s0)) rest 1) (s0 :: rest)).
  { unfold moveSeg, movingSegment. rewrite Hseg. reflexivity. }
  destruct (pathLengthOf_total moveSeg) as [pathLength Hpath].
  exists (nth 0 moveSeg s0), (nth (length moveSeg - 1) moveSeg s0), pathLength.
  eexists.
  split; [apply nth_error_nth'; lia|].
  split; [apply nth_error_nth'; lia|].
  split; [exact Hpath|].
  split; cycle 1.
  - unfold extractAttemptFeatures. rewrite Hseg.
    replace (length (s0 :: rest) <? 4)%nat with false
      by (symmetry; apply Nat.ltb_ge; exact Hlen).
    change (at_index (s0 :: rest) 0) with (Ok s0).
    cbn [mbind result_bind bind].
    change (skipn 1 (s0 :: rest)) with rest.
    rewrite <- HmsEq.
    rewrite (at_index_lt moveSeg 0 s0), (at_index_lt moveSeg _ s0) by lia.
    cbn [mbind result_bind bind].
    rewrite Hpath. cbn [mbind result_bind bind].
    rewrite oscillations_spec. cbn [mbind result_bind bind].
    reflexivity.
  - cbn [overshootCount]. rewrite distanceReversals_spec, finalPhaseReversals_spec.
    reflexivity.
Qed.

End Shape.

End ExtractorShape.

Module ExtractorClaims.

Import FeatureExtraction Spec ExtractorFacts ExtractorShape Scenario.

(** Zero, of either sign, is not above zero. *)
Lemma zero_not_positive (v : float) :
  (v =? 0)%float = true -> (0 <? v)%float = false.
Proof.
  rewrite FloatAxioms.eqb_spec, FloatAxioms.ltb_spec.
  change (Prim2SF 0) with (S754_zero false).
  destruct (Prim2SF v) as [[]|[]| |[] m e]; cbn;
    solve [reflexivity | discriminate].
Qed.

Lemma zero_cases (v : float) :
  (v =? 0)%float = true -> v = 0%float \/ v = (-0)%float.
Proof.
  rewrite FloatAxioms.eqb_spec. intros Hz.
  rewrite <- (SF2Prim_Prim2SF v).
  change (Prim2SF 0) with (S754_zero false) in Hz.
  destruct (Prim2SF v) as [[]|[]| |[] m e]; cbn in Hz;
    try discriminate; [right | left]; reflexivity.
Qed.

Lemma twice_zero_not_positive (v : float) :
  (v =? 0)%float = true -> (0 <? 2 * v)%float = false.
Proof. intros Hz. destruct (zero_cases v Hz); subst v; reflexivity. Qed.

(** There is one [NaN]. *)
Lemma nan_is_nan (a : float) : is_nan a = true -> a = nan.
Proof.
  unfold is_nan. rewrite FloatAxioms.eqb_spec. intros Hnan.
  apply Prim2SF_inj. change (Prim2SF nan) with S754_nan.
  destruct (Prim2SF a) as [[]|[]| |[] m e]; try reflexivity; exfalso;
    unfold SFeqb, SFcompare in Hnan;
    rewrite ?Z.compare_refl, ?Pos.compare_cont_refl in Hnan; discriminate Hnan.
Qed.

(** [Math.max(v, 0.05)] is [0.05] below [0.05] and [v] otherwise, [NaN]
    included. *)
Lemma Math_max_floor (a : float) :
  Math_max a 0.05 = if (a <? 0.05)%float then 0.05%float else a.
Proof.
  unfold Math_max. destruct (is_nan a) eqn:Hnan.
  { rewrite (nan_is_nan a Hnan). reflexivity. }
  replace (is_nan 0.05) with false by reflexivity. cbn [orb].
  destruct (a <? 0.05)%float eqn:Hlt; [reflexivity|].
  destruct (0.05 <? a)%float eqn:Hgt; [reflexivity|].
  assert (Hsame : a = 0.05%float).
  { apply Prim2SF_inj.
    unfold is_nan in Hnan.
    rewrite FloatAxioms.eqb_spec in Hnan.
    rewrite FloatAxioms.ltb_spec in Hlt, Hgt.
    assert (Hfloor : exists m0 e0, Prim2SF 0.05 = S754_finite false m0 e0)
      by (eexists _, _; vm_compute; reflexivity).
    destruct Hfloor as (m0 & e0 & Hfloor). rewrite Hfloor in *.
    unfold SFeqb, SFltb, SFcompare in *.
    destruct (Prim2SF a) as [[]|[]| |[] m e]; try discriminate.
    destruct (e ?= e0)%Z eqn:He.
    - apply Z.compare_eq in He. subst e. rewrite Z.compare_refl in Hgt.
      destruct (Pos.compare_cont Eq m m0) eqn:Hm.
      + apply Pos.compare_eq in Hm. subst m. reflexivity.
      + cbn in Hlt. discriminate Hlt.
      + apply Pos.compare_gt_iff in Hm. unfold Pos.lt, Pos.compare in Hm.
        rewrite Hm in Hgt. cbn in Hgt. discriminate Hgt.
    - cbn in Hlt. discriminate Hlt.
    - rewrite Z.compare_antisym, He in Hgt. cbn in Hgt. discriminate Hgt. }
  rewrite Hsame. reflexivity.
Qed.

Section Sortedness.

Variable R : Sample -> Sample -> Prop.

Lemma StronglySorted_filter (f : Sample -> bool) (l : list Sample) :
  StronglySorted R l -> StronglySorted R (List.filter f l).
Proof.
  induction 1 as [|a l Hl IH Ha]; simpl.
  - constructor.
  - destruct (f a); [|exact IH].
    constructor; [exact IH|].
    rewrite List.Forall_forall in *. intros b Hb.
    apply Ha. apply filter_In in Hb. tauto.
Qed.

Lemma StronglySorted_skipn (n : nat) (l : list Sample) :
  StronglySorted R l -> StronglySorted R (skipn n l).
Proof.
  revert l. induction n as [|n IH]; intros l Hl; [exact Hl|].
  destruct l as [|a l]; [constructor|].
  simpl. apply IH. inversion Hl; assumption.
Qed.

Lemma StronglySorted_nth (l : list Sample) (i j : nat) (a b : Sample) :
  StronglySorted R l -> i < j ->
  nth_error l i = Some a -> nth_error l j = Some b -> R a b.
Proof.
  intros Hl. revert i j.
  induction Hl as [|c l Hl IH Hc]; intros i j Hij Hi Hj.
  - destruct i; discriminate.
  - destruct j as [|j]; [lia|].
    destruct i as [|i].
    + injection Hi as <-. simpl in Hj.
      rewrite List.Forall_forall in Hc. apply Hc.
      eapply nth_error_In. exact Hj.
    + simpl in Hi, Hj. apply (IH i j); [lia|assumption|assumption].
Qed.

End Sortedness.

Section Claims.

Context {M : MathLib}.

Lemma segment_window (samples : list Sample) (spawnTms clickTms : Z) (s : Sample) :
  In s (segment samples spawnTms clickTms) ->
  (spawnTms <= tms s <= clickTms)%Z.
Proof.
  unfold segment. rewrite filter_In. intros [_ Hs].
  apply andb_true_iff in Hs. destruct Hs as [H1 H2].
  apply Z.leb_le in H1, H2. lia.
Qed.

Lemma movingSegment_window (samples : list Sample) (spawnTms clickTms : Z)
    (s : Sample) (i : nat) :
  nth_error (movingSegment samples spawnTms clickTms) i = Some s ->
  (spawnTms <= tms s <= clickTms)%Z.
Proof.
  unfold movingSegment. rewrite nth_error_skipn. intros Hs.
  apply (segment_window samples). eapply nth_error_In. exact Hs.
Qed.

Lemma movingSegment_sorted (samples : list Sample) (spawnTms clickTms : Z) :
  sortedByTms samples ->
  StronglySorted (fun a b => (tms a <= tms b)%Z)
                 (movingSegment samples spawnTms clickTms).
Proof.
  intros Hs. unfold movingSegment, segment.
  apply StronglySorted_skipn, StronglySorted_filter.
  apply Sorted.Sorted_StronglySorted; [|exact Hs].
  intros a b c Hab Hbc. lia.
Qed.

(** The path of a segment of fewer than four samples. *)
Lemma extract_minimal (samples : list Sample) (spawnTms clickTms : Z)
    (target : Target) (prevClickTms : option Z) :
  length (segment samples spawnTms clickTms) < 4 ->
  extractAttemptFeatures samples spawnTms clickTms target prevClickTms
  = Ok (minimalFeatures spawnTms clickTms prevClickTms).
Proof.
  intros Hlen. unfold extractAttemptFeatures.
  replace (length (segment samples spawnTms clickTms) <? 4)%nat with true
    by (symmetry; apply Nat.ltb_lt; exact Hlen).
  reflexivity.
Qed.

(** C3. With fewer than 4 samples in [[spawnTms, clickTms]] the extractor
    returns the reaction time [clickTms - spawnTms], the inter-tap time
    [clickTms - prevClickTms] when [prevClickTms] is given and null
    otherwise, and every spatial, kinematic and Fitts field null. *)
Theorem too_few_samples_minimal (samples : list Sample) (spawnTms clickTms : Z)
    (target : Target) (prevClickTms : option Z) :
  length (segment samples spawnTms clickTms) < 4 ->
  extractAttemptFeatures samples spawnTms clickTms target prevClickTms
  = Ok {| timing :=
            {| reactionTimeMs := clickTms - spawnTms;
               movementTimeMs := None;
               interTapMs := match prevClickTms with
                             | Some prev => Some (clickTms - prev)%Z
                             | None => None
                             end |};
          spatial :=
            {| errorDistNorm := None; pathLengthNorm := None;
               directDistNorm := None; straightness := None |};
          kinematics :=
            {| meanSpeed := None; peakSpeed := None; speedVar := None;
               meanAccel := None; peakAccel := None; jerkRMS := None;
               submovementCount := None; overshootCount := None |};
          fitts := {| D := None; W := None; ID := None; throughput := None |} |}.
Proof.
  intros Hlen. rewrite extract_minimal by exact Hlen.
  destruct prevClickTms; reflexivity.
Qed.

(** C4 (amended). On the full path the overshoot count is the maximum of
    three counts over the moving segment: the distance reversals (a fall
    beyond 0.001 followed by a rise beyond 0.001) that end inside the gate
    of 4 radii; the same reversals, ungated, within the last 30% when the
    segment has more than 5 samples; and, when the segment has more than 4
    samples, the windows of three samples starting from the second sample
    that end inside the gate and whose x- or y-step changes sign beyond
    0.002 both times. *)
Theorem overshoot_is_max_of_detectors (samples : list Sample)
    (spawnTms clickTms : Z) (target : Target) (prevClickTms : option Z) :
  4 <= length (segment samples spawnTms clickTms) ->
  let moveSeg := movingSegment samples spawnTms clickTms in
  let gate := (4 * radius target)%float in
  exists f : Features,
    extractAttemptFeatures samples spawnTms clickTms target prevClickTms = Ok f
    /\ overshootCount (kinematics f)
       = Some (max3 (globalReversals (map (fun s => dist s target) moveSeg) gate)
                    (finalApproachReversals moveSeg target)
                    (oscillationsFromThird moveSeg target gate)).
Proof.
  intros Hlen moveSeg gate.
  destruct (extract_full samples spawnTms clickTms target prevClickTms Hlen)
    as (mFirst & mLast & pathLength & kin & _ & _ & _ & Hover & Hextract).
  eexists. split; [exact Hextract|]. exact Hover.
Qed.

(** C5. On the full path the Fitts block has [D] the direct distance,
    [W] twice the radius, [ID = log2(D / W + 1)] when [W > 0] and null
    otherwise, and the throughput [ID] over the movement time in seconds,
    which below 0.05 s counts as 0.05 s (null when [ID] is). *)
Theorem fitts_block (samples : list Sample) (spawnTms clickTms : Z)
    (target : Target) (prevClickTms : option Z) :
  4 <= length (segment samples spawnTms clickTms) ->
  exists (f : Features) (directDist : float) (movementTime : Z),
    extractAttemptFeatures samples spawnTms clickTms target prevClickTms = Ok f
    /\ directDistNorm (spatial f) = Some directDist
    /\ movementTimeMs (timing f) = Some movementTime
    /\ D (fitts f) = Some directDist
    /\ W (fitts f) = Some (2 * radius target)%float
    /\ ID (fitts f)
       = (if (0 <? 2 * radius target)%float
          then Some (Math_log2 (directDist / (2 * radius target) + 1))%float
          else None)
    /\ throughput (fitts f)
       = match ID (fitts f) with
         | Some id => Some (id / clampedSeconds movementTime)%float
         | None => None
         end.
Proof.
  intros Hlen.
  destruct (extract_full samples spawnTms clickTms target prevClickTms Hlen)
    as (mFirst & mLast & pathLength & kin & _ & _ & _ & _ & Hextract).
  eexists _, _, _. split; [exact Hextract|].
  cbn [spatial timing fitts directDistNorm movementTimeMs fittsOf D W ID throughput].
  rewrite Math_max_floor. fold (clampedSeconds (tms mLast - tms mFirst)).
  repeat split.
Qed.

(** C9. The extractor never throws. When the path length of the moving
    segment is zero the straightness is null, and when the radius of the
    target is zero the normalized error distance, [ID] and the throughput
    are null. *)
Theorem degenerate_geometry_is_null (samples : list Sample)
    (spawnTms clickTms : Z) (target : Target) (prevClickTms : option Z) :
  exists f : Features,
    extractAttemptFeatures samples spawnTms clickTms target prevClickTms = Ok f
    /\ (forall pathLength : float,
          pathLengthNorm (spatial f) = Some pathLength ->
          (pathLength =? 0)%float = true ->
          straightness (spatial f) = None)
    /\ ((radius target =? 0)%float = true ->
        errorDistNorm (spatial f) = None
        /\ ID (fitts f) = None
        /\ throughput (fitts f) = None).
Proof.
  destruct (Nat.lt_ge_cases (length (segment samples spawnTms clickTms)) 4)
    as [Hshort | Hlen].
  - eexists. split; [apply extract_minimal; exact Hshort|].
    split; [discriminate | intros _; repeat split].
  - destruct (extract_full samples spawnTms clickTms target prevClickTms Hlen)
      as (mFirst & mLast & pathLength & kin & _ & _ & _ & _ & Hextract).
    eexists. split; [exact Hextract|].
    cbn [spatial fitts pathLengthNorm straightness errorDistNorm].
    split.
    + intros p [= <-] Hzero. rewrite (zero_not_positive _ Hzero). reflexivity.
    + intros Hzero. unfold fittsOf. cbn [ID throughput].
      rewrite (zero_not_positive _ Hzero), (twice_zero_not_positive _ Hzero).
      repeat split.
Qed.

(** C10. On samples sorted by timestamp the extractor returns, and a
    movement time that is not null lies between 0 and the reaction time:
    it is the time from the first to the last sample of the moving
    segment, both of which lie in [[spawnTms, clickTms]], while the
    reaction time is [clickTms - spawnTms]. *)
Theorem movement_time_within_reaction_time (samples : list Sample)
    (spawnTms clickTms : Z) (target : Target) (prevClickTms : option Z) :
  sortedByTms samples ->
  exists f : Features,
    extractAttemptFeatures samples spawnTms clickTms target prevClickTms = Ok f
    /\ reactionTimeMs (timing f) = (clickTms - spawnTms)%Z
    /\ forall movementTime : Z,
         movementTimeMs (timing f) = Some movementTime ->
         (exists mFirst mLast : Sample,
            let moveSeg := movingSegment samples spawnTms clickTms in
            nth_error moveSeg 0 = Some mFirst
            /\ nth_error moveSeg (length moveSeg - 1) = Some mLast
            /\ movementTime = (tms mLast - tms mFirst)%Z
            /\ (spawnTms <= tms mFirst <= tms mLast)%Z
            /\ (tms mLast <= clickTms)%Z)
         /\ (0 <= movementTime <= reactionTimeMs (timing f))%Z.
Proof.
  intros Hsorted.
  destruct (Nat.lt_ge_cases (length (segment samples spawnTms clickTms)) 4)
    as [Hshort | Hlen].
  - eexists. split; [apply extract_minimal; exact Hshort|].
    split; [reflexivity | discriminate].
  - pose proof (movingSegment_length samples spawnTms clickTms Hlen) as Hms.
    destruct (extract_full samples spawnTms clickTms target prevClickTms Hlen)
      as (mFirst & mLast & pathLength & kin & Hfirst & Hlast & _ & _ & Hextract).
    eexists. split; [exact Hextract|].
    cbn [timing movementTimeMs reactionTimeMs].
    split; [reflexivity|].
    intros mt [= <-].
    pose proof (movingSegment_window _ _ _ _ _ Hfirst) as Hw1.
    pose proof (movingSegment_window _ _ _ _ _ Hlast) as Hw2.
    assert (Horder : (tms mFirst <= tms mLast)%Z).
    { eapply (StronglySorted_nth (fun a b => (tms a <= tms b)%Z) _ 0);
        [apply movingSegment_sorted; exact Hsorted | | exact Hfirst | exact Hlast].
      lia. }
    split; [|lia].
    exists mFirst, mLast. cbv zeta.
    split; [exact Hfirst|]. split; [exact Hlast|].
    split; [reflexivity|]. lia.
Qed.

End Claims.

Section Scenarios.

#[local] Existing Instance ScenarioMath.

(** C4 as stated, with the third detector over every sample: the swing
    reverses its x-step at the second sample, inside the gate, so the
    maximum of the three counts is 1, and the extractor reports 0. *)
Lemma overshoot_claimed_detector_fails :
  let moveSeg := movingSegment swing 0 40 in
  let gate := (4 * radius swingTarget)%float in
  exists f : Features,
    extractAttemptFeatures swing 0 40 swingTarget None = Ok f
    /\ overshootCount (kinematics f) = Some 0
    /\ max3 (globalReversals (map (fun s => dist s swingTarget) moveSeg) gate)
            (finalApproachReversals moveSeg swingTarget)
            (oscillationsClaimed moveSeg swingTarget gate)
       = 1.
Proof.
  eexists. split; [vm_compute; reflexivity|]. split; vm_compute; reflexivity.
Qed.

Lemma straightLine_sorted : sortedByTms straightLine.
Proof. repeat constructor; simpl; lia. Qed.

Lemma too_few_samples_minimal_witness :
  length (segment straightLine 60 100) < 4
  /\ extractAttemptFeatures straightLine 60 100 lineTarget (Some 10%Z)
     = Ok {| timing :=
               {| reactionTimeMs := 100 - 60;
                  movementTimeMs := None;
                  interTapMs := Some (100 - 10)%Z |};
             spatial :=
               {| errorDistNorm := None; pathLengthNorm := None;
                  directDistNorm := None; straightness := None |};
             kinematics :=
               {| meanSpeed := None; peakSpeed := None; speedVar := None;
                  meanAccel := None; peakAccel := None; jerkRMS := None;
                  submovementCount := None; overshootCount := None |};
             fitts :=
               {| D := None; W := None; ID := None; throughput := None |} |}.
Proof.
  split; [vm_compute; lia|].
  apply (too_few_samples_minimal straightLine 60 100 lineTarget (Some 10%Z)).
  vm_compute; lia.
Defined.

Lemma overshoot_is_max_of_detectors_witness :
  4 <= length (segment swing 0 40)
  /\ exists f : Features,
       extractAttemptFeatures swing 0 40 swingTarget None = Ok f
       /\ overshootCount (kinematics f)
          = Some (max3 (globalReversals
                          (map (fun s => dist s swingTarget)
                               (movingSegment swing 0 40))
                          (4 * radius swingTarget)%float)
                       (finalApproachReversals (movingSegment swing 0 40)
                                               swingTarget)
                       (oscillationsFromThird (movingSegment swing 0 40)
                                              swingTarget
                                              (4 * radius swingTarget)%float)).
Proof.
  split; [vm_compute; lia|].
  apply (overshoot_is_max_of_detectors swing 0 40 swingTarget None).
  vm_compute; lia.
Defined.

(** The line in 8 ms: the movement time counts as 50 ms, and 1 bit gives
    20 bits per second. *)
Lemma fitts_block_witness :
  4 <= length (segment quickLine 0 8)
  /\ exists f : Features,
       extractAttemptFeatures quickLine 0 8 lineTarget None = Ok f
       /\ movementTimeMs (timing f) = Some 8%Z
       /\ fitts f = mkFitts (Some 0.1%float) (Some 0.1%float) (Some 1%float)
                            (Some 20%float).
Proof.
  split; [vm_compute; lia|].
  destruct (fitts_block quickLine 0 8 lineTarget None)
    as (f & directDist & movementTime & Hf & _ & Hmt & HD & HW & HID & Hthr);
    [vm_compute; lia|].
  exists f. split; [exact Hf|].
  assert (Htime : movementTimeMs (timing f) = Some 8%Z).
  { vm_compute in Hf. injection Hf as <-. reflexivity. }
  split; [exact Htime|].
  rewrite Hmt in Htime. injection Htime as ->.
  assert (Hdist : D (fitts f) = Some 0.1%float).
  { vm_compute in Hf. injection Hf as <-. reflexivity. }
  rewrite HD in Hdist. injection Hdist as ->.
  rewrite HID in Hthr.
  destruct f as [t s k [fD fW fID fThr]]. cbn in HD, HW, HID, Hthr.
  cbn [fitts]. rewrite HD, HW, HID, Hthr. vm_compute. reflexivity.
Defined.

(** Scenario A: the straight line has [ID = 1] bit and, over 100 ms, a
    throughput of 10 bits per second. *)
Example straightLine_fitts :
  exists f : Features,
    extractAttemptFeatures straightLine 0 100 lineTarget None = Ok f
    /\ fitts f = mkFitts (Some 0.1%float) (Some 0.1%float) (Some 1%float)
                         (Some 10%float)
    /\ submovementCount (kinematics f) = Some 0
    /\ straightness (spatial f) = Some 1%float
    /\ errorDistNorm (spatial f) = Some 0%float.
Proof. eexists. split; [vm_compute; reflexivity|]. repeat split. Qed.

Lemma degenerate_geometry_is_null_witness :
  exists f : Features,
    extractAttemptFeatures atRest 0 30 pointTarget None = Ok f
    /\ pathLengthNorm (spatial f) = Some 0%float
    /\ straightness (spatial f) = None
    /\ errorDistNorm (spatial f) = None
    /\ ID (fitts f) = None
    /\ throughput (fitts f) = None.
Proof.
  destruct (degenerate_geometry_is_null atRest 0 30 pointTarget None)
    as (f & Hf & Hstraight & Hradius).
  exists f. split; [exact Hf|].
  assert (Hpath : pathLengthNorm (spatial f) = Some 0%float).
  { vm_compute in Hf. injection Hf as <-. reflexivity. }
  split; [exact Hpath|].
  split; [apply (Hstraight 0%float Hpath); reflexivity|].
  apply Hradius. reflexivity.
Defined.

Lemma movement_time_within_reaction_time_witness :
  sortedByTms straightLine
  /\ exists f : Features,
       extractAttemptFeatures straightLine 0 100 lineTarget None = Ok f
       /\ movementTimeMs (timing f) = Some 100%Z
       /\ (0 <= 100 <= reactionTimeMs (timing f))%Z.
Proof.
  split; [exact straightLine_sorted|].
  destruct (movement_time_within_reaction_time straightLine 0 100 lineTarget
              None straightLine_sorted) as (f & Hf & _ & Hbound).
  exists f. split; [exact Hf|].
  assert (Hmt : movementTimeMs (timing f) = Some 100%Z).
  { vm_compute in Hf. injection Hf as <-. reflexivity. }
  split; [exact Hmt|]. apply (Hbound 100%Z Hmt).
Defined.

End Scenarios.

End ExtractorClaims.

Module ChunkFacts.

Import Spec.

Section Chunks.

Variable cap : nat.
Hypothesis cap_pos : 1 <= cap.

(** [n] items in [k] full chunks and an open one that is not empty make
    [ceil(n / cap)] chunks. *)
Lemma chunk_count (k r n : nat) :
  k * cap + r = n -> 1 <= r <= cap -> S k = ceilDiv n cap.
Proof using cap_pos.
  intros Hn Hr. unfold ceilDiv. subst n.
  apply (Nat.div_unique _ _ _ (r - 1)); lia.
Qed.

End Chunks.

End ChunkFacts.

Module MongooseFacts.

Import Mongoose Invariants.

Section Model.

Context {D : Type} `{BucketDoc D}.

Lemma findOneActive_none (coll : list D) (sid : string) :
  ofSession coll sid = [] -> findOneActive coll sid = None.
Proof.
  unfold findOneActive, ofSession.
  induction coll as [|d coll IH]; intros Hnone; [reflexivity|].
  simpl in *. destruct (bool_decide (sessionId d = sid)); [discriminate|].
  simpl. apply IH. exact Hnone.
Qed.

Lemma ofSession_app (l1 l2 : list D) (sid : string) :
  ofSession (l1 ++ l2) sid = ofSession l1 sid ++ ofSession l2 sid.
Proof. apply List.filter_app. Qed.

Lemma ofSession_all (l : list D) (sid : string) :
  List.Forall (fun d => sessionId d = sid) l -> ofSession l sid = l.
Proof.
  unfold ofSession. induction 1 as [|d l Hd Hl IH]; [reflexivity|].
  simpl. rewrite bool_decide_eq_true_2 by exact Hd. rewrite IH. reflexivity.
Qed.

Lemma insertByNumber_last (d : D) (sorted : list D) :
  List.Forall (fun e => bucketNumber e <= bucketNumber d) sorted ->
  insertByNumber d sorted = sorted ++ [d].
Proof.
  induction 1 as [|e sorted He Hs IH]; [reflexivity|].
  simpl. replace (bucketNumber d <? bucketNumber e)%nat with false
    by (symmetry; apply Nat.ltb_ge; exact He).
  rewrite IH. reflexivity.
Qed.

Lemma sortByNumber_snoc (docs : list D) (d : D) :
  sortByNumber (docs ++ [d]) = insertByNumber d (sortByNumber docs).
Proof. unfold sortByNumber. rewrite fold_left_app. reflexivity. Qed.

(** Buckets numbered [first, first + 1, ...] in the order they were
    created are already sorted. *)
Lemma sortByNumber_numbered (docs : list D) (first : nat) :
  map bucketNumber docs = seq first (length docs) ->
  sortByNumber docs = docs.
Proof.
  induction docs as [|d docs IH] using rev_ind; intros Hnum; [reflexivity|].
  rewrite length_app in Hnum.
  replace (length docs + length [d]) with (S (length docs)) in Hnum
    by (simpl; lia).
  rewrite map_app, seq_S in Hnum. cbn [map] in Hnum.
  apply app_inj_tail in Hnum. destruct Hnum as [Hdocs Hd].
  rewrite sortByNumber_snoc, (IH Hdocs).
  apply insertByNumber_last.
  rewrite List.Forall_forall. intros e He.
  apply (in_map bucketNumber) in He. rewrite Hdocs in He.
  apply in_seq in He. lia.
Qed.

(** ** Sorting by bucket number *)

Lemma insertByNumber_Permutation (d : D) (sorted : list D) :
  Permutation (insertByNumber d sorted) (d :: sorted).
Proof.
  induction sorted as [|e rest IH]; [reflexivity|].
  simpl. destruct (bucketNumber d <? bucketNumber e)%nat; [reflexivity|].
  rewrite IH. apply perm_swap.
Qed.

Lemma sortByNumber_Permutation (docs : list D) :
  Permutation (sortByNumber docs) docs.
Proof.
  induction docs as [|d docs IH] using rev_ind; [reflexivity|].
  rewrite sortByNumber_snoc, insertByNumber_Permutation, IH.
  apply Permutation_cons_append.
Qed.

Lemma insertByNumber_ascending (d : D) (sorted : list D) :
  ascending sorted ->
  List.Forall (fun e => bucketNumber e <> bucketNumber d) sorted ->
  ascending (insertByNumber d sorted).
Proof.
  unfold ascending.
  induction 1 as [|e rest Hrest IH He]; intros Hnew.
  - repeat constructor.
  - apply List.Forall_cons_iff in Hnew. destruct Hnew as [Hne Hnew].
    simpl. destruct (bucketNumber d <? bucketNumber e)%nat eqn:Hlt.
    + apply Nat.ltb_lt in Hlt. constructor.
      { constructor; assumption. }
      constructor; [exact Hlt|].
      eapply List.Forall_impl; [|exact He]. intros a Ha. cbv beta in Ha. lia.
    + apply Nat.ltb_ge in Hlt. constructor; [exact (IH Hnew)|].
      rewrite insertByNumber_Permutation. constructor; [lia | exact He].
Qed.

(** Buckets with distinct numbers come out of the sort ascending. *)
Lemma sortByNumber_ascending (docs : list D) :
  NoDup (map bucketNumber docs) -> ascending (sortByNumber docs).
Proof.
  induction docs as [|d docs IH] using rev_ind; intros Hnodup.
  - constructor.
  - rewrite map_app in Hnodup. cbn [map] in Hnodup.
    apply NoDup_app in Hnodup. destruct Hnodup as (Hdocs & Hfresh & _).
    rewrite sortByNumber_snoc. apply insertByNumber_ascending; [exact (IH Hdocs)|].
    rewrite sortByNumber_Permutation. rewrite List.Forall_forall.
    intros e He Heq. apply (Hfresh (bucketNumber e)).
    + apply list_elem_of_In, in_map, He.
    + rewrite Heq. apply list_elem_of_In. left. reflexivity.
Qed.

(** There is one ascending order of a set of buckets. *)
Lemma ascending_unique (l1 l2 : list D) :
  ascending l1 -> ascending l2 -> Permutation l1 l2 -> l1 = l2.
Proof.
  unfold ascending. intros H1. revert l2.
  induction H1 as [|a l1 Hl1 IH Ha]; intros l2 H2 Hperm.
  - apply Permutation_nil in Hperm. congruence.
  - destruct H2 as [|b l2 Hl2 Hb].
    { symmetry in Hperm. apply Permutation_nil in Hperm. discriminate. }
    assert (Hab : a = b).
    { assert (Hina : In a (b :: l2))
        by (apply (Permutation_in _ Hperm); left; reflexivity).
      assert (Hinb : In b (a :: l1))
        by (apply (Permutation_in _ (Permutation_sym Hperm)); left; reflexivity).
      destruct Hina as [Hina|Hina]; [congruence|].
      destruct Hinb as [Hinb|Hinb]; [congruence|].
      rewrite List.Forall_forall in Ha, Hb.
      specialize (Ha b Hinb). specialize (Hb a Hina). cbv beta in Ha, Hb. lia. }
    subst b. f_equal. apply IH; [exact Hl2|].
    exact (Permutation_cons_inv Hperm).
Qed.

(** The reading order does not depend on the order in which the store
    holds the buckets of a session, when their numbers are distinct. *)
Lemma findBySession_Permutation (coll shuffled : list D) (sid : string) :
  Permutation shuffled coll ->
  NoDup (map bucketNumber (ofSession coll sid)) ->
  findBySession shuffled sid = findBySession coll sid.
Proof.
  intros Hperm Hnodup. unfold findBySession.
  assert (Hmine : Permutation (ofSession shuffled sid) (ofSession coll sid)).
  { unfold ofSession. clear Hnodup.
    induction Hperm as [|d l l' _ IH|d e l|l l' l'' _ IH1 _ IH2].
    - reflexivity.
    - simpl. destruct (bool_decide (sessionId d = sid)); [constructor|]; exact IH.
    - simpl. destruct (bool_decide (sessionId d = sid)),
        (bool_decide (sessionId e = sid)); try reflexivity. apply perm_swap.
    - etransitivity; eassumption. }
  apply ascending_unique.
  - apply sortByNumber_ascending.
    pose proof (Permutation_map bucketNumber Hmine) as Hnumbers.
    rewrite Hnumbers. exact Hnodup.
  - apply sortByNumber_ascending, Hnodup.
  - rewrite !sortByNumber_Permutation. exact Hmine.
Qed.

End Model.

End MongooseFacts.

Module ChunkedStoreFacts.

Import Mongoose ChunkedStore Spec MongooseFacts.

Section Generic.

Context {B I : Type} `{BucketDoc B} {ops : BucketOps B I} {wording : Wording B}.
Hypothesis laws : Lawful (B := B) (I := I).

(** ** Documents at the position their [_id] names *)

Lemma placed_snoc (coll : list B) (d : B) :
  placed coll -> _id d = length coll -> placed (coll ++ [d]).
Proof.
  intros Hcoll Hd i b Hb.
  destruct (Nat.lt_ge_cases i (length coll)) as [Hlt | Hge].
  - rewrite nth_error_app1 in Hb by exact Hlt. apply Hcoll. exact Hb.
  - rewrite nth_error_app2 in Hb by exact Hge.
    destruct (i - length coll) as [|k] eqn:Hk.
    + injection Hb as <-. lia.
    + destruct k; discriminate.
Qed.

Lemma placed_replace (before after : list B) (copy b : B) :
  placed (before ++ [copy] ++ after) ->
  _id b = length before ->
  placed (before ++ [b] ++ after).
Proof.
  intros Hcoll Hb i d Hd.
  destruct (Nat.lt_ge_cases i (length before)) as [Hlt | Hge].
  - rewrite nth_error_app1 in Hd by exact Hlt.
    apply Hcoll. rewrite nth_error_app1 by exact Hlt. exact Hd.
  - rewrite nth_error_app2 in Hd by exact Hge.
    destruct (i - length before) as [|k] eqn:Hk.
    + injection Hd as <-. lia.
    + apply Hcoll. rewrite nth_error_app2 by exact Hge. rewrite Hk. exact Hd.
Qed.

Lemma save_in_place (before after : list B) (copy b : B) :
  valid b = true ->
  _id b = length before ->
  save (before ++ [copy] ++ after) b = (before ++ [b] ++ after, Ok b).
Proof.
  intros Hvalid Hid. unfold save. rewrite Hvalid, Hid.
  rewrite insert_app_r_alt by lia. rewrite Nat.sub_diag. reflexivity.
Qed.

Lemma save_invalid (coll : list B) (b : B) :
  valid b = false -> save coll b = (coll, Throw (validationError b)).
Proof. intros Hinvalid. unfold save. rewrite Hinvalid. reflexivity. Qed.

(** ** The buckets of a session *)

Lemma ofSession_one (d : B) (sid : string) :
  ofSession [d] sid = if bool_decide (sessionId d = sid) then [d] else [].
Proof. unfold ofSession. simpl. destruct (bool_decide (sessionId d = sid)); reflexivity. Qed.

Lemma ofSession_mine (d : B) (sid : string) :
  sessionId d = sid -> ofSession [d] sid = [d].
Proof. intros Hd. rewrite ofSession_one, bool_decide_eq_true_2 by exact Hd. reflexivity. Qed.

Lemma ofSession_other (d : B) (sid : string) :
  sessionId d <> sid -> ofSession [d] sid = [].
Proof. intros Hd. rewrite ofSession_one, bool_decide_eq_false_2 by exact Hd. reflexivity. Qed.

Lemma ofSession_In (coll : list B) (sid : string) (d : B) :
  In d coll -> sessionId d = sid -> In d (ofSession coll sid).
Proof.
  intros Hd Hsid. unfold ofSession. apply filter_In. split; [exact Hd|].
  apply bool_decide_eq_true_2. exact Hsid.
Qed.

(** The last bucket of a session splits the collection. *)
Lemma ofSession_split_last (coll : list B) (sid : string) (closed : list B)
    (last : B) :
  ofSession coll sid = closed ++ [last] ->
  exists before after,
    coll = before ++ [last] ++ after
    /\ ofSession before sid = closed
    /\ ofSession after sid = []
    /\ sessionId last = sid.
Proof.
  revert closed. induction coll as [|d coll IH]; intros closed Hsplit.
  - destruct closed; discriminate.
  - change (d :: coll) with ([d] ++ coll) in Hsplit.
    rewrite ofSession_app, ofSession_one in Hsplit.
    destruct (bool_decide (sessionId d = sid)) eqn:Hd.
    + apply bool_decide_eq_true_1 in Hd.
      destruct closed as [|c closed].
      * injection Hsplit as -> Hrest.
        exists [], coll. repeat split; [exact Hrest | exact Hd].
      * injection Hsplit as -> Hrest.
        destruct (IH closed Hrest) as (before & after & -> & Hb & Ha & Hl).
        exists (c :: before), after. repeat split; [|exact Ha | exact Hl].
        change (c :: before) with ([c] ++ before).
        rewrite ofSession_app, (ofSession_mine c sid Hd), Hb. reflexivity.
    + apply bool_decide_eq_false_1 in Hd. simpl in Hsplit.
      destruct (IH closed Hsplit) as (before & after & -> & Hb & Ha & Hl).
      exists (d :: before), after. repeat split; [|exact Ha | exact Hl].
      change (d :: before) with ([d] ++ before).
      rewrite ofSession_app, (ofSession_other d sid Hd), Hb. reflexivity.
Qed.

(** ** Looking up the active bucket *)

Lemma findOneActive_skip (docs : list B) (sid : string) (best : option B) :
  (forall d, In d docs -> sessionId d = sid -> isFull d = true) ->
  fold_left
    (fun (best : option B) (d : B) =>
       if bool_decide (sessionId d = sid) && negb (isFull d) then
         match best with
         | None => Some d
         | Some b => if (bucketNumber b <? bucketNumber d)%nat then Some d else best
         end
       else best)
    docs best = best.
Proof.
  revert best. induction docs as [|d docs IH]; intros best Hfull; [reflexivity|].
  simpl. destruct (bool_decide (sessionId d = sid)) eqn:Hd.
  - apply bool_decide_eq_true_1 in Hd.
    rewrite (Hfull d (or_introl eq_refl) Hd). simpl.
    apply IH. intros e He. apply Hfull. right. exact He.
  - simpl. apply IH. intros e He. apply Hfull. right. exact He.
Qed.

(** The open bucket of a session, the last one, is the active one. *)
Lemma findOneActive_last (before after : list B) (last : B) (sid : string) :
  sessionId last = sid ->
  isFull last = false ->
  List.Forall (fun b => isFull b = true) (ofSession before sid) ->
  ofSession after sid = [] ->
  findOneActive (before ++ [last] ++ after) sid = Some last.
Proof.
  intros Hsid Hopen Hclosed Hafter. unfold findOneActive.
  rewrite fold_left_app, (findOneActive_skip before sid None).
  - rewrite fold_left_app. simpl.
    rewrite bool_decide_eq_true_2 by exact Hsid. rewrite Hopen. simpl.
    apply findOneActive_skip. intros d Hd Hdsid.
    pose proof (ofSession_In after sid d Hd Hdsid) as Hin.
    rewrite Hafter in Hin. destruct Hin.
  - intros d Hd Hdsid. rewrite List.Forall_forall in Hclosed.
    apply Hclosed. apply ofSession_In; assumption.
Qed.

End Generic.

End ChunkedStoreFacts.

Module ChunkedAppend.

Import Mongoose ChunkedStore Spec MongooseFacts ChunkedStoreFacts.

Ltac by_laws laws :=
  repeat first
    [ rewrite (set_id_id laws) | rewrite (set_id_session laws)
    | rewrite (set_id_number laws) | rewrite (set_id_full laws)
    | rewrite (set_id_items laws) | rewrite (set_id_count laws)
    | rewrite (close_id laws) | rewrite (close_session laws)
    | rewrite (close_number laws) | rewrite (close_full laws)
    | rewrite (close_items laws) | rewrite (close_count laws)
    | rewrite (push_id laws) | rewrite (push_session laws)
    | rewrite (push_number laws) | rewrite (push_full laws)
    | rewrite (push_items laws) | rewrite (push_count laws)
    | rewrite (fresh_session laws) | rewrite (fresh_number laws)
    | rewrite (fresh_full laws) | rewrite (fresh_items laws)
    | rewrite (fresh_count laws)
    | rewrite (user_id laws) | rewrite (user_session laws)
    | rewrite (user_number laws) | rewrite (user_full laws)
    | rewrite (user_items laws) | rewrite (user_count laws) ].

Section Generic.

Context {B I : Type} `{BucketDoc B} {ops : BucketOps B I} {wording : Wording B}.
Hypothesis laws : Lawful (B := B) (I := I).

Variable cap : nat.
Hypothesis cap_pos : 1 <= cap.
Variable sessions : gset string.
Variable sid : string.
Variable uid : option string.
Hypothesis sid_known : sid ∈ sessions.
Variable coll0 : list B.

(** ** Validity *)

Lemma valid_split (b : B) :
  valid b = true <->
  Schema.isRequiredString (sessionId b) = true
  /\ forallb validItem (items b) = true.
Proof. rewrite (valid_items laws). apply andb_true_iff. Qed.

Lemma valid_fresh (n number : nat) :
  Schema.isRequiredString sid = true ->
  valid (set_id n (freshBucket sid uid number)) = true.
Proof.
  intros Hnamed. apply valid_split. by_laws laws. split; [exact Hnamed | reflexivity].
Qed.

Lemma create_fresh (coll : list B) (number : nat) :
  Schema.isRequiredString sid = true ->
  create sessions coll (freshBucket sid uid number)
  = (coll ++ [set_id (length coll) (freshBucket sid uid number)],
     Ok (set_id (length coll) (freshBucket sid uid number))).
Proof.
  intros Hnamed. unfold create, sessionFindOne.
  rewrite (valid_items laws). by_laws laws. rewrite Hnamed. cbn [forallb andb negb].
  rewrite bool_decide_eq_true_2 by exact sid_known. reflexivity.
Qed.

Lemma create_unnamed (coll : list B) (number : nat) :
  Schema.isRequiredString sid = false ->
  create sessions coll (freshBucket sid uid number)
  = (coll, Throw (validationError (freshBucket sid uid number))).
Proof.
  intros Hunnamed. unfold create.
  rewrite (valid_items laws). by_laws laws. rewrite Hunnamed. reflexivity.
Qed.

(** ** The buckets of the other sessions *)

Lemma others_replace (before after : list B) (copy b : B) (sid' : string) :
  sessionId copy = sid -> sessionId b = sid -> sid' <> sid ->
  ofSession (before ++ [b] ++ after) sid'
  = ofSession (before ++ [copy] ++ after) sid'.
Proof.
  intros Hcopy Hb Hother.
  rewrite !ofSession_app, !ofSession_other by congruence. reflexivity.
Qed.

Lemma others_snoc (coll : list B) (b : B) (sid' : string) :
  sessionId b = sid -> sid' <> sid ->
  ofSession (coll ++ [b]) sid' = ofSession coll sid'.
Proof.
  intros Hb Hother.
  rewrite ofSession_app, ofSession_other, app_nil_r by congruence. reflexivity.
Qed.

Lemma mine_replace (before after : list B) (b : B) :
  sessionId b = sid -> ofSession after sid = [] ->
  ofSession (before ++ [b] ++ after) sid = ofSession before sid ++ [b].
Proof.
  intros Hb Hafter.
  rewrite !ofSession_app, Hafter, app_nil_r, (ofSession_mine b sid Hb).
  reflexivity.
Qed.

(** ** The shape of a collection through the writes of an append *)

Lemma Forall_replace (P : B -> Prop) (before after : list B) (copy b : B) :
  List.Forall P (before ++ [copy] ++ after) -> P b ->
  List.Forall P (before ++ [b] ++ after).
Proof.
  intros Hall Hb.
  apply List.Forall_app in Hall. destruct Hall as [Hbefore Hrest].
  apply List.Forall_app in Hrest. destruct Hrest as [_ Hafter].
  apply List.Forall_app. split; [exact Hbefore|].
  apply List.Forall_app. split; [|exact Hafter].
  constructor; [exact Hb | constructor].
Qed.

(** A first bucket for a session that has none. *)
Lemma wellFormed_first (coll : list B) :
  wellFormed cap coll ->
  ofSession coll sid = [] ->
  Schema.isRequiredString sid = true ->
  wellFormed cap (coll ++ [set_id (length coll) (freshBucket sid uid 1)]).
Proof.
  intros (Hplaced & Hvalid & Hshape) Hnone Hnamed.
  set (nb := set_id (length coll) (freshBucket sid uid 1)).
  assert (Hnb : sessionId nb = sid) by (unfold nb; by_laws laws; reflexivity).
  split; [apply placed_snoc; [exact Hplaced | unfold nb; by_laws laws; reflexivity]|].
  split.
  { apply List.Forall_app. split; [exact Hvalid|].
    constructor; [apply valid_fresh; exact Hnamed | constructor]. }
  intros sid'. destruct (decide (sid' = sid)) as [-> | Hother].
  - rewrite ofSession_app, Hnone, (ofSession_mine nb sid Hnb). cbn [app].
    intros closed last Hsplit.
    destruct closed as [|c closed];
      [|destruct closed; discriminate Hsplit].
    injection Hsplit as <-. unfold nb. cbn [app map length]. by_laws laws.
    repeat split; [constructor | simpl; lia].
  - rewrite (others_snoc coll nb sid' Hnb Hother). apply Hshape.
Qed.

(** The bucket in memory saved over its stored copy. *)
Lemma wellFormed_replace (before after : list B) (copy b : B) :
  wellFormed cap (before ++ [copy] ++ after) ->
  ofSession after sid = [] ->
  sessionId copy = sid ->
  sessionId b = sid ->
  _id b = length before ->
  valid b = true ->
  isFull b = false ->
  bucketNumber b = bucketNumber copy ->
  itemCount b = length (items b) ->
  length (items b) <= cap ->
  wellFormed cap (before ++ [b] ++ after).
Proof.
  intros (Hplaced & Hvalid & Hshape) Hafter Hcopy Hb Hid Hvb Hopen Hnum Hcount
    Hlen.
  split; [apply (placed_replace before after copy); assumption|].
  split; [apply (Forall_replace _ before after copy); assumption|].
  intros sid'. destruct (decide (sid' = sid)) as [-> | Hother].
  - rewrite (mine_replace before after b Hb Hafter).
    intros closed last Hsplit. apply app_inj_tail in Hsplit.
    destruct Hsplit as [<- <-].
    destruct (Hshape sid (ofSession before sid) copy
                (mine_replace before after copy Hcopy Hafter))
      as (Hnums & Hclosed & _).
    split.
    { rewrite map_app in *. cbn [map] in *. rewrite Hnum. exact Hnums. }
    repeat split; assumption.
  - rewrite (others_replace before after copy b sid' Hcopy Hb Hother).
    apply Hshape.
Qed.

(** The bucket in memory closed and saved, and a new one created after
    it. *)
Lemma wellFormed_roll (before after : list B) (copy b : B) :
  wellFormed cap (before ++ [copy] ++ after) ->
  ofSession after sid = [] ->
  sessionId copy = sid ->
  sessionId b = sid ->
  _id b = length before ->
  valid b = true ->
  bucketNumber b = bucketNumber copy ->
  itemCount b = cap ->
  length (items b) = cap ->
  wellFormed cap
    ((before ++ [closeBucket b] ++ after)
     ++ [set_id (length (before ++ [closeBucket b] ++ after))
               (freshBucket sid uid (bucketNumber (closeBucket b) + 1))]).
Proof.
  intros (Hplaced & Hvalid & Hshape) Hafter Hcopy Hb Hid Hvb Hnum Hcount Hlen.
  set (coll1 := before ++ [closeBucket b] ++ after).
  set (nb := set_id (length coll1)
               (freshBucket sid uid (bucketNumber (closeBucket b) + 1))).
  assert (Hcb : sessionId (closeBucket b) = sid) by (by_laws laws; exact Hb).
  assert (Hnb : sessionId nb = sid) by (unfold nb; by_laws laws; reflexivity).
  assert (Hnamed : Schema.isRequiredString sid = true).
  { apply valid_split in Hvb. rewrite Hb in Hvb. apply Hvb. }
  split.
  { apply placed_snoc; [|unfold nb; by_laws laws; reflexivity].
    apply (placed_replace before after copy); [exact Hplaced|].
    by_laws laws. exact Hid. }
  split.
  { apply List.Forall_app. split.
    - apply (Forall_replace _ before after copy); [exact Hvalid|].
      apply valid_split. by_laws laws. apply valid_split. exact Hvb.
    - constructor; [apply valid_fresh; exact Hnamed | constructor]. }
  intros sid'. destruct (decide (sid' = sid)) as [-> | Hother].
  - rewrite ofSession_app, (ofSession_mine nb sid Hnb).
    unfold coll1. rewrite (mine_replace before after (closeBucket b) Hcb Hafter).
    intros closed last Hsplit. apply app_inj_tail in Hsplit.
    destruct Hsplit as [<- <-].
    destruct (Hshape sid (ofSession before sid) copy
                (mine_replace before after copy Hcopy Hafter))
      as (Hnums & Hclosed & _).
    assert (Hsame : map bucketNumber (ofSession before sid ++ [closeBucket b])
                    = seq 1 (S (length (ofSession before sid)))).
    { rewrite map_app in Hnums |- *. cbn [map] in Hnums |- *. by_laws laws.
      rewrite Hnum. exact Hnums. }
    rewrite map_app, seq_S in Hnums. cbn [map] in Hnums.
    apply app_inj_tail in Hnums. destruct Hnums as [_ Hlast].
    split.
    { rewrite map_app, Hsame, length_app. cbn [map length].
      rewrite Nat.add_1_r, (seq_S (S (length (ofSession before sid))) 1).
      f_equal. f_equal. unfold nb. by_laws laws. rewrite Hnum, Hlast. lia. }
    split.
    { apply List.Forall_app. split; [exact Hclosed|].
      constructor; [|constructor]. by_laws laws. repeat split; assumption. }
    unfold nb. by_laws laws. repeat split. simpl. lia.
  - rewrite (others_snoc coll1 nb sid' Hnb Hother).
    unfold coll1.
    rewrite (others_replace before after copy (closeBucket b) sid' Hcopy Hcb
               Hother).
    apply Hshape.
Qed.

(** ** One turn of the loop *)

(** While the pending items are valid, or the bucket in memory still has
    room, a turn returns: it keeps the state and adds the item. *)
Lemma appendOne_returns (coll : list B) (bucket : B) (flushed pending : list I)
    (item : I) :
  filling cap sid coll0 coll bucket flushed pending ->
  forallb validItem pending = true \/ itemCount bucket < cap ->
  exists coll' bucket' flushed' pending',
    appendOne cap sessions sid uid coll bucket item = (coll', Ok bucket')
    /\ filling cap sid coll0 coll' bucket' flushed' pending'
    /\ flushed' ++ pending' = flushed ++ pending ++ [item]
    /\ pending' <> []
    /\ forallb validItem pending'
       = forallb validItem pending && validItem item.
Proof.
  intros (before & copy & after & Hcoll & Hwf & Hafter & Hcopy & Hsid & Hid
          & Hopen & Hnum & Hcount & Hcap & Hitems & Hstored & Hothers) Hgo.
  subst coll. unfold appendOne.
  pose proof Hwf as (Hplaced & Hvalid & Hshape).
  assert (Hvcopy : valid copy = true).
  { rewrite List.Forall_forall in Hvalid. apply Hvalid.
    apply in_or_app. right. left. reflexivity. }
  destruct (cap <=? itemCount bucket)%nat eqn:Hfull.
  - apply Nat.leb_le in Hfull.
    destruct Hgo as [Hpending | Hroom]; [|lia].
    assert (Hvb : valid bucket = true).
    { apply valid_split. apply valid_split in Hvcopy.
      rewrite Hsid, <- Hcopy. split; [apply Hvcopy|].
      rewrite Hitems, forallb_app, Hpending, (proj2 Hvcopy). reflexivity. }
    assert (Hnamed : Schema.isRequiredString sid = true).
    { apply valid_split in Hvb. rewrite Hsid in Hvb. apply Hvb. }
    assert (Hvcb : valid (closeBucket bucket) = true).
    { apply valid_split. by_laws laws. apply valid_split. exact Hvb. }
    cbv zeta.
    rewrite (save_in_place before after copy (closeBucket bucket) Hvcb)
      by (by_laws laws; exact Hid).
    cbn [andThen]. rewrite (create_fresh _ _ Hnamed). cbn [andThen].
    set (coll1 := before ++ [closeBucket bucket] ++ after).
    set (nb := set_id (length coll1)
                 (freshBucket sid uid (bucketNumber (closeBucket bucket) + 1))).
    exists (coll1 ++ [nb]), (pushItem item nb), (flushed ++ pending), [item].
    split; [reflexivity|].
    assert (Hcb : sessionId (closeBucket bucket) = sid)
      by (by_laws laws; exact Hsid).
    assert (Hnb : sessionId nb = sid) by (unfold nb; by_laws laws; reflexivity).
    split.
    { exists coll1, nb, []. by_laws laws.
      split; [reflexivity|].
      split.
      { apply (wellFormed_roll before after copy bucket); try assumption; lia. }
      split; [reflexivity|].
      split; [exact Hnb|].
      split; [exact Hnb|].
      split; [unfold nb; by_laws laws; reflexivity|].
      split; [unfold nb; by_laws laws; reflexivity|].
      split; [reflexivity|].
      split; [unfold nb; by_laws laws; reflexivity|].
      split; [unfold nb; by_laws laws; simpl; lia|].
      split; [reflexivity|].
      split.
      { unfold stored in *.
        rewrite ofSession_app, (ofSession_mine nb sid Hnb).
        unfold coll1.
        rewrite (mine_replace before after (closeBucket bucket) Hcb Hafter).
        rewrite (mine_replace before after copy Hcopy Hafter) in Hstored.
        rewrite !map_app, !concat_app in *. cbn [map concat] in *.
        unfold nb. by_laws laws. rewrite !app_nil_r in *.
        rewrite Hitems, app_assoc, Hstored, <- !app_assoc. reflexivity. }
      intros sid' Hother. rewrite <- (Hothers sid' Hother).
      rewrite (others_snoc coll1 nb sid' Hnb Hother). unfold coll1.
      apply others_replace; assumption. }
    split; [rewrite <- !app_assoc; reflexivity|].
    split; [discriminate|].
    cbn [forallb]. rewrite Hpending, andb_true_r. reflexivity.
  - apply Nat.leb_gt in Hfull. cbn [andThen].
    exists (before ++ [copy] ++ after), (pushItem item bucket), flushed,
           (pending ++ [item]).
    split; [reflexivity|].
    split.
    { exists before, copy, after. by_laws laws.
      split; [reflexivity|]. split; [exact Hwf|].
      repeat split; try assumption;
        try (rewrite length_app; simpl; lia).
      rewrite Hitems, <- app_assoc. reflexivity. }
    split; [reflexivity|].
    split; [intros Hnil; apply app_eq_nil in Hnil; destruct Hnil; discriminate|].
    rewrite forallb_app. cbn [forallb]. rewrite andb_true_r. reflexivity.
Qed.

(** With an item pending that is not valid, the turn that has to save the
    bucket throws, and writes nothing. *)
Lemma appendOne_throws (coll : list B) (bucket : B) (flushed pending : list I)
    (item : I) :
  filling cap sid coll0 coll bucket flushed pending ->
  forallb validItem pending = false ->
  cap <= itemCount bucket ->
  appendOne cap sessions sid uid coll bucket item
  = (coll, Throw (validationError (closeBucket bucket))).
Proof.
  intros (before & copy & after & Hcoll & Hwf & Hafter & Hcopy & Hsid & Hid
          & Hopen & Hnum & Hcount & Hcap & Hitems & Hstored & Hothers)
    Hpending Hfull.
  unfold appendOne. apply Nat.leb_le in Hfull. rewrite Hfull. cbv zeta.
  rewrite save_invalid; [reflexivity|].
  rewrite (valid_items laws). by_laws laws.
  rewrite Hitems, forallb_app, Hpending, !andb_false_r. reflexivity.
Qed.

(** ** The loop *)

(** What the loop leaves: a state that holds every item when it returns,
    and the state of the turn that threw otherwise, with an item pending
    that is not valid. *)
Lemma forOf_filling (batch : list I) :
  forall (coll : list B) (bucket : B) (flushed pending : list I),
    filling cap sid coll0 coll bucket flushed pending ->
    exists (coll' : list B) (outcome : result B) (bucket' : B)
           (flushed' pending' rest : list I),
      forOf (appendOne cap sessions sid uid) batch coll bucket
      = (coll', outcome)
      /\ filling cap sid coll0 coll' bucket' flushed' pending'
      /\ flushed' ++ pending' ++ rest = flushed ++ pending ++ batch
      /\ match outcome with
         | Ok b =>
             b = bucket' /\ rest = []
             /\ (pending <> [] \/ batch <> [] -> pending' <> [])
             /\ forallb validItem pending'
                = forallb validItem (pending ++ batch)
         | Throw e =>
             (exists b, e = validationError b)
             /\ forallb validItem pending' = false
             /\ forallb validItem (pending ++ batch) = false
         end.
Proof.
  induction batch as [|item batch IH]; intros coll bucket flushed pending Hst.
  - exists coll, (Ok bucket), bucket, flushed, pending, [].
    split; [reflexivity|]. split; [exact Hst|]. split; [reflexivity|].
    rewrite app_nil_r. repeat split. intros [Hne | Hne]; congruence.
  - cbn [forOf].
    destruct (forallb validItem pending) eqn:Hpending;
      [|destruct (Nat.lt_ge_cases (itemCount bucket) cap) as [Hroom | Hfull]].
    + destruct (appendOne_returns coll bucket flushed pending item Hst
                  (or_introl Hpending))
        as (coll1 & bucket1 & flushed1 & pending1 & -> & Hst1 & Hall & Hne & Hv).
      cbn [andThen].
      destruct (IH coll1 bucket1 flushed1 pending1 Hst1)
        as (coll' & outcome & bucket' & flushed' & pending' & rest & -> & Hst'
            & Hall' & Hout).
      exists coll', outcome, bucket', flushed', pending', rest.
      split; [reflexivity|]. split; [exact Hst'|].
      split.
      { rewrite Hall', app_assoc, Hall, <- !app_assoc. reflexivity. }
      destruct outcome as [b|e].
      * destruct Hout as (-> & -> & Hlast & Hvalid).
        repeat split.
        -- intros _. apply Hlast. left. exact Hne.
        -- rewrite Hvalid, !forallb_app, Hv, Hpending. cbn [forallb].
           destruct (validItem item), (forallb validItem batch); reflexivity.
      * destruct Hout as (Hval & Hbad & Hbatch).
        repeat split; [exact Hval | exact Hbad|].
        rewrite forallb_app in Hbatch |- *. cbn [forallb].
        rewrite Hv, Hpending in Hbatch. rewrite Hpending.
        cbn [andb] in *.
        destruct (validItem item), (forallb validItem batch);
          try reflexivity; discriminate Hbatch.
    + destruct (appendOne_returns coll bucket flushed pending item Hst
                  (or_intror Hroom))
        as (coll1 & bucket1 & flushed1 & pending1 & -> & Hst1 & Hall & Hne & Hv).
      cbn [andThen].
      destruct (IH coll1 bucket1 flushed1 pending1 Hst1)
        as (coll' & outcome & bucket' & flushed' & pending' & rest & -> & Hst'
            & Hall' & Hout).
      exists coll', outcome, bucket', flushed', pending', rest.
      split; [reflexivity|]. split; [exact Hst'|].
      split.
      { rewrite Hall', app_assoc, Hall, <- !app_assoc. reflexivity. }
      rewrite Hpending in Hv. cbn [andb] in Hv.
      destruct outcome as [b|e].
      * destruct Hout as (-> & -> & Hlast & Hvalid).
        repeat split.
        -- intros _. apply Hlast. left. exact Hne.
        -- rewrite Hvalid, !forallb_app, Hv, Hpending. reflexivity.
      * destruct Hout as (Hval & Hbad & Hbatch).
        repeat split; [exact Hval | exact Hbad|].
        rewrite forallb_app, Hpending. reflexivity.
    + rewrite (appendOne_throws coll bucket flushed pending item Hst Hpending
                 Hfull).
      cbn [andThen].
      exists coll, (Throw (validationError (closeBucket bucket))), bucket,
             flushed, pending, (item :: batch).
      split; [reflexivity|]. split; [exact Hst|]. split; [reflexivity|].
      repeat split; [eexists; reflexivity | exact Hpending|].
      rewrite forallb_app, Hpending. reflexivity.
Qed.

(** ** The lookup of the active bucket *)

(** The lookup starts the loop on everything the session stores, with
    nothing pending; for a session without bucket whose id is empty, the
    bucket it would create is refused. *)
Lemma start_filling :
  wellFormed cap coll0 ->
  let start :=
    match findOneActive coll0 sid with
    | None => create sessions coll0 (freshBucket sid uid 1)
    | Some bucket =>
        (coll0,
         Ok (if truthy uid && negb (truthy (userOf bucket))
             then withUser uid bucket else bucket))
    end in
  (Schema.isRequiredString sid = true
   /\ exists coll bucket,
        start = (coll, Ok bucket)
        /\ filling cap sid coll0 coll bucket [] [])
  \/ (Schema.isRequiredString sid = false
      /\ start = (coll0, Throw (validationError (freshBucket sid uid 1)))).
Proof.
  intros Hwf start. pose proof Hwf as (Hplaced & Hvalid & Hshape).
  subst start.
  destruct (ofSession coll0 sid) as [|d ds] eqn:Hmine using rev_ind.
  - rewrite (findOneActive_none coll0 sid Hmine).
    destruct (Schema.isRequiredString sid) eqn:Hnamed.
    + left. split; [reflexivity|].
      rewrite (create_fresh _ _ Hnamed).
      eexists _, _. split; [reflexivity|].
      set (nb := set_id (length coll0) (freshBucket sid uid 1)).
      assert (Hnb : sessionId nb = sid) by (unfold nb; by_laws laws; reflexivity).
      exists coll0, nb, [].
      split; [reflexivity|].
      split; [apply wellFormed_first; assumption|].
      split; [reflexivity|].
      split; [exact Hnb|]. split; [exact Hnb|].
      split; [unfold nb; by_laws laws; reflexivity|].
      split; [unfold nb; by_laws laws; reflexivity|].
      split; [reflexivity|].
      split; [unfold nb; by_laws laws; reflexivity|].
      split; [unfold nb; by_laws laws; simpl; lia|].
      split; [rewrite app_nil_r; reflexivity|].
      split.
      { unfold stored. cbn [app].
        rewrite ofSession_app, Hmine, (ofSession_mine nb sid Hnb).
        unfold nb. cbn [app map concat]. by_laws laws. reflexivity. }
      intros sid' Hother. cbn [app]. apply (others_snoc coll0 nb sid' Hnb Hother).
    + right. split; [reflexivity|]. apply create_unnamed. exact Hnamed.
  - clear IHds.
    destruct (Hshape sid ds d Hmine)
      as (Hnum & Hclosed & Hopen & Hcount & Hlen).
    destruct (ofSession_split_last coll0 sid ds d Hmine)
      as (before & after & Hcoll & Hbefore & Hafter & Hsid).
    assert (Hid : _id d = length before).
    { apply Hplaced. rewrite Hcoll, nth_error_app2, Nat.sub_diag by lia.
      reflexivity. }
    assert (Hvd : valid d = true).
    { rewrite List.Forall_forall in Hvalid. apply Hvalid. rewrite Hcoll.
      apply in_or_app. right. left. reflexivity. }
    assert (Hactive : findOneActive coll0 sid = Some d).
    { rewrite Hcoll. apply (findOneActive_last before after d sid Hsid Hopen);
        [|exact Hafter].
      rewrite Hbefore. eapply List.Forall_impl; [|exact Hclosed].
      intros b Hb. apply Hb. }
    rewrite Hactive. left.
    split; [apply valid_split in Hvd; rewrite Hsid in Hvd; apply Hvd|].
    eexists _, _. split; [reflexivity|].
    exists before, d, after.
    split; [exact Hcoll|]. split; [exact Hwf|].
    split; [exact Hafter|]. split; [exact Hsid|].
    destruct (truthy uid && negb (truthy (userOf d))); by_laws laws;
      (repeat split;
       [ exact Hsid | exact Hid | exact Hopen | exact Hcount | exact Hlen
       | rewrite app_nil_r; reflexivity
       | rewrite app_nil_r; reflexivity ]).
Qed.

(** ** The whole append *)

(** An append to a well-formed collection leaves a well-formed
    collection and the other sessions as they were. It returns exactly
    when the session id is not empty and every item is valid, and the
    session then stores the batch after what it stored; when it throws,
    the session stores after what it stored the items that filled
    buckets before the failure, a prefix of the batch. *)
Lemma appendAll_outcome (batch : list I) :
  wellFormed cap coll0 ->
  batch <> [] ->
  exists (coll' : list B) (outcome : result B),
    appendAll cap sessions coll0 sid uid batch = (coll', outcome)
    /\ wellFormed cap coll'
    /\ (forall sid', sid' <> sid -> ofSession coll' sid' = ofSession coll0 sid')
    /\ match outcome with
       | Ok bucket =>
           Schema.isRequiredString sid = true
           /\ forallb validItem batch = true
           /\ stored coll' sid = stored coll0 sid ++ batch
           /\ (exists closed, ofSession coll' sid = closed ++ [bucket])
           /\ items bucket <> []
       | Throw e =>
           (exists b, e = validationError b)
           /\ (Schema.isRequiredString sid = false
               \/ forallb validItem batch = false)
           /\ exists flushed rest,
                batch = flushed ++ rest
                /\ rest <> []
                /\ stored coll' sid = stored coll0 sid ++ flushed
       end.
Proof.
  intros Hwf Hbatch0. unfold appendAll.
  destruct (start_filling Hwf)
    as [(Hnamed & coll & bucket & -> & Hst) | (Hunnamed & ->)]; cycle 1.
  { cbn [andThen]. exists coll0, (Throw (validationError (freshBucket sid uid 1))).
    split; [reflexivity|]. split; [exact Hwf|]. split; [reflexivity|].
    split; [eexists; reflexivity|]. split; [left; exact Hunnamed|].
    exists [], batch. rewrite app_nil_r.
    repeat split. exact Hbatch0. }
  cbn [andThen].
  destruct (forOf_filling batch coll bucket [] [] Hst)
    as (coll1 & outcome & bucket1 & flushed & pending & rest & -> & Hst1 & Hall
        & Hout).
  cbn [app] in Hall, Hout.
  destruct Hst1 as (before & copy & after & Hcoll & Hwf1 & Hafter & Hcopy & Hsid
                    & Hid & Hopen & Hnum & Hcount & Hcap & Hitems & Hstored
                    & Hothers).
  pose proof Hwf1 as (Hplaced & Hvalid & Hshape).
  assert (Hvcopy : valid copy = true).
  { rewrite List.Forall_forall in Hvalid. apply Hvalid. rewrite Hcoll.
    apply in_or_app. right. left. reflexivity. }
  destruct outcome as [b|e].
  - destruct Hout as (-> & -> & Hlast & Hv). rewrite app_nil_r in Hall.
    cbn [andThen].
    destruct (forallb validItem pending) eqn:Hpending.
    + assert (Hvb : valid bucket1 = true).
      { apply valid_split. apply valid_split in Hvcopy.
        rewrite Hsid, <- Hcopy. split; [apply Hvcopy|].
        rewrite Hitems, forallb_app, Hpending, (proj2 Hvcopy). reflexivity. }
      subst coll1.
      rewrite (save_in_place before after copy bucket1 Hvb Hid).
      eexists _, _. split; [reflexivity|].
      split; [apply (wellFormed_replace before after copy); assumption|].
      split.
      { intros sid' Hother. rewrite <- (Hothers sid' Hother).
        apply others_replace; assumption. }
      split; [exact Hnamed|]. split; [symmetry; exact Hv|].
      split.
      { unfold stored in *.
        rewrite (mine_replace before after bucket1 Hsid Hafter).
        rewrite (mine_replace before after copy Hcopy Hafter) in Hstored.
        rewrite !map_app, !concat_app in *. cbn [map concat] in *.
        rewrite !app_nil_r in *.
        rewrite Hitems, app_assoc, Hstored, <- app_assoc, Hall. reflexivity. }
      split; [eexists; apply (mine_replace before after bucket1 Hsid Hafter)|].
      intros Hnil. rewrite Hnil in Hitems. symmetry in Hitems.
      apply app_eq_nil in Hitems. destruct Hitems as [_ Hnone].
      exact (Hlast (or_intror Hbatch0) Hnone).
    + rewrite save_invalid.
      2:{ rewrite (valid_items laws), Hitems, forallb_app, Hpending,
            !andb_false_r. reflexivity. }
      eexists _, _. split; [reflexivity|].
      split; [exact Hwf1|]. split; [exact Hothers|].
      split; [eexists; reflexivity|].
      split; [right; rewrite <- Hv; reflexivity|].
      exists flushed, pending. split; [symmetry; exact Hall|].
      split; [|exact Hstored].
      intros Hnil. rewrite Hnil in Hpending. discriminate Hpending.
  - destruct Hout as (Hval & Hbad & Hbatch). cbn [andThen].
    eexists _, _. split; [reflexivity|].
    split; [exact Hwf1|]. split; [exact Hothers|].
    split; [exact Hval|]. split; [right; exact Hbatch|].
    exists flushed, (pending ++ rest). split; [symmetry; exact Hall|].
    split; [|exact Hstored].
    intros Hnil. apply app_eq_nil in Hnil. destruct Hnil as [Hnone _].
    rewrite Hnone in Hbad. discriminate Hbad.
Qed.

(** A batch of valid items for a named session is stored whole. *)
Lemma appendAll_returns (batch : list I) :
  wellFormed cap coll0 ->
  batch <> [] ->
  Schema.isRequiredString sid = true ->
  forallb validItem batch = true ->
  exists (coll' : list B) (bucket : B),
    appendAll cap sessions coll0 sid uid batch = (coll', Ok bucket)
    /\ wellFormed cap coll'
    /\ (forall sid', sid' <> sid -> ofSession coll' sid' = ofSession coll0 sid')
    /\ stored coll' sid = stored coll0 sid ++ batch
    /\ (exists closed, ofSession coll' sid = closed ++ [bucket])
    /\ items bucket <> [].
Proof.
  intros Hwf Hbatch Hnamed Hvalid.
  destruct (appendAll_outcome batch Hwf Hbatch)
    as (coll' & [bucket|e] & Hrun & Hwf' & Hothers & Hout).
  - destruct Hout as (_ & _ & Hstored & Hmine & Hsome).
    exists coll', bucket. repeat (split; [assumption|]). assumption.
  - destruct Hout as (_ & [Hbad|Hbad] & _); congruence.
Qed.

End Generic.

Section Shape.

Context {B I : Type} `{BucketDoc B} {ops : BucketOps B I}.

(** Reading a session of a well-formed collection needs no sorting. *)
Lemma findBySession_wellFormed (cap : nat) (coll : list B) (sid : string) :
  wellFormed cap coll -> findBySession coll sid = ofSession coll sid.
Proof.
  intros (_ & _ & Hshape). unfold findBySession.
  destruct (ofSession coll sid) as [|d ds _] eqn:Hmine using rev_ind;
    [reflexivity|].
  destruct (Hshape sid ds d Hmine) as (Hnum & _).
  apply (sortByNumber_numbered _ 1).
  rewrite Hnum, length_app, Nat.add_comm. reflexivity.
Qed.

(** What the closed buckets of a session hold. *)
Lemma closed_size (cap : nat) (closed : list B) :
  List.Forall (fun b => isFull b = true /\ length (items b) = cap
                        /\ itemCount b = cap) closed ->
  length (concat (map items closed)) = length closed * cap.
Proof.
  induction 1 as [|b bs Hb Hbs IH]; [reflexivity|].
  cbn [map concat length]. rewrite length_app, IH.
  destruct Hb as (_ & -> & _). lia.
Qed.

(** No bucket of a session is above [cap]; the session's items are those
    of its closed buckets, [cap] each, and of the open one; when the open
    bucket is not empty the session has [ceil(n / cap)] buckets. *)
Lemma wellFormed_buckets (cap : nat) (coll : list B) (sid : string) :
  1 <= cap ->
  wellFormed cap coll ->
  List.Forall (fun b => length (items b) <= cap) (ofSession coll sid)
  /\ forall closed last, ofSession coll sid = closed ++ [last] ->
       length (stored coll sid) = length closed * cap + length (items last)
       /\ (items last <> [] ->
           length (ofSession coll sid) = ceilDiv (length (stored coll sid)) cap).
Proof.
  intros Hcap (_ & _ & Hshape). split.
  - destruct (ofSession coll sid) as [|d ds _] eqn:Hmine using rev_ind;
      [constructor|].
    destruct (Hshape sid ds d Hmine) as (_ & Hclosed & _ & _ & Hlen).
    apply List.Forall_app. split.
    + eapply List.Forall_impl; [|exact Hclosed]. intros b (_ & -> & _). lia.
    + constructor; [lia | constructor].
  - intros closed last Hmine.
    destruct (Hshape sid closed last Hmine) as (_ & Hclosed & _ & _ & Hlen).
    assert (Hsize : length (stored coll sid)
                    = length closed * cap + length (items last)).
    { unfold stored. rewrite Hmine, map_app, concat_app, length_app.
      rewrite (closed_size cap closed Hclosed). cbn [map concat].
      rewrite app_nil_r. reflexivity. }
    split; [exact Hsize|].
    intros Hsome. rewrite Hmine, length_app, Nat.add_comm. cbn [length Nat.add].
    apply (ChunkFacts.chunk_count cap Hcap _ (length (items last)));
      [symmetry; exact Hsize|].
    split; [|exact Hlen].
    destruct (items last); [congruence | simpl; lia].
Qed.

(** The buckets of a session of a well-formed collection have distinct
    numbers. *)
Lemma wellFormed_numbers (cap : nat) (coll : list B) (sid : string) :
  wellFormed cap coll -> NoDup (map bucketNumber (ofSession coll sid)).
Proof.
  intros (_ & _ & Hshape).
  destruct (ofSession coll sid) as [|d ds _] eqn:Hmine using rev_ind;
    [constructor|].
  destruct (Hshape sid ds d Hmine) as (-> & _). apply NoDup_seq.
Qed.

(** So a session reads the same in whatever order the collection holds
    its buckets. *)
Lemma findBySession_shuffled (cap : nat) (coll shuffled : list B)
    (sid : string) :
  wellFormed cap coll -> Permutation shuffled coll ->
  findBySession shuffled sid = findBySession coll sid.
Proof.
  intros Hwf Hperm.
  exact (findBySession_Permutation coll shuffled sid Hperm
           (wellFormed_numbers cap coll sid Hwf)).
Qed.


(** A session without buckets stores nothing. *)
Lemma stored_none (coll : list B) (sid : string) :
  ofSession coll sid = [] -> stored coll sid = [].
Proof. unfold stored. intros ->. reflexivity. Qed.

End Shape.

End ChunkedAppend.

Module StoreProperties.

Import Mongoose ChunkedStore Spec MongooseFacts ChunkedStoreFacts ChunkedAppend.

Lemma trace_lawful :
  Lawful (H := MotorPointerTraceBucket.Bucket_doc) (ops := Trace_ops).
Proof.
  constructor; intros; try reflexivity.
  cbn. rewrite length_app. simpl. lia.
Qed.

Lemma attempt_lawful :
  Lawful (H := MotorAttemptBucket.Bucket_doc) (ops := Attempt_ops).
Proof.
  constructor; intros; try reflexivity.
  cbn. rewrite length_app. simpl. lia.
Qed.

Lemma wellFormed_empty {B I : Type} `{BucketDoc B} {ops : BucketOps B I}
    (cap : nat) :
  wellFormed cap ([] : list B).
Proof.
  split; [|split].
  - intros i b Hb. destruct i; discriminate.
  - constructor.
  - intros sid closed last Hsplit. destruct closed; discriminate.
Qed.

(** Filtering every bucket is filtering the stream. *)
Lemma flat_map_filter {A C : Type} (f : A -> list C) (p : C -> bool)
    (l : list A) :
  flat_map (fun a => List.filter p (f a)) l = List.filter p (flat_map f l).
Proof.
  induction l as [|a l IH]; [reflexivity|].
  simpl. rewrite List.filter_app, IH. reflexivity.
Qed.


Section Trace.

Import MotorPointerTraceBucket.

Context {wording : Wording Bucket}.

(** With a registered session and a batch that is not empty,
    [addSamples] is the append loop. *)
Lemma addSamples_appendAll (cap : nat) (sessions : gset string)
    (coll : list Bucket) (sid : string) (uid : option string)
    (samplesArray : list Schema.Sample) :
  sid ∈ sessions -> samplesArray <> [] ->
  addSamplesWith cap sessions coll sid uid samplesArray
  = appendAll cap sessions coll sid uid samplesArray.
Proof.
  intros Hin Hne. unfold addSamplesWith.
  destruct samplesArray as [|s rest]; [congruence|].
  unfold sessionFindOne. rewrite bool_decide_eq_true_2 by exact Hin.
  reflexivity.
Qed.

(** Otherwise it throws and leaves the collection as it was. *)
Lemma addSamples_refused (cap : nat) (sessions : gset string)
    (coll : list Bucket) (sid : string) (uid : option string)
    (samplesArray : list Schema.Sample) :
  sid ∉ sessions \/ samplesArray = [] ->
  exists e, addSamplesWith cap sessions coll sid uid samplesArray
            = (coll, Throw e).
Proof.
  intros Hwhy. unfold addSamplesWith.
  destruct samplesArray as [|s rest]; [eexists; reflexivity|].
  destruct Hwhy as [Hout|Hnil]; [|discriminate].
  unfold sessionFindOne. rewrite bool_decide_eq_false_2 by exact Hout.
  eexists. reflexivity.
Qed.

(** What [addSamples] leaves of a well-formed collection, whatever it is
    given: a well-formed collection in which the other sessions are as
    they were; when it returns, the batch was valid and follows what the
    session stored; when it throws, a part of the batch that filled
    buckets does. *)
Lemma addSamples_outcome (cap : nat) (sessions : gset string)
    (coll : list Bucket) (sid : string) (uid : option string)
    (samplesArray : list Schema.Sample) (coll' : list Bucket)
    (outcome : result Bucket) :
  1 <= cap -> wellFormed cap coll ->
  addSamplesWith cap sessions coll sid uid samplesArray = (coll', outcome) ->
  wellFormed cap coll'
  /\ (forall other, other <> sid -> ofSession coll' other = ofSession coll other)
  /\ match outcome with
     | Ok bucket =>
         sid ∈ sessions /\ samplesArray <> []
         /\ Schema.isRequiredString sid = true
         /\ forallb Schema.validSample samplesArray = true
         /\ stored coll' sid = stored coll sid ++ samplesArray
         /\ (exists closed, ofSession coll' sid = closed ++ [bucket])
         /\ samples bucket <> []
     | Throw e =>
         exists flushed rest,
           samplesArray = flushed ++ rest
           /\ (rest = [] -> samplesArray = [])
           /\ stored coll' sid = stored coll sid ++ flushed
     end.
Proof.
  intros Hcap Hwf Hrun.
  assert (Hrefused : forall e, (coll', outcome) = (coll, Throw e) ->
            wellFormed cap coll'
            /\ (forall other, other <> sid ->
                  ofSession coll' other = ofSession coll other)
            /\ match outcome with
               | Ok bucket =>
                   sid ∈ sessions /\ samplesArray <> []
                   /\ Schema.isRequiredString sid = true
                   /\ forallb Schema.validSample samplesArray = true
                   /\ stored coll' sid = stored coll sid ++ samplesArray
                   /\ (exists closed, ofSession coll' sid = closed ++ [bucket])
                   /\ samples bucket <> []
               | Throw e =>
                   exists flushed rest,
                     samplesArray = flushed ++ rest
                     /\ (rest = [] -> samplesArray = [])
                     /\ stored coll' sid = stored coll sid ++ flushed
               end).
  { intros e [= -> ->]. split; [exact Hwf|]. split; [reflexivity|].
    exists [], samplesArray. split; [reflexivity|].
    split; [tauto | rewrite app_nil_r; reflexivity]. }
  destruct (decide (sid ∈ sessions)) as [Hin|Hout]; cycle 1.
  { destruct (addSamples_refused cap sessions coll sid uid samplesArray
                (or_introl Hout)) as [e He].
    rewrite He in Hrun. symmetry in Hrun. exact (Hrefused e Hrun). }
  destruct (Nat.eq_dec (length samplesArray) 0) as [Hnone|Hsome].
  { apply length_zero_iff_nil in Hnone.
    destruct (addSamples_refused cap sessions coll sid uid samplesArray
                (or_intror Hnone)) as [e He].
    rewrite He in Hrun. symmetry in Hrun. exact (Hrefused e Hrun). }
  clear Hrefused.
  assert (Hne : samplesArray <> [])
    by (intros Hnil; apply Hsome; rewrite Hnil; reflexivity).
  rewrite addSamples_appendAll in Hrun by assumption.
  destruct (appendAll_outcome trace_lawful cap Hcap sessions sid uid Hin coll
              samplesArray Hwf Hne)
    as (c & o & Hsame & Hwf' & Hothers & Hout).
  rewrite Hrun in Hsame. injection Hsame as <- <-.
  split; [exact Hwf'|]. split; [exact Hothers|].
  destruct outcome as [bucket|e].
  - destruct Hout as (Hnamed & Hvalid & Hstored & Hlast & Hfilled).
    repeat (split; [assumption|]). exact Hfilled.
  - destruct Hout as (_ & _ & flushed & pending & Hsplit & Hrest & Hstored).
    exists flushed, pending. split; [exact Hsplit|].
    split; [intros Hnil; contradiction | exact Hstored].
Qed.

Lemma addSamples_wellFormed (cap : nat) (sessions : gset string)
    (coll : list Bucket) (sid : string) (uid : option string)
    (samplesArray : list Schema.Sample) (coll' : list Bucket)
    (outcome : result Bucket) :
  1 <= cap -> wellFormed cap coll ->
  addSamplesWith cap sessions coll sid uid samplesArray = (coll', outcome) ->
  wellFormed cap coll'.
Proof.
  intros Hcap Hwf Hrun.
  exact (proj1 (addSamples_outcome cap sessions coll sid uid samplesArray coll'
                  outcome Hcap Hwf Hrun)).
Qed.

Lemma traceReachable_wellFormed (cap : nat) (coll : list Bucket) :
  1 <= cap -> traceReachable cap coll -> wellFormed cap coll.
Proof.
  intros Hcap.
  induction 1 as [|sessions coll sid uid l coll' outcome _ IH Hrun].
  - apply wellFormed_empty.
  - exact (addSamples_wellFormed cap sessions coll sid uid l coll' outcome
             Hcap IH Hrun).
Qed.

Lemma getSessionSamples_stored (cap : nat) (coll : list Bucket) (sid : string) :
  wellFormed cap coll -> getSessionSamples coll sid None = stored coll sid.
Proof.
  intros Hwf. unfold getSessionSamples, stored.
  rewrite (findBySession_wellFormed cap coll sid Hwf), flat_map_concat_map.
  reflexivity.
Qed.

Lemma getSessionSamples_round (coll : list Bucket) (sid : string) (r : Z) :
  getSessionSamples coll sid (Some r)
  = List.filter (fun s => (Schema.round s =? r)%Z)
                (getSessionSamples coll sid None).
Proof. unfold getSessionSamples. apply flat_map_filter. Qed.

Lemma getSessionSamples_same (coll coll' : list Bucket) (sid : string)
    (r : option Z) :
  ofSession coll' sid = ofSession coll sid ->
  getSessionSamples coll' sid r = getSessionSamples coll sid r.
Proof. intros Hsame. unfold getSessionSamples, findBySession. rewrite Hsame. reflexivity. Qed.


End Trace.

Section Attempts.

Context {M : MathLib} {wording : Wording MotorAttemptBucket.Bucket}.

Import MotorAttemptBucket.

Lemma enrichFrom_length (allSamples : list Schema.Sample) (prev : option Z)
    (attemptsArray : list Attempt) :
  length (enrichFrom allSamples prev attemptsArray) = length attemptsArray.
Proof.
  revert prev. induction attemptsArray as [|a rest IH]; intros prev;
    [reflexivity|].
  simpl. rewrite IH. reflexivity.
Qed.

Lemma enrich_nonempty (allSamples : list Schema.Sample)
    (attemptsArray : list Attempt) :
  attemptsArray <> [] -> enrich allSamples attemptsArray <> [].
Proof.
  intros Hne Hnil. apply Hne. apply length_zero_iff_nil.
  rewrite <- (enrichFrom_length allSamples None attemptsArray).
  unfold enrich in Hnil. rewrite Hnil. reflexivity.
Qed.

(** With a registered session and a batch that is not empty,
    [addAttempts] is the append loop on the enriched batch. *)
Lemma addAttempts_appendAll (cap : nat) (sessions : gset string)
    (traces : list MotorPointerTraceBucket.Bucket) (coll : list Bucket)
    (sid : string) (uid : option string) (attemptsArray : list Attempt) :
  sid ∈ sessions -> attemptsArray <> [] ->
  addAttemptsWith cap sessions traces coll sid uid attemptsArray
  = appendAll cap sessions coll sid uid
      (enrich (MotorPointerTraceBucket.getSessionSamples traces sid None)
              attemptsArray).
Proof.
  intros Hin Hne. unfold addAttemptsWith.
  destruct attemptsArray as [|a rest]; [congruence|].
  unfold sessionFindOne. rewrite bool_decide_eq_true_2 by exact Hin.
  reflexivity.
Qed.

(** Otherwise it throws and leaves the collection as it was. *)
Lemma addAttempts_refused (cap : nat) (sessions : gset string)
    (traces : list MotorPointerTraceBucket.Bucket) (coll : list Bucket)
    (sid : string) (uid : option string) (attemptsArray : list Attempt) :
  sid ∉ sessions \/ attemptsArray = [] ->
  exists e, addAttemptsWith cap sessions traces coll sid uid attemptsArray
            = (coll, Throw e).
Proof.
  intros Hwhy. unfold addAttemptsWith.
  destruct attemptsArray as [|a rest]; [eexists; reflexivity|].
  destruct Hwhy as [Hout|Hnil]; [|discriminate].
  unfold sessionFindOne. rewrite bool_decide_eq_false_2 by exact Hout.
  eexists. reflexivity.
Qed.

(** What [addAttempts] leaves of a well-formed collection, whatever it is
    given. *)
Lemma addAttempts_outcome (cap : nat) (sessions : gset string)
    (traces : list MotorPointerTraceBucket.Bucket) (coll : list Bucket)
    (sid : string) (uid : option string) (attemptsArray : list Attempt)
    (coll' : list Bucket) (outcome : result Bucket) :
  1 <= cap -> wellFormed cap coll ->
  addAttemptsWith cap sessions traces coll sid uid attemptsArray
  = (coll', outcome) ->
  let enriched :=
    enrich (MotorPointerTraceBucket.getSessionSamples traces sid None)
           attemptsArray in
  wellFormed cap coll'
  /\ (forall other, other <> sid -> ofSession coll' other = ofSession coll other)
  /\ match outcome with
     | Ok bucket =>
         sid ∈ sessions /\ attemptsArray <> []
         /\ Schema.isRequiredString sid = true
         /\ forallb validAttempt enriched = true
         /\ stored coll' sid = stored coll sid ++ enriched
         /\ (exists closed, ofSession coll' sid = closed ++ [bucket])
         /\ attempts bucket <> []
     | Throw e =>
         exists flushed rest,
           enriched = flushed ++ rest
           /\ (rest = [] -> attemptsArray = [])
           /\ stored coll' sid = stored coll sid ++ flushed
     end.
Proof.
  intros Hcap Hwf Hrun enriched.
  assert (Hrefused : forall e, (coll', outcome) = (coll, Throw e) ->
            wellFormed cap coll'
            /\ (forall other, other <> sid ->
                  ofSession coll' other = ofSession coll other)
            /\ match outcome with
               | Ok bucket =>
                   sid ∈ sessions /\ attemptsArray <> []
                   /\ Schema.isRequiredString sid = true
                   /\ forallb validAttempt enriched = true
                   /\ stored coll' sid = stored coll sid ++ enriched
                   /\ (exists closed, ofSession coll' sid = closed ++ [bucket])
                   /\ attempts bucket <> []
               | Throw e =>
                   exists flushed rest,
                     enriched = flushed ++ rest
                     /\ (rest = [] -> attemptsArray = [])
                     /\ stored coll' sid = stored coll sid ++ flushed
               end).
  { intros e [= -> ->]. split; [exact Hwf|]. split; [reflexivity|].
    exists [], enriched. split; [reflexivity|].
    split; [|rewrite app_nil_r; reflexivity].
    intros Hnil. apply length_zero_iff_nil.
    rewrite <- (enrichFrom_length
                  (MotorPointerTraceBucket.getSessionSamples traces sid None)
                  None attemptsArray).
    unfold enriched, enrich in Hnil. rewrite Hnil. reflexivity. }
  destruct (decide (sid ∈ sessions)) as [Hin|Hout]; cycle 1.
  { destruct (addAttempts_refused cap sessions traces coll sid uid attemptsArray
                (or_introl Hout)) as [e He].
    rewrite He in Hrun. symmetry in Hrun.
    exact (Hrefused e Hrun). }
  destruct (Nat.eq_dec (length attemptsArray) 0) as [Hnone|Hsome].
  { apply length_zero_iff_nil in Hnone.
    destruct (addAttempts_refused cap sessions traces coll sid uid attemptsArray
                (or_intror Hnone)) as [e He].
    rewrite He in Hrun. symmetry in Hrun. exact (Hrefused e Hrun). }
  clear Hrefused.
  assert (Hne : attemptsArray <> [])
    by (intros Hnil; apply Hsome; rewrite Hnil; reflexivity).
  rewrite addAttempts_appendAll in Hrun by assumption.
  fold enriched in Hrun.
  destruct (appendAll_outcome attempt_lawful cap Hcap sessions sid uid Hin coll
              enriched Hwf (enrich_nonempty _ attemptsArray Hne))
    as (c & o & Hsame & Hwf' & Hothers & Hout).
  rewrite Hrun in Hsame. injection Hsame as <- <-.
  split; [exact Hwf'|]. split; [exact Hothers|].
  destruct outcome as [bucket|e].
  - destruct Hout as (Hnamed & Hvalid & Hstored & Hlast & Hfilled).
    repeat (split; [assumption|]). exact Hfilled.
  - destruct Hout as (_ & _ & flushed & pending & Hsplit & Hrest & Hstored).
    exists flushed, pending. split; [exact Hsplit|].
    split; [intros Hnil; contradiction | exact Hstored].
Qed.

Lemma addAttempts_wellFormed (cap : nat) (sessions : gset string)
    (traces : list MotorPointerTraceBucket.Bucket) (coll : list Bucket)
    (sid : string) (uid : option string) (attemptsArray : list Attempt)
    (coll' : list Bucket) (outcome : result Bucket) :
  1 <= cap -> wellFormed cap coll ->
  addAttemptsWith cap sessions traces coll sid uid attemptsArray
  = (coll', outcome) ->
  wellFormed cap coll'.
Proof.
  intros Hcap Hwf Hrun.
  exact (proj1 (addAttempts_outcome cap sessions traces coll sid uid
                  attemptsArray coll' outcome Hcap Hwf Hrun)).
Qed.

Lemma attemptReachable_wellFormed (cap : nat) (coll : list Bucket) :
  1 <= cap -> attemptReachable cap coll -> wellFormed cap coll.
Proof.
  intros Hcap.
  induction 1 as [|sessions traces coll sid uid l coll' outcome _ IH Hrun].
  - apply wellFormed_empty.
  - exact (addAttempts_wellFormed cap sessions traces coll sid uid l coll'
             outcome Hcap IH Hrun).
Qed.

Lemma getSessionAttempts_stored (cap : nat) (coll : list Bucket) (sid : string) :
  wellFormed cap coll -> getSessionAttempts coll sid None = stored coll sid.
Proof.
  intros Hwf. unfold getSessionAttempts, stored.
  rewrite (findBySession_wellFormed cap coll sid Hwf), flat_map_concat_map.
  reflexivity.
Qed.

Lemma getSessionAttempts_round (coll : list Bucket) (sid : string) (r : Z) :
  getSessionAttempts coll sid (Some r)
  = List.filter (fun a => (round a =? r)%Z) (getSessionAttempts coll sid None).
Proof. unfold getSessionAttempts. apply flat_map_filter. Qed.


(** What an enrichment leaves of an attempt. *)
Lemma enrichOne_submitted (allSamples : list Schema.Sample) (a : Attempt)
    (prev : option Z) :
  let e := enrichOne allSamples a prev in
  round e = round a /\ attemptId e = attemptId a /\ bubbleId e = bubbleId a
  /\ spawnTms e = spawnTms a /\ target e = target a /\ click e = click a.
Proof. repeat split. Qed.

Lemma enrichFrom_map {A : Type} (f : Attempt -> A)
    (allSamples : list Schema.Sample) (prev : option Z)
    (attemptsArray : list Attempt) :
  (forall a p, f (enrichOne allSamples a p) = f a) ->
  map f (enrichFrom allSamples prev attemptsArray) = map f attemptsArray.
Proof.
  intros Hf. revert prev.
  induction attemptsArray as [|a rest IH]; intros prev; [reflexivity|].
  simpl. rewrite Hf, IH. reflexivity.
Qed.

(** A filter that reads only what enrichment leaves commutes with it. *)
Lemma enrichFrom_filter_length (p : Attempt -> bool)
    (allSamples : list Schema.Sample) (prev : option Z)
    (attemptsArray : list Attempt) :
  (forall a q, p (enrichOne allSamples a q) = p a) ->
  length (List.filter p (enrichFrom allSamples prev attemptsArray))
  = length (List.filter p attemptsArray).
Proof.
  intros Hp. revert prev.
  induction attemptsArray as [|a rest IH]; intros prev; [reflexivity|].
  simpl. rewrite Hp. destruct (p a); simpl; rewrite IH; reflexivity.
Qed.


End Attempts.

End StoreProperties.

Module TraceBucketClaims.

Import Schema Mongoose MotorPointerTraceBucket Spec ChunkedStore ChunkFacts
  MongooseFacts ChunkedStoreFacts ChunkedAppend StoreProperties.

Section Append.

Context {wording : Wording Bucket}.

(** C6. Appending [N >= 1] samples that pass the validators of the
    schema, for a registered session that has no bucket yet in a
    collection left by earlier appends, with buckets of capacity
    [C >= 1], returns and leaves exactly [ceil(N / C)] buckets for the
    session, each of at most [C] samples; reading the session back,
    bucket after bucket by ascending number, gives the samples in the
    order they were submitted, in whatever order the collection holds the
    buckets. *)
Theorem chunked_append_keeps_order (cap : nat) (sessions : gset string)
    (coll : list Bucket) (sid : string) (uid : option string)
    (samplesArray : list Sample) :
  1 <= cap ->
  traceReachable cap coll ->
  sid ∈ sessions ->
  isRequiredString sid = true ->
  ofSession coll sid = [] ->
  samplesArray <> [] ->
  forallb validSample samplesArray = true ->
  exists (coll' : list Bucket) (bucket : Bucket),
    addSamplesWith cap sessions coll sid uid samplesArray = (coll', Ok bucket)
    /\ length (ofSession coll' sid) = ceilDiv (length samplesArray) cap
    /\ List.Forall (fun b => length (samples b) <= cap) (ofSession coll' sid)
    /\ getSessionSamples coll' sid None = samplesArray
    /\ forall shuffled : list Bucket,
         Permutation shuffled coll' ->
         getSessionSamples shuffled sid None = samplesArray.
Proof.
  intros Hcap Hreach Hsid Hnamed Hfresh Hne Hvalid.
  pose proof (traceReachable_wellFormed cap coll Hcap Hreach) as Hwf.
  destruct (appendAll_returns trace_lawful cap Hcap sessions sid uid Hsid coll
              samplesArray Hwf Hne Hnamed Hvalid)
    as (coll' & bucket & Hok & Hwf' & _ & Hstored & (closed & Hlast) & Hsome).
  rewrite (stored_none coll sid Hfresh) in Hstored. cbn [app] in Hstored.
  destruct (wellFormed_buckets cap coll' sid Hcap Hwf') as [Hsizes Hcount].
  destruct (Hcount closed bucket Hlast) as [_ Hceil].
  assert (Hread : getSessionSamples coll' sid None = samplesArray).
  { rewrite (getSessionSamples_stored cap coll' sid Hwf'). exact Hstored. }
  exists coll', bucket.
  split; [rewrite addSamples_appendAll by assumption; exact Hok|].
  split; [rewrite (Hceil Hsome), Hstored; reflexivity|].
  split; [exact Hsizes|].
  split; [exact Hread|].
  intros shuffled Hperm. rewrite <- Hread. unfold getSessionSamples.
  rewrite (findBySession_shuffled cap coll' shuffled sid Hwf' Hperm).
  reflexivity.
Qed.

End Append.

(** Five samples in buckets of two make three buckets, also next to what
    a refused batch of another session left; three samples in buckets of
    [MAX_TRACE_SAMPLES_PER_BUCKET] make one. *)
Lemma chunked_append_keeps_order_witness :
  let wording := Scenario.traceWording in
  (1 <= 2
   /\ traceReachable 2 StoreScenario.afterRefusal
   /\ ("s1"%string ∈ StoreScenario.twoSessions)
   /\ isRequiredString "s1" = true
   /\ ofSession StoreScenario.afterRefusal "s1" = []
   /\ Scenario.fiveSamples <> []
   /\ forallb validSample Scenario.fiveSamples = true
   /\ exists (coll' : list Bucket) (bucket : Bucket),
        addSamplesWith 2 StoreScenario.twoSessions StoreScenario.afterRefusal
                       "s1" None Scenario.fiveSamples
        = (coll', Ok bucket)
        /\ length (ofSession coll' "s1") = ceilDiv 5 2
        /\ List.Forall (fun b => length (samples b) <= 2) (ofSession coll' "s1")
        /\ getSessionSamples coll' "s1" None = Scenario.fiveSamples
        /\ forall shuffled : list Bucket,
             Permutation shuffled coll' ->
             getSessionSamples shuffled "s1" None = Scenario.fiveSamples)
  /\ exists (coll' : list Bucket) (bucket : Bucket),
       addSamples {[ "s1"%string ]} [] "s1" None Scenario.threeSamples
       = (coll', Ok bucket)
       /\ length (ofSession coll' "s1") = ceilDiv 3 MAX_TRACE_SAMPLES_PER_BUCKET
       /\ List.Forall (fun b => length (samples b) <= MAX_TRACE_SAMPLES_PER_BUCKET)
                      (ofSession coll' "s1")
       /\ getSessionSamples coll' "s1" None = Scenario.threeSamples
       /\ forall shuffled : list Bucket,
            Permutation shuffled coll' ->
            getSessionSamples shuffled "s1" None = Scenario.threeSamples.
Proof.
  intros wording.
  assert (Hs1 : "s1"%string ∈ ({[ "s1"%string ]} : gset string))
    by (apply elem_of_singleton; reflexivity).
  assert (Hs12 : "s1"%string ∈ StoreScenario.twoSessions)
    by (apply elem_of_union_l, elem_of_singleton; reflexivity).
  assert (Hreach : traceReachable 2 StoreScenario.afterRefusal).
  { eapply (trace_added 2 StoreScenario.twoSessions [] "s2" None
              StoreScenario.strayRound); [apply trace_empty|].
    apply surjective_pairing. }
  split.
  - split; [lia|]. split; [exact Hreach|]. split; [exact Hs12|].
    split; [reflexivity|]. split; [reflexivity|].
    split; [discriminate|]. split; [reflexivity|].
    apply (chunked_append_keeps_order 2 StoreScenario.twoSessions
             StoreScenario.afterRefusal "s1" None Scenario.fiveSamples);
      [lia | exact Hreach | exact Hs12 | reflexivity | reflexivity
      | discriminate | reflexivity].
  - apply (chunked_append_keeps_order MAX_TRACE_SAMPLES_PER_BUCKET
             {[ "s1"%string ]} [] "s1" None Scenario.threeSamples);
      [unfold MAX_TRACE_SAMPLES_PER_BUCKET; lia | apply trace_empty | exact Hs1
      | reflexivity | reflexivity | discriminate | reflexivity].
Defined.

(** The three buckets of the five samples, after the two that the refused
    batch left: its first two samples, and an empty bucket. *)
Example five_samples_in_three_buckets :
  exists (coll' : list Bucket) (bucket : Bucket),
    addSamplesWith (wording := Scenario.traceWording) 2
      StoreScenario.twoSessions StoreScenario.afterRefusal "s1" None
      Scenario.fiveSamples
    = (coll', Ok bucket)
    /\ map (fun b => (bucket_sessionId b, bucket_bucketNumber b,
                      length (samples b), bucket_isFull b))
           coll'
       = [("s2"%string, 1, 2, true); ("s2"%string, 2, 0, false);
          ("s1"%string, 1, 2, true); ("s1"%string, 2, 2, true);
          ("s1"%string, 3, 1, false)].
Proof. eexists _, _. split; [vm_compute; reflexivity|]. reflexivity. Qed.

End TraceBucketClaims.

Module ControllerClaims.

Import Mongoose MotorController Spec Scenario.

Section Claims.

Context {M : MathLib} {wording : Wording MotorAttemptBucket.Bucket}.

(** The store refuses a batch for a session that is not registered,
    before it reads or writes anything. *)
Lemma addAttempts_unknown_session (cap : nat) (sessions : gset string)
    (traces : list MotorPointerTraceBucket.Bucket)
    (coll : list MotorAttemptBucket.Bucket) (sid : string) (uid : option string)
    (attempts : list MotorAttemptBucket.Attempt) :
  sid ∉ sessions ->
  attempts <> [] ->
  MotorAttemptBucket.addAttemptsWith cap sessions traces coll sid uid attempts
  = (coll, Throw (doesNotExist sid)).
Proof.
  intros Hunknown Hne. unfold MotorAttemptBucket.addAttemptsWith.
  destruct attempts as [|a rest]; [congruence|].
  unfold sessionFindOne. rewrite bool_decide_eq_false_2 by exact Hunknown.
  reflexivity.
Qed.

(** The [catch] block of [logAttempts] is never entered. *)
Lemma logAttempts_never_catches (req : Request) (w : World) :
  exists rw, logAttemptsBody req w = Ok rw.
Proof.
  unfold logAttemptsBody.
  destruct (truthy (req_sessionId req)), (req_sessionId req) as [sid|],
    (req_attempts req) as [[|a rest]|]; eexists; reflexivity.
Qed.

(** C1 (amended). A non-empty batch for a session that is not in the
    registry is acknowledged to the caller at once (success, with the
    number of attempts received); the unknown-session error is raised by
    the store inside the background task, which logs it and drops the
    batch; no attempt record is written. *)
Theorem unknown_session_acknowledged_then_dropped (w : World) (sid : string)
    (uid : option string) (attempts : list MotorAttemptBucket.Attempt) :
  sid ∉ sessions w ->
  sid <> EmptyString ->
  attempts <> [] ->
  logAttempts (mkRequest (Some sid) uid (Some attempts)) w
  = (mkResponse 200 true (Received (length attempts) true),
     mkWorld (sessions w) (traces w) (attemptBuckets w)
             (logs w ++ [LogError "Error processing motor attempts:" sid
                                  (message (doesNotExist sid))])).
Proof.
  intros Hunknown Hsid Hne.
  unfold logAttempts, logAttemptsBody. cbn [req_sessionId req_attempts req_userId].
  replace (truthy (Some sid)) with true by (destruct sid; [congruence | reflexivity]).
  destruct attempts as [|a rest] eqn:Hattempts; [congruence|].
  rewrite <- Hattempts in *.
  unfold processAttempts, MotorAttemptBucket.addAttempts.
  rewrite addAttempts_unknown_session by assumption.
  reflexivity.
Qed.

End Claims.

Section Scenarios.

#[local] Existing Instance ScenarioMath.
#[local] Existing Instance attemptWording.

(** C1 as stated: the caller of [ghostRequest] is not told that the
    session is unknown; the answer is the acknowledgement. *)
Lemma unknown_session_not_rejected :
  unknownSessionRejection (fst (logAttempts ghostRequest oneSession)) = false
  /\ fst (logAttempts ghostRequest oneSession)
     = mkResponse 200 true (Received 1 true).
Proof. split; vm_compute; reflexivity. Qed.

Lemma unknown_session_acknowledged_then_dropped_witness :
  ("ghost"%string ∉ sessions oneSession)
  /\ "ghost"%string <> EmptyString
  /\ [ aMiss 1 ] <> []
  /\ logAttempts ghostRequest oneSession
     = (mkResponse 200 true (Received 1 true),
        mkWorld (sessions oneSession) [] []
                [LogError "Error processing motor attempts:" "ghost"
                          (message (doesNotExist "ghost"))]).
Proof.
  assert (Hghost : "ghost"%string ∉ sessions oneSession).
  { cbn. intros Hin. apply elem_of_singleton in Hin. discriminate Hin. }
  split; [exact Hghost|].
  split; [discriminate|].
  split; [discriminate|].
  apply (unknown_session_acknowledged_then_dropped oneSession "ghost" None
           [ aMiss 1 ] Hghost); discriminate.
Defined.

End Scenarios.

End ControllerClaims.

Module SummaryClaims.

Import MotorAttemptBucket MotorSummary Spec Scenario.

(** Hits and misses split the attempts. *)
Lemma hits_and_misses (attempts : list Attempt) :
  length (List.filter (fun a => hit (click a)) attempts)
  + length (List.filter (fun a => negb (hit (click a))) attempts)
  = length attempts.
Proof.
  induction attempts as [|a attempts IH]; [reflexivity|].
  simpl. destruct (hit (click a)); simpl; lia.
Qed.

(** Counting does not depend on the order. *)
Lemma filter_length_Permutation {A : Type} (p : A -> bool) (l l' : list A) :
  Permutation l l' -> length (List.filter p l) = length (List.filter p l').
Proof.
  induction 1 as [|a l l' _ IH|a b l|l l' l'' _ IH1 _ IH2].
  - reflexivity.
  - simpl. destruct (p a); simpl; rewrite IH; reflexivity.
  - simpl. destruct (p a), (p b); reflexivity.
  - rewrite IH1. exact IH2.
Qed.

(** What [getSessionAttempts] reads for a round is, up to the order of
    the buckets, what the buckets of the session hold of that round. *)
Lemma getSessionAttempts_attemptsOfRound (coll : list Bucket) (sid : string)
    (r : Z) :
  Permutation (getSessionAttempts coll sid (Some r)) (attemptsOfRound coll sid r).
Proof.
  unfold getSessionAttempts, Mongoose.findBySession.
  rewrite (Permutation_flat_map _
             (MongooseFacts.sortByNumber_Permutation (Mongoose.ofSession coll sid))).
  unfold Mongoose.ofSession, attemptsOfRound.
  induction coll as [|b coll IH]; [reflexivity|].
  cbn [List.filter flat_map Mongoose.sessionId Bucket_doc].
  destruct (String.eqb_spec (bucket_sessionId b) sid) as [Heq|Hne].
  - rewrite bool_decide_eq_true_2 by exact Heq. cbn [flat_map].
    apply Permutation_app_head. exact IH.
  - rewrite bool_decide_eq_false_2 by exact Hne. exact IH.
Qed.

Section Claims.

Context {M : MathLib}.

Lemma computeRoundFeatures_some (coll : list Bucket) (sid : string) (r : Z)
    (rf : RoundFeatures) :
  computeRoundFeatures coll sid r = Some rf ->
  rf = aggregate (getSessionAttempts coll sid (Some r))
  /\ getSessionAttempts coll sid (Some r) <> [].
Proof.
  unfold computeRoundFeatures.
  destruct (getSessionAttempts coll sid (Some r)) as [|a rest]; [discriminate|].
  intros [= <-]. split; [reflexivity | discriminate].
Qed.

(** C8. [computeRoundFeatures] is null exactly when the buckets of the
    session hold no attempt of the round; otherwise the attempts counted
    are those, the hits are the ones with [click.hit], the misses the
    others, the attempts are the hits and the misses together, and the
    hit rate is the hits over the attempts. *)
Theorem round_counts (coll : list Bucket) (sid : string) (r : Z) :
  let attempts := attemptsOfRound coll sid r in
  (computeRoundFeatures coll sid r = None <-> attempts = [])
  /\ forall rf : RoundFeatures,
       computeRoundFeatures coll sid r = Some rf ->
       nAttempts rf = length attempts
       /\ nHits rf = length (List.filter (fun a => hit (click a)) attempts)
       /\ nMisses rf
          = length (List.filter (fun a => negb (hit (click a))) attempts)
       /\ nAttempts rf = nHits rf + nMisses rf
       /\ hitRate rf = (nat2float (nHits rf) / nat2float (nAttempts rf))%float.
Proof.
  intros attempts.
  pose proof (getSessionAttempts_attemptsOfRound coll sid r) as Hperm.
  fold attempts in Hperm. split.
  - unfold computeRoundFeatures.
    destruct (getSessionAttempts coll sid (Some r)) as [|a rest].
    + apply Permutation_nil in Hperm. rewrite Hperm. simpl. tauto.
    + simpl. split; [discriminate|]. intros Hnone. rewrite Hnone in Hperm.
      symmetry in Hperm. apply Permutation_nil in Hperm. discriminate Hperm.
  - intros rf Hrf. apply computeRoundFeatures_some in Hrf.
    destruct Hrf as [-> Hne].
    cbn [aggregate nAttempts nHits nMisses hitRate].
    rewrite <- (Permutation_length Hperm),
      <- (filter_length_Permutation (fun a => hit (click a)) _ _ Hperm),
      <- (filter_length_Permutation (fun a => negb (hit (click a))) _ _ Hperm).
    repeat split.
    + symmetry. apply hits_and_misses.
    + destruct (getSessionAttempts coll sid (Some r)) as [|a rest];
        [congruence | reflexivity].
Qed.

(** C2 (amended). In the aggregates of a round the reaction time and the
    inter-tap interval are taken over all the attempts; the movement time
    and every spatial, kinematic and Fitts feature are taken over the hits
    only. *)
Theorem round_features_subsets (coll : list Bucket) (sid : string) (r : Z)
    (rf : RoundFeatures) :
  computeRoundFeatures coll sid r = Some rf ->
  let attempts := getSessionAttempts coll sid (Some r) in
  let hits := List.filter (fun a => hit (click a)) attempts in
  (reactionTime_mean rf
     = mean (valuesOver attempts (fun a => reactionTimeMs (timing a)))
   /\ reactionTime_std rf
      = std (valuesOver attempts (fun a => reactionTimeMs (timing a)))
   /\ reactionTime_median rf
      = median (valuesOver attempts (fun a => reactionTimeMs (timing a)))
   /\ interTapTime_mean rf
      = mean (valuesOver attempts (fun a => interTapMs (timing a)))
   /\ interTapTime_std rf
      = std (valuesOver attempts (fun a => interTapMs (timing a))))
  /\ (movementTime_mean rf
        = mean (valuesOver hits (fun a => movementTimeMs (timing a)))
      /\ movementTime_std rf
         = std (valuesOver hits (fun a => movementTimeMs (timing a)))
      /\ movementTime_median rf
         = median (valuesOver hits (fun a => movementTimeMs (timing a))))
  /\ (errorDist_mean rf
        = mean (valuesOver hits (fun a => errorDistNorm (spatial a)))
      /\ errorDist_std rf
         = std (valuesOver hits (fun a => errorDistNorm (spatial a)))
      /\ pathLength_mean rf
         = mean (valuesOver hits (fun a => pathLengthNorm (spatial a)))
      /\ straightness_mean rf
         = mean (valuesOver hits (fun a => straightness (spatial a)))
      /\ straightness_std rf
         = std (valuesOver hits (fun a => straightness (spatial a))))
  /\ (meanSpeed_mean rf
        = mean (valuesOver hits (fun a => meanSpeed (kinematics a)))
      /\ peakSpeed_mean rf
         = mean (valuesOver hits (fun a => peakSpeed (kinematics a)))
      /\ jerkRMS_mean rf
         = mean (valuesOver hits (fun a => jerkRMS (kinematics a)))
      /\ jerkRMS_std rf
         = std (valuesOver hits (fun a => jerkRMS (kinematics a)))
      /\ submovementCount_mean rf
         = mean (valuesOver hits (fun a => submovementCount (kinematics a)))
      /\ submovementCount_std rf
         = std (valuesOver hits (fun a => submovementCount (kinematics a)))
      /\ overshootCount_mean rf
         = mean (valuesOver hits (fun a => overshootCount (kinematics a)))
      /\ overshootCount_std rf
         = std (valuesOver hits (fun a => overshootCount (kinematics a))))
  /\ (throughput_mean rf
        = mean (valuesOver hits (fun a => throughput (fitts a)))
      /\ throughput_std rf
         = std (valuesOver hits (fun a => throughput (fitts a)))
      /\ ID_mean rf = mean (valuesOver hits (fun a => ID (fitts a)))).
Proof.
  intros Hrf attempts hits. apply computeRoundFeatures_some in Hrf.
  destruct Hrf as [-> _]. repeat split.
Qed.

(** The movement time and the spatial, kinematic and Fitts aggregates do
    not see the misses: they are those of the hits alone. *)
Lemma misses_do_not_move_hit_features (attempts : list Attempt) :
  let all := aggregate attempts in
  let onlyHits := aggregate (List.filter (fun a => hit (click a)) attempts) in
  movementTime_mean all = movementTime_mean onlyHits
  /\ movementTime_median all = movementTime_median onlyHits
  /\ errorDist_mean all = errorDist_mean onlyHits
  /\ straightness_mean all = straightness_mean onlyHits
  /\ jerkRMS_mean all = jerkRMS_mean onlyHits
  /\ overshootCount_mean all = overshootCount_mean onlyHits
  /\ throughput_mean all = throughput_mean onlyHits
  /\ ID_mean all = ID_mean onlyHits.
Proof.
  intros all onlyHits. unfold all, onlyHits, aggregate.
  cbn [movementTime_mean movementTime_median errorDist_mean straightness_mean
       jerkRMS_mean overshootCount_mean throughput_mean ID_mean].
  assert (Hidem : List.filter (fun a => hit (click a))
                    (List.filter (fun a => hit (click a)) attempts)
                  = List.filter (fun a => hit (click a)) attempts).
  { induction attempts as [|a attempts IH]; [reflexivity|].
    simpl. destruct (hit (click a)) eqn:Hhit; [|exact IH].
    simpl. rewrite Hhit, IH. reflexivity. }
  rewrite Hidem. repeat split.
Qed.

End Claims.

Section Scenarios.

#[local] Existing Instance ScenarioMath.

(** C2 as stated, for the movement time: the only attempt of the round is
    a miss with a movement time of 100 ms; over all the attempts the mean
    is 100, and the round reports null. *)
Lemma movement_time_skips_misses :
  exists rf : RoundFeatures,
    computeRoundFeatures loneMiss "s1" 1 = Some rf
    /\ movementTime_mean rf = None
    /\ mean (valuesOver (getSessionAttempts loneMiss "s1" (Some 1%Z))
                        (fun a => movementTimeMs (timing a)))
       = Some 100%float.
Proof. eexists. split; [vm_compute; reflexivity|]. split; vm_compute; reflexivity. Qed.

Lemma round_features_subsets_witness :
  exists rf : RoundFeatures,
    computeRoundFeatures sixOfTen "s1" 1 = Some rf
    /\ movementTime_mean rf
       = mean (valuesOver
                 (List.filter (fun a => hit (click a))
                              (getSessionAttempts sixOfTen "s1" (Some 1%Z)))
                 (fun a => movementTimeMs (timing a)))
    /\ movementTime_mean rf = Some 300%float
    /\ reactionTime_mean rf = Some 400%float.
Proof.
  destruct (computeRoundFeatures sixOfTen "s1" 1) as [rf|] eqn:Hrf;
    [|vm_compute in Hrf; discriminate Hrf].
  exists rf. split; [reflexivity|].
  destruct (round_features_subsets sixOfTen "s1" 1 rf Hrf)
    as (_ & (Hmove & _) & _).
  split; [exact Hmove|].
  vm_compute in Hrf. injection Hrf as <-. split; reflexivity.
Defined.

(** Scenario B: 10 attempts, 6 hits and 4 misses, whatever the other
    sessions hold; a session without bucket has no features. *)
Lemma round_counts_witness :
  (exists rf : RoundFeatures,
     computeRoundFeatures StoreScenario.sixOfTenAndOthers "s1" 1 = Some rf
     /\ nAttempts rf = nHits rf + nMisses rf
     /\ hitRate rf = (nat2float (nHits rf) / nat2float (nAttempts rf))%float
     /\ MotorController.countsOf rf = MotorController.mkCounts 10 6 4 0.6%float)
  /\ computeRoundFeatures StoreScenario.sixOfTenAndOthers "ghost" 1 = None.
Proof.
  split.
  - destruct (computeRoundFeatures StoreScenario.sixOfTenAndOthers "s1" 1)
      as [rf|] eqn:Hrf; [|vm_compute in Hrf; discriminate Hrf].
    exists rf. split; [reflexivity|].
    destruct (round_counts StoreScenario.sixOfTenAndOthers "s1" 1)
      as [_ Hcounts].
    destruct (Hcounts rf Hrf) as (Hall & Hhits & Hmisses & Hsum & Hrate).
    split; [exact Hsum|]. split; [exact Hrate|].
    destruct rf. unfold MotorController.countsOf.
    cbn [nAttempts nHits nMisses hitRate] in *.
    rewrite Hrate, Hall, Hhits, Hmisses. vm_compute. reflexivity.
  - apply (round_counts StoreScenario.sixOfTenAndOthers "ghost" 1).
    reflexivity.
Defined.

(** Scenario D: a round without attempts has no features. *)
Example empty_round_is_null : computeRoundFeatures sixOfTen "s1" 2 = None.
Proof. reflexivity. Qed.

End Scenarios.

End SummaryClaims.

Module SessionClaims.

Import MotorAttemptBucket MotorSummary Spec Scenario SummaryClaims.

(** The keys of the three rounds, spelled out. *)
Lemma roundKey_spelled (key : string) :
  roundKey 1 key = ("r1_" ++ key)%string
  /\ roundKey 2 key = ("r2_" ++ key)%string
  /\ roundKey 3 key = ("r3_" ++ key)%string.
Proof. repeat split. Qed.

Lemma roundKey_initial (r : nat) (key : string) :
  exists rest : string, roundKey r key = ("r" ++ rest)%string.
Proof. eexists. reflexivity. Qed.

(** Copying a round only writes keys of that round. *)
Lemma copyRound_other (r : nat) (rf : RoundFeatures)
    (allFeatures : gmap string (option float)) (key : string) :
  (forall k : string, roundKey r k <> key) ->
  copyRound r rf allFeatures !! key = allFeatures !! key.
Proof.
  intros Hother. unfold copyRound. generalize (entries rf) as kvs.
  intros kvs. revert allFeatures.
  induction kvs as [|kv kvs IH]; intros allFeatures; [reflexivity|].
  simpl. rewrite IH. apply lookup_insert_ne. apply Hother.
Qed.

Lemma setTrend_other (name : string) (arr : list float)
    (allFeatures : gmap string (option float)) (key : string) :
  name <> key ->
  setTrend name arr allFeatures !! key = allFeatures !! key.
Proof.
  intros Hother. unfold setTrend.
  destruct (trend arr); [apply lookup_insert_ne; exact Hother | reflexivity].
Qed.

Lemma setTrend_same (name : string) (arr : list float)
    (allFeatures : gmap string (option float)) :
  allFeatures !! name = None ->
  setTrend name arr allFeatures !! name = option_map Some (trend arr).
Proof.
  intros Hfresh. unfold setTrend.
  destruct (trend arr); [apply lookup_insert_eq | exact Hfresh].
Qed.

Lemma copyRounds_other (f1 f2 f3 : option RoundFeatures) (key : string) :
  (forall (r : nat) (k : string), roundKey r k <> key) ->
  copyRounds f1 f2 f3 !! key = None.
Proof.
  intros Hother. unfold copyRounds. cbn [fold_left nth Nat.sub].
  destruct f1, f2, f3; rewrite ?copyRound_other by apply Hother;
    apply lookup_empty.
Qed.

(** A round without features leaves no key of its own. *)
Lemma copyRounds_absent (f1 f2 f3 : option RoundFeatures) (r : nat)
    (key : string) :
  r ∈ [1; 2; 3] ->
  nth (r - 1) [f1; f2; f3] None = None ->
  copyRounds f1 f2 f3 !! roundKey r key = None.
Proof.
  intros Hr Habsent. unfold copyRounds. cbn [fold_left nth Nat.sub].
  assert (Hcases : r = 1 \/ r = 2 \/ r = 3).
  { rewrite !elem_of_cons in Hr. rewrite elem_of_nil in Hr. tauto. }
  destruct Hcases as [-> | [-> | ->]]; cbn [nth Nat.sub] in Habsent; subst;
    repeat match goal with
           | |- context [match ?o with Some _ => _ | None => _ end] => destruct o
           end;
    rewrite ?copyRound_other by (intros k; discriminate);
    apply lookup_empty.
Qed.

Section Claims.

Context {M : MathLib}.

(** The trend over the three rounds, by the rounds that have a value. *)
Lemma trend_trendOver (v1 v2 v3 : option float) :
  trend (nonNull [v1; v2; v3]) = trendOver v1 v2 v3.
Proof. destruct v1, v2, v3; reflexivity. Qed.

Lemma trendOver_available (v1 v2 v3 : option float) :
  is_Some (option_map Some (trendOver v1 v2 v3))
  <-> 2 <= available [v1; v2; v3].
Proof.
  destruct v1, v2, v3; cbn; split; intros Hyp;
    solve [lia | eexists; reflexivity | destruct Hyp; discriminate].
Qed.

(** A round has features exactly when its buckets hold an attempt. *)
Lemma round_available (coll : list Bucket) (sid : string) (r : Z) :
  computeRoundFeatures coll sid r = None <-> attemptsOfRound coll sid r = [].
Proof.
  pose proof (getSessionAttempts_attemptsOfRound coll sid r) as Hperm.
  unfold computeRoundFeatures.
  destruct (getSessionAttempts coll sid (Some r)) as [|a rest].
  - apply Permutation_nil in Hperm. rewrite Hperm. simpl. tauto.
  - simpl. split; [discriminate|]. intros Hnone. rewrite Hnone in Hperm.
    symmetry in Hperm. apply Permutation_nil in Hperm. discriminate Hperm.
Qed.

(** C7. With, for each of the rounds 1 to 3, the hit rate of the round
    (null when the buckets of the session hold no attempt of the round)
    and its mean throughput (null also when no hit of the round has a
    throughput): the session map holds [hitRate_trend] exactly when two
    or more rounds have a hit rate, [throughput_trend] exactly when two
    or more rounds have a mean throughput, and each is then the value of
    the last round that has one minus the value of the first round that
    has one. A round without attempts leaves no key under its [r{n}_]
    prefix. *)
Theorem session_trends (coll : list Bucket) (sid : string) :
  let hitRateOf (r : Z) := option_map hitRate (computeRoundFeatures coll sid r) in
  let throughputOf (r : Z) : option float :=
    computeRoundFeatures coll sid r ≫= throughput_mean in
  let allFeatures := computeSessionFeatures coll sid in
  (forall r : Z, hitRateOf r = None <-> attemptsOfRound coll sid r = [])
  /\ (forall r : Z, attemptsOfRound coll sid r = [] -> throughputOf r = None)
  /\ allFeatures !! "hitRate_trend"
     = option_map Some (trendOver (hitRateOf 1%Z) (hitRateOf 2%Z) (hitRateOf 3%Z))
  /\ allFeatures !! "throughput_trend"
     = option_map Some
         (trendOver (throughputOf 1%Z) (throughputOf 2%Z) (throughputOf 3%Z))
  /\ (is_Some (allFeatures !! "hitRate_trend")
      <-> 2 <= available [hitRateOf 1%Z; hitRateOf 2%Z; hitRateOf 3%Z])
  /\ (is_Some (allFeatures !! "throughput_trend")
      <-> 2 <= available [throughputOf 1%Z; throughputOf 2%Z; throughputOf 3%Z])
  /\ (forall (r : nat) (key : string),
        r ∈ [1; 2; 3] ->
        attemptsOfRound coll sid (Z.of_nat r) = [] ->
        allFeatures !! roundKey r key = None).
Proof.
  intros hitRateOf throughputOf allFeatures.
  assert (Hhit : allFeatures !! "hitRate_trend"
                 = option_map Some
                     (trendOver (hitRateOf 1%Z) (hitRateOf 2%Z) (hitRateOf 3%Z))).
  { unfold allFeatures, computeSessionFeatures.
    rewrite setTrend_other by discriminate.
    rewrite setTrend_same by (apply copyRounds_other; intros r k; discriminate).
    cbn [map]. rewrite trend_trendOver. reflexivity. }
  assert (Hthr : allFeatures !! "throughput_trend"
                 = option_map Some
                     (trendOver (throughputOf 1%Z) (throughputOf 2%Z)
                                (throughputOf 3%Z))).
  { unfold allFeatures, computeSessionFeatures.
    rewrite setTrend_same.
    - cbn [map]. rewrite trend_trendOver. reflexivity.
    - rewrite setTrend_other by discriminate.
      apply copyRounds_other. intros r k. discriminate. }
  split.
  { intros r. rewrite <- round_available. unfold hitRateOf.
    destruct (computeRoundFeatures coll sid r); simpl; split; congruence. }
  split.
  { intros r Hnone. apply round_available in Hnone. unfold throughputOf.
    rewrite Hnone. reflexivity. }
  split; [exact Hhit|]. split; [exact Hthr|].
  split; [rewrite Hhit; apply trendOver_available|].
  split; [rewrite Hthr; apply trendOver_available|].
  intros r key Hr Habsent. apply round_available in Habsent.
  unfold allFeatures, computeSessionFeatures.
  rewrite !setTrend_other by discriminate.
  apply copyRounds_absent; [exact Hr|].
  rewrite !elem_of_cons in Hr. rewrite elem_of_nil in Hr.
  destruct Hr as [-> | [-> | [-> | []]]]; exact Habsent.
Qed.

End Claims.

Section Scenarios.

#[local] Existing Instance ScenarioMath.

(** Scenario E: rounds 1 and 3 only. The hit rates are 0.5 and 0.75, the
    mean throughputs 4 and 6. *)
Lemma session_trends_witness :
  computeSessionFeatures roundsOneAndThree "s1" !! "hitRate_trend"
  = Some (Some (0.75 - 0.5)%float)
  /\ computeSessionFeatures roundsOneAndThree "s1" !! "throughput_trend"
     = Some (Some (6 - 4)%float)
  /\ (forall key : string,
        computeSessionFeatures roundsOneAndThree "s1" !! roundKey 2 key = None).
Proof.
  destruct (session_trends roundsOneAndThree "s1")
    as (_ & _ & Hhit & Hthr & _ & _ & Habsent).
  split; [rewrite Hhit; vm_compute; reflexivity|].
  split; [rewrite Hthr; vm_compute; reflexivity|].
  intros key. apply (Habsent 2 key).
  - rewrite !elem_of_cons. right. left. reflexivity.
  - reflexivity.
Defined.

Example round_three_is_copied :
  computeSessionFeatures roundsOneAndThree "s1" !! "r3_hitRate"
  = Some (Some 0.75%float)
  /\ computeSessionFeatures roundsOneAndThree "s1" !! "r1_hitRate"
     = Some (Some 0.5%float).
Proof. split; vm_compute; reflexivity. Qed.

End Scenarios.

End SessionClaims.

Module TraceStoreProperties.

Import Mongoose ChunkedStore Spec MongooseFacts ChunkedStoreFacts ChunkedAppend
  StoreProperties MotorPointerTraceBucket Scenario StoreScenario.

Section Store.

Context {wording : Wording Bucket}.


(** X2. A successful [addSamples] changes what no other session reads,
    whole or by round. *)
Theorem addSamples_leaves_other_sessions (cap : nat) (sessions : gset string)
    (coll coll' : list Bucket) (sid : string) (uid : option string)
    (samplesArray : list Schema.Sample) (bucket : Bucket) :
  1 <= cap ->
  traceReachable cap coll ->
  addSamplesWith cap sessions coll sid uid samplesArray = (coll', Ok bucket) ->
  forall (other : string) (r : option Z),
    other <> sid ->
    getSessionSamples coll' other r = getSessionSamples coll other r.
Proof.
  intros Hcap Hreach Hok other r Hother.
  pose proof (traceReachable_wellFormed cap coll Hcap Hreach) as Hwf.
  destruct (addSamples_outcome cap sessions coll sid uid samplesArray coll'
              (Ok bucket) Hcap Hwf Hok) as (_ & Hothers & _).
  apply getSessionSamples_same. apply Hothers. exact Hother.
Qed.




End Store.

(** X4. Asking a session's samples by round gives the samples of that
    round out of the whole stream, in the same order; so does asking a
    time range by round. *)
Theorem samples_by_round_filter_the_stream (coll : list Bucket) (sid : string)
    (r startTms endTms : Z) :
  getSessionSamples coll sid (Some r)
  = List.filter (fun s => (Schema.round s =? r)%Z)
                (getSessionSamples coll sid None)
  /\ getSamplesInRange coll sid startTms endTms (Some r)
     = List.filter (fun s => (Schema.round s =? r)%Z)
                   (getSamplesInRange coll sid startTms endTms None).
Proof.
  split; [apply getSessionSamples_round|].
  unfold getSamplesInRange. rewrite getSessionSamples_round.
  generalize (getSessionSamples coll sid None) as l. intros l.
  induction l as [|s l IH]; [reflexivity|].
  simpl.
  destruct (Schema.round s =? r)%Z eqn:Hr,
    ((startTms <=? Schema.tms s)%Z && (Schema.tms s <=? endTms)%Z) eqn:Hw;
    simpl; rewrite ?Hr, ?Hw, ?IH; reflexivity.
Qed.

#[local] Existing Instance traceWording.

Lemma fiveStored_reachable : traceReachable 2 fiveStored.
Proof.
  eapply (trace_added 2 {[ "s1"%string ]} [] "s1" None fiveSamples);
    [apply trace_empty | apply surjective_pairing].
Qed.





Lemma addSamples_leaves_other_sessions_witness :
  exists (coll' : list Bucket) (bucket : Bucket),
    addSamplesWith 2 twoSessions fiveStored "s2" None threeSamples
    = (coll', Ok bucket)
    /\ getSessionSamples coll' "s1" None = fiveSamples
    /\ getSessionSamples coll' "s1" (Some 1%Z) = fiveSamples.
Proof.
  destruct (addSamplesWith 2 twoSessions fiveStored "s2" None threeSamples)
    as [coll' [bucket|e]] eqn:Hok; [|vm_compute in Hok; discriminate Hok].
  exists coll', bucket. split; [reflexivity|].
  split.
  - rewrite (addSamples_leaves_other_sessions 2 twoSessions fiveStored coll'
               "s2" None threeSamples bucket ltac:(lia) fiveStored_reachable
               Hok "s1" None ltac:(discriminate)).
    vm_compute. reflexivity.
  - rewrite (addSamples_leaves_other_sessions 2 twoSessions fiveStored coll'
               "s2" None threeSamples bucket ltac:(lia) fiveStored_reachable
               Hok "s1" (Some 1%Z) ltac:(discriminate)).
    vm_compute. reflexivity.
Defined.




End TraceStoreProperties.

Module AttemptStoreProperties.

Import Mongoose ChunkedStore Spec MongooseFacts ChunkedStoreFacts ChunkedAppend
  StoreProperties MotorAttemptBucket Scenario StoreScenario.

Lemma filter_filter {A : Type} (p q : A -> bool) (l : list A) :
  List.filter p (List.filter q l) = List.filter (fun a => q a && p a) l.
Proof.
  induction l as [|a l IH]; [reflexivity|].
  simpl. destruct (q a); simpl; [destruct (p a)|]; rewrite IH; reflexivity.
Qed.

Lemma filter_In_length {A : Type} (p : A -> bool) (l : list A) (a : A) :
  In a l -> p a = true -> 1 <= length (List.filter p l).
Proof.
  intros Hin Hp.
  assert (Hf : In a (List.filter p l)) by (apply List.filter_In; split; assumption).
  destruct (List.filter p l); [destruct Hf | simpl; lia].
Qed.

Section Store.

Context {M : MathLib} {wording : Wording Bucket}.



(** X7. Enrichment gives one attempt for each one submitted, in the same
    order, and leaves its round, identifiers, spawn time, target and click
    as submitted, whatever the stored trace holds. *)
Theorem enrich_keeps_what_was_submitted (allSamples : list Schema.Sample)
    (attemptsArray : list Attempt) :
  let enriched := enrich allSamples attemptsArray in
  length enriched = length attemptsArray
  /\ map round enriched = map round attemptsArray
  /\ map attemptId enriched = map attemptId attemptsArray
  /\ map bubbleId enriched = map bubbleId attemptsArray
  /\ map spawnTms enriched = map spawnTms attemptsArray
  /\ map target enriched = map target attemptsArray
  /\ map click enriched = map click attemptsArray.
Proof.
  cbv zeta. unfold enrich.
  split; [apply enrichFrom_length|].
  repeat split; apply enrichFrom_map; reflexivity.
Qed.

(** X8. Once a batch holding an attempt of round [r] is logged on a
    collection built by appends, the features of round [r] exist; their
    attempt count is the count read before plus the submitted attempts of
    round [r], and their hit count likewise, by the [hit] flags as
    submitted. *)
Theorem round_counts_after_addAttempts (cap : nat) (sessions : gset string)
    (traces : list MotorPointerTraceBucket.Bucket) (coll coll' : list Bucket)
    (sid : string) (uid : option string) (attemptsArray : list Attempt)
    (bucket : Bucket) (r : Z) (a : Attempt) :
  1 <= cap ->
  attemptReachable cap coll ->
  addAttemptsWith cap sessions traces coll sid uid attemptsArray
  = (coll', Ok bucket) ->
  In a attemptsArray ->
  round a = r ->
  exists rf : MotorSummary.RoundFeatures,
    MotorSummary.computeRoundFeatures coll' sid r = Some rf
    /\ MotorSummary.nAttempts rf
       = length (getSessionAttempts coll sid (Some r))
         + length (List.filter (fun a => (round a =? r)%Z) attemptsArray)
    /\ MotorSummary.nHits rf
       = length (List.filter (fun a => hit (click a))
                             (getSessionAttempts coll sid (Some r)))
         + length (List.filter (fun a => (round a =? r)%Z && hit (click a))
                               attemptsArray).
Proof.
  intros Hcap Hreach Hok Ha Hr.
  pose proof (attemptReachable_wellFormed cap coll Hcap Hreach) as Hwf.
  destruct (addAttempts_outcome cap sessions traces coll sid uid attemptsArray
              coll' (Ok bucket) Hcap Hwf Hok)
    as (Hwf' & _ & _ & _ & _ & _ & Hstored & _).
  set (allSamples := MotorPointerTraceBucket.getSessionSamples traces sid None)
    in *.
  assert (Hread : getSessionAttempts coll' sid (Some r)
                  = getSessionAttempts coll sid (Some r)
                    ++ List.filter (fun a => (round a =? r)%Z)
                                   (enrich allSamples attemptsArray)).
  { rewrite !getSessionAttempts_round,
      (getSessionAttempts_stored cap coll' sid Hwf'),
      (getSessionAttempts_stored cap coll sid Hwf), Hstored.
    apply List.filter_app. }
  assert (Hround : length (List.filter (fun a => (round a =? r)%Z)
                                       (enrich allSamples attemptsArray))
                   = length (List.filter (fun a => (round a =? r)%Z)
                                         attemptsArray)).
  { apply (enrichFrom_filter_length (fun a => (round a =? r)%Z)). reflexivity. }
  assert (Hone : 1 <= length (List.filter (fun a => (round a =? r)%Z)
                                          attemptsArray)).
  { apply (filter_In_length _ _ a Ha). apply Z.eqb_eq. exact Hr. }
  unfold MotorSummary.computeRoundFeatures. rewrite Hread.
  destruct (Nat.eqb_spec
              (length (getSessionAttempts coll sid (Some r)
                       ++ List.filter (fun a => (round a =? r)%Z)
                                      (enrich allSamples attemptsArray))) 0)
    as [Hzero | _].
  { rewrite length_app, Hround in Hzero. lia. }
  eexists. split; [reflexivity|].
  cbn [MotorSummary.aggregate MotorSummary.nAttempts MotorSummary.nHits].
  split; [rewrite length_app, Hround; reflexivity|].
  rewrite List.filter_app, length_app, filter_filter.
  f_equal.
  apply (enrichFrom_filter_length (fun a => (round a =? r)%Z && hit (click a))).
  reflexivity.
Qed.


End Store.

Section Scenarios.

#[local] Existing Instance ScenarioMath.
#[local] Existing Instance attemptWording.

Lemma threeStored_reachable : attemptReachable 2 threeStored.
Proof.
  eapply (attempt_added 2 {[ "s1"%string ]} [] [] "s1" None threeAttempts);
    [apply attempt_empty | apply surjective_pairing].
Qed.





Lemma round_counts_after_addAttempts_witness :
  exists (coll' : list Bucket) (bucket : Bucket)
         (rf : MotorSummary.RoundFeatures),
    addAttemptsWith 2 twoSessions [] threeStored "s1" None
                    [ aHit 1 4; aMiss 2 ]%float
    = (coll', Ok bucket)
    /\ MotorSummary.computeRoundFeatures coll' "s1" 1 = Some rf
    /\ MotorSummary.nAttempts rf = 3
    /\ MotorSummary.nHits rf = 2.
Proof.
  destruct (addAttemptsWith 2 twoSessions [] threeStored "s1" None
                            [ aHit 1 4; aMiss 2 ]%float)
    as [coll' [bucket|e]] eqn:Hok; [|vm_compute in Hok; discriminate Hok].
  destruct (round_counts_after_addAttempts 2 twoSessions [] threeStored coll'
              "s1" None [ aHit 1 4; aMiss 2 ]%float bucket 1 (aHit 1 4)
              ltac:(lia) threeStored_reachable Hok
              ltac:(left; reflexivity) eq_refl)
    as (rf & Hrf & Hn & Hh).
  exists coll', bucket, rf.
  split; [reflexivity|]. split; [exact Hrf|].
  split; [rewrite Hn | rewrite Hh]; reflexivity.
Defined.

End Scenarios.

End AttemptStoreProperties.

Module AttemptStatsProperties.

Import Mongoose StoreProperties MotorAttemptBucket AttemptStats Scenario
  StoreScenario.

Lemma filter_split_length {A : Type} (p : A -> bool) (l : list A) :
  length l = length (List.filter p l) + length (List.filter (fun a => negb (p a)) l).
Proof.
  induction l as [|a l IH]; [reflexivity|].
  simpl. destruct (p a); simpl; lia.
Qed.

(** The three entries of [stats.rounds]. *)
Lemma rounds_lookup (coll : list Bucket) (sid : string) (r : Z) (key : string) :
  In (r, key) [ (1%Z, "1"%string); (2%Z, "2"%string); (3%Z, "3"%string) ] ->
  rounds (getSessionStats coll sid) !! key
  = Some (roundStats (getSessionAttempts coll sid (Some r))).
Proof.
  intros Hin. rewrite getSessionAttempts_round.
  unfold getSessionStats, byRound. cbn [rounds fold_left fst snd].
  destruct Hin as [Heq | [Heq | [Heq | []]]]; injection Heq as <- <-.
  - rewrite lookup_insert_ne by discriminate.
    rewrite lookup_insert_ne by discriminate.
    apply lookup_insert_eq.
  - rewrite lookup_insert_ne by discriminate.
    apply lookup_insert_eq.
  - apply lookup_insert_eq.
Qed.

Section Stats.

Context {M : MathLib}.

(** X9. For each of the rounds 1, 2 and 3, [getSessionStats] and
    [computeRoundFeatures] count alike: where the round has features, the
    statistics give the same attempts, hits, misses and hit rate; where it
    has none, the statistics give zeros and null averages. *)
Theorem stats_agree_with_round_features (coll : list Bucket) (sid : string) :
  List.Forall
    (fun rk : Z * string =>
       exists rs : RoundStats,
         rounds (getSessionStats coll sid) !! snd rk = Some rs
         /\ match MotorSummary.computeRoundFeatures coll sid (fst rk) with
            | Some rf =>
                totalAttempts rs = MotorSummary.nAttempts rf
                /\ hits rs = MotorSummary.nHits rf
                /\ misses rs = MotorSummary.nMisses rf
                /\ hitRate rs = MotorSummary.hitRate rf
            | None =>
                totalAttempts rs = 0 /\ hits rs = 0 /\ misses rs = 0
                /\ hitRate rs = 0%float
                /\ avgReactionTime rs = None /\ avgMovementTime rs = None
                /\ avgThroughput rs = None
            end)
    [ (1%Z, "1"%string); (2%Z, "2"%string); (3%Z, "3"%string) ].
Proof.
  apply List.Forall_forall. intros [r key] Hin. cbn [fst snd].
  exists (roundStats (getSessionAttempts coll sid (Some r))).
  split; [apply rounds_lookup; exact Hin|].
  unfold MotorSummary.computeRoundFeatures.
  destruct (getSessionAttempts coll sid (Some r)) as [|a l] eqn:Hread.
  - repeat split.
  - cbn [length Nat.eqb].
    cbn [MotorSummary.aggregate MotorSummary.nAttempts MotorSummary.nHits
         MotorSummary.nMisses MotorSummary.hitRate roundStats totalAttempts
         hits misses hitRate].
    split; [reflexivity|]. split; [reflexivity|]. split; [|reflexivity].
    rewrite (filter_split_length (fun a => hit (click a)) (a :: l)) at 1.
    lia.
Qed.

End Stats.

(** X10. In the statistics of a session every round has as many hits and
    misses together as attempts, and [total] is the attempts of the rounds
    1, 2 and 3 together with the stored attempts of any other round. *)
Theorem stats_totals_add_up (coll : list Bucket) (sid : string) :
  exists r1 r2 r3 : RoundStats,
    rounds (getSessionStats coll sid) !! "1"%string = Some r1
    /\ rounds (getSessionStats coll sid) !! "2"%string = Some r2
    /\ rounds (getSessionStats coll sid) !! "3"%string = Some r3
    /\ hits r1 + misses r1 = totalAttempts r1
    /\ hits r2 + misses r2 = totalAttempts r2
    /\ hits r3 + misses r3 = totalAttempts r3
    /\ total (getSessionStats coll sid)
       = totalAttempts r1 + totalAttempts r2 + totalAttempts r3
         + length (List.filter
                     (fun a => negb (round a =? 1)%Z && negb (round a =? 2)%Z
                               && negb (round a =? 3)%Z)
                     (getSessionAttempts coll sid None)).
Proof.
  assert (Hsum : forall l : list Attempt,
            length (List.filter (fun a => hit (click a)) l)
            + (length l - length (List.filter (fun a => hit (click a)) l))
            = length l).
  { intros l. pose proof (filter_split_length (fun a => hit (click a)) l) as Hl.
    cbv beta in Hl.
    set (h := length (List.filter (fun a => hit (click a)) l)) in *.
    lia. }
  exists (roundStats (getSessionAttempts coll sid (Some 1%Z))),
         (roundStats (getSessionAttempts coll sid (Some 2%Z))),
         (roundStats (getSessionAttempts coll sid (Some 3%Z))).
  split; [apply (rounds_lookup coll sid 1); left; reflexivity|].
  split; [apply (rounds_lookup coll sid 2); right; left; reflexivity|].
  split; [apply (rounds_lookup coll sid 3); right; right; left; reflexivity|].
  cbn [roundStats totalAttempts hits misses].
  split; [apply Hsum|]. split; [apply Hsum|]. split; [apply Hsum|].
  rewrite !getSessionAttempts_round.
  cbn [getSessionStats total].
  generalize (getSessionAttempts coll sid None) as l. intros l.
  induction l as [|a l IH]; [reflexivity|].
  cbn [List.filter length].
  destruct (Z.eqb_spec (round a) 1) as [H1|H1];
    destruct (Z.eqb_spec (round a) 2) as [H2|H2];
    destruct (Z.eqb_spec (round a) 3) as [H3|H3];
    cbn [negb andb length]; try lia.
Qed.

End AttemptStatsProperties.

Module ExtractorProperties.

Import FeatureExtraction Spec ExtractorFacts ExtractorShape ExtractorClaims
  Scenario StoreScenario.

Lemma countLoop_le (idx : list nat) (hit : nat -> bool) :
  countLoop idx hit <= length idx.
Proof.
  induction idx as [|i idx IH]; [unfold countLoop; simpl; lia|].
  rewrite countLoop_cons. simpl. destruct (hit i); lia.
Qed.

Lemma range_length (lo hi : nat) : length (range lo hi) = hi - lo.
Proof. unfold range. apply length_seq. Qed.

(** A loop that adds at most one at each turn. *)
Lemma forM_le (idx : list nat) (body : nat -> nat -> result nat) :
  (forall i n r, body i n = Ok r -> r <= S n) ->
  forall n r, forM idx body n = Ok r -> r <= n + length idx.
Proof.
  intros Hbody. induction idx as [|i idx IH]; intros n r Hr.
  - simpl in Hr. injection Hr as <-. simpl. lia.
  - simpl in Hr. destruct (body i n) as [m|e] eqn:Hm; [|discriminate Hr].
    cbn [mbind result_bind bind] in Hr.
    apply Hbody in Hm. apply IH in Hr. simpl. lia.
Qed.

Section Properties.

Context {M : MathLib}.

Lemma movingAverage_length (arr : list float) (w : nat) :
  length (movingAverage arr w) = length arr.
Proof.
  unfold movingAverage. destruct (length arr <? w)%nat; [reflexivity|].
  rewrite length_map, length_seq. reflexivity.
Qed.

(** The velocity loop pushes at most once at each turn. *)
Lemma velocityOf_length (t xs ys : list float) (n : nat) :
  length (mag_ (velocityOf t xs ys n)) <= n - 1.
Proof.
  unfold velocityOf.
  assert (Hgen : forall (idx : list nat) (acc : Deriv),
            length (mag_ (fold_left
              (fun (acc : Deriv) (i : nat) =>
                 let dt := (num_at t i - num_at t (i - 1))%float in
                 if (dt <=? 0)%float then acc
                 else
                   let vxi := ((num_at xs i - num_at xs (i - 1)) / dt)%float in
                   let vyi := ((num_at ys i - num_at ys (i - 1)) / dt)%float in
                   push acc vxi vyi (Math_hypot vxi vyi))
              idx acc))
            <= length (mag_ acc) + length idx).
  { induction idx as [|i idx IH]; intros acc; [simpl; lia|].
    cbn [fold_left]. etransitivity; [apply IH|].
    cbv zeta. destruct (_ <=? 0)%float; cbn [length]; [lia|].
    unfold push. cbn [mag_]. rewrite length_app. simpl. lia. }
  etransitivity; [apply Hgen|]. rewrite range_length. simpl. lia.
Qed.

Lemma submovementsOf_le (speed : list float) (peakSpeed : option float) :
  submovementsOf speed peakSpeed <= length speed - 2.
Proof.
  unfold submovementsOf. destruct peakSpeed as [peak|]; [|lia].
  etransitivity; [apply countLoop_le|].
  rewrite range_length, movingAverage_length. lia.
Qed.

Lemma distanceReversals_le (d : list float) (gate : float) :
  distanceReversals d gate <= length d - 2.
Proof.
  unfold distanceReversals. etransitivity; [apply countLoop_le|].
  rewrite range_length. lia.
Qed.

Lemma finalPhaseReversals_le (moveSeg : list Sample) (target : Target) :
  finalPhaseReversals moveSeg target <= length moveSeg - 2.
Proof.
  unfold finalPhaseReversals. destruct (5 <? length moveSeg)%nat; [|lia].
  etransitivity; [apply countLoop_le|].
  rewrite range_length, length_map, length_skipn. lia.
Qed.

Lemma oscillations_le (moveSeg : list Sample) (d : list float) (gate : float)
    (n : nat) :
  oscillations moveSeg d gate = Ok n -> n <= length moveSeg - 3.
Proof.
  unfold oscillations. destruct (4 <? length moveSeg)%nat.
  - intros Hn. apply forM_le in Hn; [rewrite range_length in Hn; lia|].
    clear. intros i n r.
    destruct (num_at d i <? gate)%float; [|intros [= <-]; lia].
    destruct (at_index moveSeg (i - 2)) as [s2|]; [|discriminate].
    destruct (at_index moveSeg (i - 1)) as [s1|]; [|discriminate].
    destruct (at_index moveSeg i) as [s|]; [|discriminate].
    cbn [mbind result_bind bind]. intros [= <-].
    destruct (_ || _); lia.
  - intros [= <-]. lia.
Qed.

(** The extractor never throws, and gives the click-based times whatever
    the samples are. *)
Lemma extract_total (samples : list Sample) (spawnTms clickTms : Z)
    (target : Target) (prevClickTms : option Z) :
  exists f : Features,
    extractAttemptFeatures samples spawnTms clickTms target prevClickTms = Ok f
    /\ reactionTimeMs (timing f) = (clickTms - spawnTms)%Z
    /\ interTapMs (timing f)
       = option_map (fun p => (clickTms - p)%Z) prevClickTms.
Proof.
  destruct (Nat.lt_ge_cases (length (segment samples spawnTms clickTms)) 4)
    as [Hshort | Hlong].
  - eexists. split; [apply extract_minimal; exact Hshort|].
    split; reflexivity.
  - destruct (extract_full samples spawnTms clickTms target prevClickTms Hlong)
      as (mFirst & mLast & pathLength & kin & _ & _ & _ & _ & Hf).
    eexists. split; [exact Hf|]. split; reflexivity.
Qed.

(** X11. Whatever the samples, the extractor returns, with the reaction
    time [clickTms - spawnTms] and the inter-tap time
    [clickTms - prevClickTms], null without a previous click: the samples
    never enter these two times. *)
Theorem extract_always_times_the_click (samples : list Sample)
    (spawnTms clickTms : Z) (target : Target) (prevClickTms : option Z) :
  exists f : Features,
    extractAttemptFeatures samples spawnTms clickTms target prevClickTms = Ok f
    /\ reactionTimeMs (timing f) = (clickTms - spawnTms)%Z
    /\ interTapMs (timing f)
       = match prevClickTms with
         | Some p => Some (clickTms - p)%Z
         | None => None
         end.
Proof.
  destruct (extract_total samples spawnTms clickTms target prevClickTms)
    as (f & Hf & Hr & Hi).
  exists f. split; [exact Hf|]. split; [exact Hr|].
  rewrite Hi. destruct prevClickTms; reflexivity.
Qed.

(** Samples outside the window do not pass the filter of step 1. *)
Lemma segment_outside (out : list Sample) (spawnTms clickTms : Z) :
  List.Forall (fun s => (tms s < spawnTms \/ clickTms < tms s)%Z) out ->
  segment out spawnTms clickTms = [].
Proof.
  unfold segment. induction 1 as [|s out Hs _ IH]; [reflexivity|].
  cbn [List.filter].
  replace ((spawnTms <=? tms s)%Z && (tms s <=? clickTms)%Z) with false;
    [exact IH|].
  symmetry. apply andb_false_iff.
  destruct Hs as [Hearly | Hlate]; [left; apply Z.leb_gt | right; apply Z.leb_gt];
    assumption.
Qed.

(** X12. Samples outside [[spawnTms, clickTms]] never change what the
    extractor returns: a trace gives the same result with or without
    samples timed before the spawn or after the click, wherever they sit
    in it. *)
Theorem samples_outside_window_are_ignored (before out after : list Sample)
    (spawnTms clickTms : Z) (target : Target) (prevClickTms : option Z) :
  List.Forall (fun s => (tms s < spawnTms \/ clickTms < tms s)%Z) out ->
  extractAttemptFeatures (before ++ out ++ after) spawnTms clickTms target
                         prevClickTms
  = extractAttemptFeatures (before ++ after) spawnTms clickTms target
                           prevClickTms.
Proof.
  intros Hout.
  assert (Hseg : segment (before ++ out ++ after) spawnTms clickTms
                 = segment (before ++ after) spawnTms clickTms).
  { pose proof (segment_outside out spawnTms clickTms Hout) as Hnone.
    unfold segment in *. rewrite !List.filter_app, Hnone. reflexivity. }
  unfold extractAttemptFeatures. rewrite Hseg. reflexivity.
Qed.

(** The kinematic counts of the full path. *)
Lemma extract_counts (samples : list Sample) (spawnTms clickTms : Z)
    (target : Target) (prevClickTms : option Z) (f : Features) :
  4 <= length (segment samples spawnTms clickTms) ->
  extractAttemptFeatures samples spawnTms clickTms target prevClickTms = Ok f ->
  let moveSeg := movingSegment samples spawnTms clickTms in
  exists (speed : list float) (peak : option float) (osc : nat),
    length speed <= length moveSeg - 1
    /\ oscillations moveSeg (map (fun s => dist s target) moveSeg)
                    (4 * radius target)%float = Ok osc
    /\ submovementCount (kinematics f) = Some (submovementsOf speed peak)
    /\ overshootCount (kinematics f)
       = Some (max3 (distanceReversals (map (fun s => dist s target) moveSeg)
                                       (4 * radius target)%float)
                    (finalPhaseReversals moveSeg target) osc).
Proof.
  intros Hlen Hf moveSeg.
  pose proof (movingSegment_length samples spawnTms clickTms Hlen) as Hms.
  fold moveSeg in Hms.
  destruct (segment samples spawnTms clickTms) as [|s0 rest] eqn:Hseg;
    [simpl in Hlen; lia|].
  assert (HmsEq : moveSeg
                  = skipn (scanStart (mkPoint (x s0) (y s0)) rest 1) (s0 :: rest)).
  { unfold moveSeg, movingSegment. rewrite Hseg. reflexivity. }
  destruct (pathLengthOf_total moveSeg) as [pathLength Hpath].
  unfold extractAttemptFeatures in Hf. rewrite Hseg in Hf.
  replace (length (s0 :: rest) <? 4)%nat with false in Hf
    by (symmetry; apply Nat.ltb_ge; exact Hlen).
  change (at_index (s0 :: rest) 0) with (Ok s0) in Hf.
  cbn [mbind result_bind bind] in Hf.
  change (skipn 1 (s0 :: rest)) with rest in Hf.
  rewrite <- HmsEq in Hf.
  rewrite (at_index_lt moveSeg 0 s0), (at_index_lt moveSeg _ s0) in Hf by lia.
  cbn [mbind result_bind bind] in Hf.
  rewrite Hpath in Hf. cbn [mbind result_bind bind] in Hf.
  rewrite oscillations_spec in Hf. cbn [mbind result_bind bind] in Hf.
  injection Hf as <-.
  eexists _, _, _.
  split; [apply velocityOf_length|].
  split; [apply oscillations_spec|].
  split; reflexivity.
Qed.

(** X13. The two counts the extractor returns are bounded by the moving
    segment: when either is given, the [n] samples from the movement start
    to the click are two or more; the overshoots [c] leave two samples
    over, [c + 2 <= n]; the submovements are none when [n < 3] and leave
    three samples over otherwise, [c + 3 <= n]. *)
Theorem counts_bounded_by_moving_segment (samples : list Sample)
    (spawnTms clickTms : Z) (target : Target) (prevClickTms : option Z)
    (f : Features) :
  extractAttemptFeatures samples spawnTms clickTms target prevClickTms = Ok f ->
  let n := length (movingSegment samples spawnTms clickTms) in
  (forall c, submovementCount (kinematics f) = Some c ->
             2 <= n /\ (c = 0 \/ c + 3 <= n))
  /\ (forall c, overshootCount (kinematics f) = Some c ->
                2 <= n /\ c + 2 <= n).
Proof.
  intros Hf n.
  destruct (Nat.lt_ge_cases (length (segment samples spawnTms clickTms)) 4)
    as [Hshort | Hlong].
  - rewrite (extract_minimal samples spawnTms clickTms target prevClickTms Hshort)
      in Hf.
    injection Hf as <-. split; intros c Hc; discriminate Hc.
  - pose proof (movingSegment_length samples spawnTms clickTms Hlong) as Htwo.
    fold n in Htwo.
    destruct (extract_counts samples spawnTms clickTms target prevClickTms f
                Hlong Hf) as (speed & peak & osc & Hspeed & Hosc & Hsub & Hover).
    fold n in Hspeed.
    split; intros c Hc; (split; [exact Htwo|]).
    + rewrite Hsub in Hc. injection Hc as <-.
      pose proof (submovementsOf_le speed peak). lia.
    + rewrite Hover in Hc. injection Hc as <-.
      pose proof (distanceReversals_le
                    (map (fun s => dist s target)
                         (movingSegment samples spawnTms clickTms))
                    (4 * radius target)%float) as H1.
      rewrite length_map in H1.
      pose proof (finalPhaseReversals_le
                    (movingSegment samples spawnTms clickTms) target) as H2.
      pose proof (oscillations_le _ _ _ _ Hosc) as H3.
      fold n in H1, H2, H3. unfold max3. lia.
Qed.

(** The start scan, from any index. *)
Lemma scanStart_first (p0 : Point) (rest : list Sample) (i : nat) (dflt : Sample) :
  1 <= i ->
  let k := scanStart p0 rest i in
  (k = 0 /\ forall j, j < length rest ->
              (EPS <? dist (mkPoint (x (nth j rest dflt)) (y (nth j rest dflt)))
                           p0)%float = false)
  \/ (i - 1 <= k /\ k - (i - 1) < length rest
      /\ (EPS <? dist (mkPoint (x (nth (k - (i - 1)) rest dflt))
                               (y (nth (k - (i - 1)) rest dflt))) p0)%float
         = true
      /\ forall j, j < k - (i - 1) ->
           (EPS <? dist (mkPoint (x (nth j rest dflt)) (y (nth j rest dflt)))
                        p0)%float = false).
Proof.
  revert i. induction rest as [|s rest IH]; intros i Hi k.
  - left. split; [reflexivity|]. intros j Hj. simpl in Hj. lia.
  - subst k. cbn [scanStart].
    destruct (EPS <? dist (mkPoint (x s) (y s)) p0)%float eqn:Hs.
    + right. replace (i - 1 - (i - 1)) with 0 by lia.
      split; [lia|]. split; [simpl; lia|]. split; [exact Hs|].
      intros j Hj. lia.
    + destruct (IH (S i) ltac:(lia)) as [[Hk Hall] | (Hge & Hlt & Hex & Hbefore)].
      * left. split; [exact Hk|]. intros [|j] Hj; [exact Hs|].
        apply Hall. simpl in Hj. lia.
      * right. replace (S i - 1) with i in * by lia.
        split; [lia|]. split; [simpl; lia|].
        replace (scanStart p0 rest (S i) - (i - 1))
          with (S (scanStart p0 rest (S i) - i)) by lia.
        split; [exact Hex|].
        intros [|j] Hj; [exact Hs|]. apply Hbefore. lia.
Qed.

(** X14. The movement starts one sample before the first one that is
    further than [EPS] from the first sample of the window: every sample
    after the first up to the start is within [EPS], and the sample after
    the start is beyond it; when no sample is beyond [EPS], the movement
    starts at the first sample. *)
Theorem movement_starts_before_first_displacement (seg : list Sample)
    (s0 : Sample) (rest : list Sample) :
  seg = s0 :: rest ->
  let k := startIdxOf seg in
  let beyond (s : Sample) :=
    (EPS <? dist (mkPoint (x s) (y s)) (mkPoint (x s0) (y s0)))%float in
  k < length seg
  /\ (forall j, 1 <= j <= k -> beyond (nth j seg s0) = false)
  /\ ((k + 1 < length seg /\ beyond (nth (k + 1) seg s0) = true)
      \/ (k = 0 /\ forall j, 1 <= j < length seg -> beyond (nth j seg s0) = false)).
Proof.
  intros -> k beyond. subst k. cbn [startIdxOf].
  destruct (scanStart_first (mkPoint (x s0) (y s0)) rest 1 s0 ltac:(lia))
    as [[Hk Hall] | (Hge & Hlt & Hex & Hbefore)].
  - rewrite Hk. split; [simpl; lia|].
    split; [intros j Hj; lia|].
    right. split; [reflexivity|].
    intros [|j] Hj; [lia|]. apply Hall. simpl in Hj. lia.
  - replace (1 - 1) with 0 in * by lia.
    rewrite Nat.sub_0_r in Hlt, Hex, Hbefore.
    split; [simpl; lia|].
    split.
    + intros [|j] Hj; [lia|]. apply Hbefore. lia.
    + left. split; [simpl; lia|].
      rewrite Nat.add_1_r. exact Hex.
Qed.

End Properties.

Section Scenarios.

#[local] Existing Instance ScenarioMath.

Lemma samples_outside_window_are_ignored_witness :
  extractAttemptFeatures
    (firstn 2 straightLine ++ [ sampleAt 500 0.5 0.5 ]%float
     ++ skipn 2 straightLine)
    0 100 lineTarget None
  = extractAttemptFeatures straightLine 0 100 lineTarget None.
Proof.
  apply (samples_outside_window_are_ignored
           (firstn 2 straightLine) [ sampleAt 500 0.5 0.5 ]%float
           (skipn 2 straightLine) 0 100 lineTarget None).
  constructor; [right; reflexivity | constructor].
Defined.

Lemma counts_bounded_by_moving_segment_witness :
  exists f : Features,
    extractAttemptFeatures wobble 0 50 wobbleTarget None = Ok f
    /\ overshootCount (kinematics f) = Some 3
    /\ 3 + 2 <= length (movingSegment wobble 0 50).
Proof.
  destruct (extractAttemptFeatures wobble 0 50 wobbleTarget None) as [f|e] eqn:Hf;
    [|vm_compute in Hf; discriminate Hf].
  exists f. split; [reflexivity|].
  assert (Hover : overshootCount (kinematics f) = Some 3).
  { vm_compute in Hf. injection Hf as <-. reflexivity. }
  split; [exact Hover|].
  apply (proj2 (counts_bounded_by_moving_segment wobble 0 50 wobbleTarget None f
                  Hf) 3 Hover).
Defined.

Lemma movement_starts_before_first_displacement_witness :
  startIdxOf straightLine = 0
  /\ (EPS <? dist (mkPoint (x (nth 1 straightLine (sampleAt 0 0 0)))
                           (y (nth 1 straightLine (sampleAt 0 0 0))))
                  (mkPoint 0 0))%float = true.
Proof.
  destruct (movement_starts_before_first_displacement straightLine
              (sampleAt 0 0 0) (tl straightLine) eq_refl)
    as (_ & _ & [[_ Hbeyond] | [_ Hnone]]).
  - split; [reflexivity | exact Hbeyond].
  - specialize (Hnone 1 ltac:(simpl; lia)). vm_compute in Hnone.
    discriminate Hnone.
Defined.

End Scenarios.

End ExtractorProperties.

Module BatchProperties.

Import MotorAttemptBucket FeatureExtractionBatch ExtractorProperties Scenario
  StoreScenario.

Section Batch.

Context {M : MathLib}.


(** Where the trace is not empty and the attempt was clicked, a turn of
    the batch loop is the enrichment of [addAttempts]. *)
Lemma extractOne_enrichOne (allSamples : list Schema.Sample) (a : Attempt)
    (prev : option Z) :
  allSamples <> [] -> clicked (click a) = true ->
  extractOne allSamples a prev = Ok (enrichOne allSamples a prev).
Proof.
  intros Hne Hclicked. unfold extractOne, enrichOne.
  destruct allSamples as [|s rest]; [congruence|].
  rewrite Hclicked. cbn [length Nat.eqb negb andb].
  destruct (click_tms (click a)) as [c|]; [|reflexivity].
  destruct (ExtractorProperties.extract_total (s :: rest) (spawnTms a) c
              (target a) prev) as (f & -> & _).
  reflexivity.
Qed.

(** X15. On a trace that is not empty, [extractBatchFeatures] gives for
    clicked attempts exactly the enriched attempts [addAttempts] stores. *)
Theorem extractBatchFeatures_matches_enrichment
    (allSamples : list Schema.Sample) (attempts : list Attempt) :
  allSamples <> [] ->
  List.Forall (fun a => clicked (click a) = true) attempts ->
  extractBatchFeatures attempts allSamples = Ok (enrich allSamples attempts).
Proof.
  intros Hne Hall. unfold extractBatchFeatures, enrich.
  generalize (@None Z) as prev.
  induction Hall as [|a rest Ha _ IH]; intros prev; [reflexivity|].
  cbn [extractBatchFrom enrichFrom].
  rewrite (extractOne_enrichOne allSamples a prev Hne Ha).
  cbn [mbind result_bind bind]. rewrite IH. reflexivity.
Qed.


End Batch.

Section Scenarios.

#[local] Existing Instance ScenarioMath.

Lemma extractBatchFeatures_matches_enrichment_witness :
  extractBatchFeatures [ aHit 1 4; aMiss 1 ]%float fiveSamples
  = Ok (enrich fiveSamples [ aHit 1 4; aMiss 1 ]%float).
Proof.
  apply (extractBatchFeatures_matches_enrichment fiveSamples
           [ aHit 1 4; aMiss 1 ]%float).
  - discriminate.
  - repeat constructor.
Defined.

End Scenarios.

End BatchProperties.

Module SessionFeatureProperties.

Import MotorAttemptBucket MotorSummary SessionClaims Scenario.

(** The keys [Object.entries] gives are all different. *)
Lemma entries_keys_NoDup (rf : RoundFeatures) : List.NoDup (map fst (entries rf)).
Proof.
  cbn [entries map fst]. apply NoDup_ListNoDup.
  apply (bool_decide_unpack _). vm_compute. exact I.
Qed.

Lemma roundKey_inj (r : nat) (key key' : string) :
  roundKey r key = roundKey r key' -> key = key'.
Proof.
  unfold roundKey. generalize (pretty r) as digits. intros digits Heq.
  injection Heq as Heq. revert Heq.
  induction digits as [|c digits IH]; cbn; intros Heq.
  - injection Heq as Heq. exact Heq.
  - injection Heq as Heq. apply IH. exact Heq.
Qed.

(** Writing entries under other keys leaves a key as it is. *)
Lemma copy_other (r : nat) (kvs : list (string * option float))
    (allFeatures : gmap string (option float)) (key : string) :
  ~ In key (map fst kvs) ->
  fold_left (fun all kv => <[ roundKey r (fst kv) := snd kv ]> all) kvs
            allFeatures !! roundKey r key
  = allFeatures !! roundKey r key.
Proof.
  revert allFeatures. induction kvs as [|kv kvs IH]; intros allFeatures Hnot;
    [reflexivity|].
  cbn [fold_left]. rewrite IH by (intros Hin; apply Hnot; right; exact Hin).
  apply lookup_insert_ne. intros Heq. apply roundKey_inj in Heq.
  apply Hnot. left. exact Heq.
Qed.

(** Every entry is written under its key of the round. *)
Lemma copy_sets (r : nat) (kvs : list (string * option float))
    (allFeatures : gmap string (option float)) (key : string)
    (value : option float) :
  List.NoDup (map fst kvs) ->
  In (key, value) kvs ->
  fold_left (fun all kv => <[ roundKey r (fst kv) := snd kv ]> all) kvs
            allFeatures !! roundKey r key
  = Some value.
Proof.
  revert allFeatures. induction kvs as [|kv kvs IH]; intros allFeatures Hnd Hin;
    [destruct Hin|].
  inversion Hnd as [|k ks Hfresh Hnd' Heq]. subst.
  destruct Hin as [-> | Hin].
  - cbn [fold_left fst snd]. rewrite copy_other by exact Hfresh.
    apply lookup_insert_eq.
  - cbn [fold_left]. apply IH; assumption.
Qed.

(** What a key holds after a round is copied was an entry of the round or
    was there before. *)
Lemma copyRound_origin (r : nat) (rf : RoundFeatures)
    (allFeatures : gmap string (option float)) (k : string)
    (value : option float) :
  copyRound r rf allFeatures !! k = Some value ->
  (exists key, In (key, value) (entries rf) /\ k = roundKey r key)
  \/ allFeatures !! k = Some value.
Proof.
  unfold copyRound. generalize (entries rf) as kvs. intros kvs.
  induction kvs as [|kv kvs IH] using rev_ind; intros Hk; [right; exact Hk|].
  rewrite fold_left_app in Hk. cbn [fold_left] in Hk.
  destruct (decide (roundKey r (fst kv) = k)) as [<- | Hother].
  - rewrite lookup_insert_eq in Hk. injection Hk as <-.
    left. exists (fst kv). split; [|reflexivity].
    apply in_or_app. right. left. destruct kv; reflexivity.
  - rewrite lookup_insert_ne in Hk by exact Hother.
    destruct (IH Hk) as [(key & Hin & ->) | Hbefore]; [|right; exact Hbefore].
    left. exists key. split; [|reflexivity]. apply in_or_app. left. exact Hin.
Qed.

(** One turn of the loop over the rounds. *)
Lemma step_origin (r : nat) (f : option RoundFeatures)
    (allFeatures : gmap string (option float)) (k : string)
    (value : option float) :
  match f with
  | Some rf => copyRound r rf allFeatures
  | None => allFeatures
  end !! k = Some value ->
  (exists rf key, f = Some rf /\ In (key, value) (entries rf)
                  /\ k = roundKey r key)
  \/ allFeatures !! k = Some value.
Proof.
  destruct f as [rf|]; [|right; assumption].
  intros Hk. apply copyRound_origin in Hk.
  destruct Hk as [(key & Hin & ->) | Hk]; [left | right; exact Hk].
  exists rf, key. repeat split. exact Hin.
Qed.

Ltac round_listed :=
  rewrite !elem_of_cons; tauto.

Section Properties.

Context {M : MathLib}.

(** X17. Every entry of the features of a round that has attempts is in
    the session map, under [r{n}_] followed by its key, with its value. *)
Theorem present_round_is_copied (coll : list Bucket) (sid : string) (r : nat)
    (rf : RoundFeatures) (key : string) (value : option float) :
  r ∈ [1; 2; 3] ->
  computeRoundFeatures coll sid (Z.of_nat r) = Some rf ->
  In (key, value) (entries rf) ->
  computeSessionFeatures coll sid !! roundKey r key = Some value.
Proof.
  intros Hr Hrf Hin. unfold computeSessionFeatures.
  assert (Hcases : r = 1 \/ r = 2 \/ r = 3).
  { rewrite !elem_of_cons in Hr. rewrite elem_of_nil in Hr. tauto. }
  assert (Hset : forall all, copyRound r rf all !! roundKey r key = Some value).
  { intros all. apply copy_sets; [apply entries_keys_NoDup | exact Hin]. }
  destruct Hcases as [-> | [-> | ->]];
    [change (Z.of_nat 1) with 1%Z in Hrf | change (Z.of_nat 2) with 2%Z in Hrf
     | change (Z.of_nat 3) with 3%Z in Hrf];
    rewrite !setTrend_other by discriminate;
    unfold copyRounds; cbn [fold_left nth Nat.sub]; rewrite Hrf.
  - destruct (computeRoundFeatures coll sid 3);
      destruct (computeRoundFeatures coll sid 2);
      rewrite ?copyRound_other by (intros k; discriminate); apply Hset.
  - destruct (computeRoundFeatures coll sid 3);
      rewrite ?copyRound_other by (intros k; discriminate); apply Hset.
  - apply Hset.
Qed.

(** X18. The session map holds nothing else: a key it holds is one of the
    two trend keys, or [r{n}_] followed by the key of an entry of a round
    [n] of 1, 2, 3 that has attempts, and it holds that entry's value. *)
Theorem session_map_holds_nothing_else (coll : list Bucket) (sid : string)
    (k : string) (value : option float) :
  computeSessionFeatures coll sid !! k = Some value ->
  k = "hitRate_trend"%string \/ k = "throughput_trend"%string
  \/ exists (r : nat) (rf : RoundFeatures) (key : string),
       r ∈ [1; 2; 3]
       /\ computeRoundFeatures coll sid (Z.of_nat r) = Some rf
       /\ In (key, value) (entries rf)
       /\ k = roundKey r key.
Proof.
  intros Hk.
  destruct (decide (k = "hitRate_trend"%string)) as [-> | Hhit]; [left; reflexivity|].
  destruct (decide (k = "throughput_trend"%string)) as [-> | Hthr];
    [right; left; reflexivity|].
  right. right. unfold computeSessionFeatures in Hk.
  rewrite !setTrend_other in Hk by congruence.
  unfold copyRounds in Hk. cbn [fold_left nth Nat.sub] in Hk.
  apply step_origin in Hk. destruct Hk as [(rf & key & Hrf & Hin & ->) | Hk].
  { exists 3, rf, key. split; [round_listed|]. repeat split; assumption. }
  apply step_origin in Hk. destruct Hk as [(rf & key & Hrf & Hin & ->) | Hk].
  { exists 2, rf, key. split; [round_listed|]. repeat split; assumption. }
  apply step_origin in Hk. destruct Hk as [(rf & key & Hrf & Hin & ->) | Hk].
  { exists 1, rf, key. split; [round_listed|]. repeat split; assumption. }
  rewrite lookup_empty in Hk. discriminate Hk.
Qed.

End Properties.

Section Scenarios.

#[local] Existing Instance ScenarioMath.

Lemma present_round_is_copied_witness :
  computeSessionFeatures roundsOneAndThree "s1" !! "r3_nHits"%string
  = Some (Some 3%float).
Proof.
  destruct (computeRoundFeatures roundsOneAndThree "s1" 3) as [rf|] eqn:Hrf;
    [|vm_compute in Hrf; discriminate Hrf].
  assert (Hhits : nHits rf = 3).
  { vm_compute in Hrf. injection Hrf as <-. reflexivity. }
  rewrite (present_round_is_copied roundsOneAndThree "s1" 3 rf "nHits"
             (Some (nat2float (nHits rf)))).
  - rewrite Hhits. reflexivity.
  - round_listed.
  - exact Hrf.
  - cbn [entries]. do 25 right. left. reflexivity.
Defined.

Lemma session_map_holds_nothing_else_witness :
  computeSessionFeatures roundsOneAndThree "s1" !! "r1_nAttempts"%string
  = Some (Some 2%float)
  /\ exists (r : nat) (key : string),
       "r1_nAttempts"%string = roundKey r key.
Proof.
  assert (Hk : computeSessionFeatures roundsOneAndThree "s1"
               !! "r1_nAttempts"%string = Some (Some 2%float))
    by (vm_compute; reflexivity).
  split; [exact Hk|].
  destruct (session_map_holds_nothing_else roundsOneAndThree "s1"
              "r1_nAttempts" (Some 2%float) Hk)
    as [Hhit | [Hthr | (r & rf & key & _ & _ & _ & Hkey)]].
  - discriminate Hhit.
  - discriminate Hthr.
  - exists r, key. exact Hkey.
Defined.

End Scenarios.

End SessionFeatureProperties.

Module EndpointProperties.

Import Mongoose ChunkedStore Spec StoreProperties MotorController Scenario
  StoreScenario.

Lemma truthy_named (sid : string) : sid <> EmptyString -> truthy (Some sid) = true.
Proof. destruct sid; [congruence | reflexivity]. Qed.

Lemma truthy_Some (o : option string) :
  truthy o = true -> exists sid, o = Some sid /\ sid <> EmptyString.
Proof.
  destruct o as [[|c s]|]; try discriminate.
  intros _. eexists. split; [reflexivity | discriminate].
Qed.


Section Trace.

Context {wording : Wording MotorPointerTraceBucket.Bucket}.

(** The store refuses samples for a session that is not registered. *)
Lemma addSamples_unknown_session (cap : nat) (sessions : gset string)
    (coll : list MotorPointerTraceBucket.Bucket) (sid : string)
    (uid : option string) (samples : list Schema.Sample) :
  sid ∉ sessions ->
  samples <> [] ->
  MotorPointerTraceBucket.addSamplesWith cap sessions coll sid uid samples
  = (coll, Throw (doesNotExist sid)).
Proof.
  intros Hunknown Hne. unfold MotorPointerTraceBucket.addSamplesWith.
  destruct samples as [|s rest]; [congruence|].
  unfold sessionFindOne. rewrite bool_decide_eq_false_2 by exact Hunknown.
  reflexivity.
Qed.


Lemma logPointerSamples_valid (w : World) (sid : string) (uid : option string)
    (samples : list Schema.Sample) :
  sid <> EmptyString -> samples <> [] ->
  MotorTraceController.logPointerSamples
    (MotorTraceController.mkRequest (Some sid) uid (Some samples)) w
  = (mkResponse 200 true (Received (length samples) true),
     MotorTraceController.processSamples sid uid samples w).
Proof.
  intros Hsid Hne.
  unfold MotorTraceController.logPointerSamples,
    MotorTraceController.logPointerSamplesBody.
  cbn [MotorTraceController.req_sessionId MotorTraceController.req_samples
       MotorTraceController.req_userId].
  rewrite (truthy_named sid Hsid).
  destruct samples as [|s rest]; [congruence | reflexivity].
Qed.

(** X19. A batch of samples for a session that is not registered is
    acknowledged to the caller with the number received; the store raises
    the error in the background task, which logs it and writes no
    sample. *)
Theorem unknown_session_samples_dropped (w : World) (sid : string)
    (uid : option string) (samples : list Schema.Sample) :
  sid ∉ sessions w ->
  sid <> EmptyString ->
  samples <> [] ->
  MotorTraceController.logPointerSamples
    (MotorTraceController.mkRequest (Some sid) uid (Some samples)) w
  = (mkResponse 200 true (Received (length samples) true),
     mkWorld (sessions w) (traces w) (attemptBuckets w)
             (logs w ++ [LogError "Error processing pointer samples:" sid
                                  (message (doesNotExist sid))])).
Proof.
  intros Hunknown Hsid Hne.
  rewrite (logPointerSamples_valid w sid uid samples Hsid Hne).
  unfold MotorTraceController.processSamples, MotorPointerTraceBucket.addSamples.
  rewrite addSamples_unknown_session by assumption.
  reflexivity.
Qed.

(** X20. [logPointerSamples] answers 200 or 400 and nothing else: 400, with
    nothing changed, exactly when the session id is missing or empty or
    the samples are not an array that holds a sample; otherwise 200 with
    the number of samples received and one more log entry. It never
    touches the sessions or the attempt buckets. *)
Theorem logPointerSamples_answers_200_or_400
    (req : MotorTraceController.Request) (w : World) :
  let res := fst (MotorTraceController.logPointerSamples req w) in
  let w' := snd (MotorTraceController.logPointerSamples req w) in
  sessions w' = sessions w
  /\ attemptBuckets w' = attemptBuckets w
  /\ ((status res = 400 /\ success res = false /\ w' = w
       /\ (truthy (MotorTraceController.req_sessionId req) = false
           \/ MotorTraceController.req_samples req = None
           \/ MotorTraceController.req_samples req = Some []))
      \/ (status res = 200 /\ success res = true
          /\ length (logs w') = S (length (logs w))
          /\ exists sid samples,
               MotorTraceController.req_sessionId req = Some sid
               /\ sid <> EmptyString
               /\ MotorTraceController.req_samples req = Some samples
               /\ samples <> []
               /\ body res = Received (length samples) true)).
Proof.
  cbv zeta.
  unfold MotorTraceController.logPointerSamples,
    MotorTraceController.logPointerSamplesBody.
  destruct (truthy (MotorTraceController.req_sessionId req)) eqn:Hsid.
  - destruct (truthy_Some _ Hsid) as (sid & -> & Hnamed).
    destruct (MotorTraceController.req_samples req) as [[|smp rest]|].
    + cbn [fst snd]. repeat split. left. repeat split. right. right. reflexivity.
    + cbn [fst snd]. unfold MotorTraceController.processSamples.
      destruct (MotorPointerTraceBucket.addSamples _ _ _ _ _) as [coll [bucket|e]];
        cbn [sessions attemptBuckets logs];
        (split; [reflexivity|]); (split; [reflexivity|]); right;
        (split; [reflexivity|]); (split; [reflexivity|]);
        (split; [rewrite length_app; simpl; lia|]);
        exists sid, (smp :: rest); repeat split; try assumption; discriminate.
    + cbn [fst snd]. repeat split. left. repeat split. right. left. reflexivity.
  - destruct (MotorTraceController.req_sessionId req),
      (MotorTraceController.req_samples req) as [[|smp rest]|];
      cbn [fst snd]; repeat split; left; repeat split; left; reflexivity.
Qed.


End Trace.

Section Handlers.

Context {M : MathLib} {wording : Wording MotorAttemptBucket.Bucket}.

(** X22. [logAttempts] answers 200 or 400 and nothing else: 400, with
    nothing changed, exactly when the session id is missing or empty or
    the attempts are not an array that holds an attempt; otherwise 200 with
    the number of attempts received and one more log entry. It never
    touches the sessions or the stored trace. *)
Theorem logAttempts_answers_200_or_400 (req : Request) (w : World) :
  let res := fst (logAttempts req w) in
  let w' := snd (logAttempts req w) in
  sessions w' = sessions w
  /\ traces w' = traces w
  /\ ((status res = 400 /\ success res = false /\ w' = w
       /\ (truthy (req_sessionId req) = false
           \/ req_attempts req = None
           \/ req_attempts req = Some []))
      \/ (status res = 200 /\ success res = true
          /\ length (logs w') = S (length (logs w))
          /\ exists sid attempts,
               req_sessionId req = Some sid
               /\ sid <> EmptyString
               /\ req_attempts req = Some attempts
               /\ attempts <> []
               /\ body res = Received (length attempts) true)).
Proof.
  cbv zeta. unfold logAttempts, logAttemptsBody.
  destruct (truthy (req_sessionId req)) eqn:Hsid.
  - destruct (truthy_Some _ Hsid) as (sid & -> & Hnamed).
    destruct (req_attempts req) as [[|att rest]|].
    + cbn [fst snd]. repeat split. left. repeat split. right. right. reflexivity.
    + cbn [fst snd]. unfold processAttempts.
      destruct (MotorAttemptBucket.addAttempts _ _ _ _ _ _) as [coll [bucket|e]];
        cbn [sessions traces logs];
        (split; [reflexivity|]); (split; [reflexivity|]); right;
        (split; [reflexivity|]); (split; [reflexivity|]);
        (split; [rewrite length_app; simpl; lia|]);
        exists sid, (att :: rest); repeat split; try assumption; discriminate.
    + cbn [fst snd]. repeat split. left. repeat split. right. left. reflexivity.
  - destruct (req_sessionId req), (req_attempts req) as [[|att rest]|];
      cbn [fst snd]; repeat split; left; repeat split; left; reflexivity.
Qed.

End Handlers.

Section Scenarios.

#[local] Existing Instance ScenarioMath.
#[local] Existing Instance traceWording.

Lemma ghost_unknown : "ghost"%string ∉ sessions oneSession.
Proof. cbn. intros Hin. apply elem_of_singleton in Hin. discriminate Hin. Qed.


Lemma unknown_session_samples_dropped_witness :
  MotorTraceController.logPointerSamples ghostTraceRequest oneSession
  = (mkResponse 200 true (Received 3 true),
     mkWorld (sessions oneSession) [] []
             [LogError "Error processing pointer samples:" "ghost"
                       (message (doesNotExist "ghost"))]).
Proof.
  apply (unknown_session_samples_dropped oneSession "ghost" None threeSamples
           ghost_unknown); discriminate.
Defined.


End Scenarios.

End EndpointProperties.

Module BucketBookkeeping.

Import Mongoose ChunkedStore Bookkeeping StoreProperties Scenario StoreScenario.

Section Generic.

Context {B I : Type} `{BucketDoc B} {ops : BucketOps B I} {wording : Wording B}.

(** A property of buckets that every operation of the append keeps. *)
Variable P : B -> Prop.
Hypothesis P_fresh : forall sid uid n, P (freshBucket sid uid n).
Hypothesis P_set_id : forall n b, P b -> P (set_id n b).
Hypothesis P_close : forall b, P b -> P (closeBucket b).
Hypothesis P_user : forall uid b, P b -> P (withUser uid b).
Hypothesis P_push : forall i b, P b -> P (pushItem i b).








End Generic.

Section Trace.

Import MotorPointerTraceBucket.

Context {wording : Wording Bucket}.





End Trace.

Section Scenarios.

Import MotorPointerTraceBucket.

#[local] Existing Instance traceWording.


End Scenarios.

End BucketBookkeeping.

Module EnrichmentProperties.

Import MotorAttemptBucket ExtractorProperties Scenario StoreScenario.

Section Enrichment.

Context {M : MathLib}.


(** An attempt enriched without the extractor. *)
Lemma enrichOne_basic (allSamples : list Schema.Sample) (a : Attempt)
    (prev : option Z) :
  allSamples = [] \/ clicked (click a) = false ->
  enrichOne allSamples a prev = merge a (buildBasicFeatures a prev).
Proof.
  intros [-> | Hmissed]; unfold enrichOne; [reflexivity|].
  rewrite Hmissed, andb_false_r. reflexivity.
Qed.

Lemma nonNull_none {A : Type} (g : A -> option float) (l : list A) :
  List.Forall (fun e => g e = None) l -> MotorSummary.nonNull (map g l) = [].
Proof.
  induction 1 as [|e l He _ IH]; [reflexivity|].
  unfold MotorSummary.nonNull in *. cbn [map omap]. rewrite He. cbn. exact IH.
Qed.

Lemma Forall_filter_keeps {A : Type} (P : A -> Prop) (p : A -> bool)
    (l : list A) :
  List.Forall P l -> List.Forall P (List.filter p l).
Proof.
  induction 1 as [|e l He _ IH]; [constructor|].
  simpl. destruct (p e); [constructor; assumption | exact IH].
Qed.

(** X26. Attempts logged while the session has no stored sample get no
    movement time, no kinematic and no Fitts feature, and an attempt that
    was not clicked gets none on any trace; a round made of attempts
    logged without a trace has null movement-time, speed, jerk, throughput
    and index-of-difficulty aggregates. *)
Theorem attempts_without_trace_have_no_kinematics
    (allSamples : list Schema.Sample) (attempts : list Attempt) :
  List.Forall
    (fun e => movementTimeMs (timing e) = None
              /\ kinematics e = mkKinematics None None None None None None None None
              /\ fitts e = mkFitts None None None None)
    (enrich [] attempts)
  /\ List.Forall
       (fun e => clicked (click e) = false ->
                 movementTimeMs (timing e) = None
                 /\ kinematics e
                    = mkKinematics None None None None None None None None
                 /\ fitts e = mkFitts None None None None)
       (enrich allSamples attempts)
  /\ (let rf := MotorSummary.aggregate (enrich [] attempts) in
      MotorSummary.movementTime_mean rf = None
      /\ MotorSummary.meanSpeed_mean rf = None
      /\ MotorSummary.jerkRMS_mean rf = None
      /\ MotorSummary.throughput_mean rf = None
      /\ MotorSummary.ID_mean rf = None).
Proof.
  assert (Hbare : List.Forall
            (fun e => movementTimeMs (timing e) = None
                      /\ kinematics e
                         = mkKinematics None None None None None None None None
                      /\ fitts e = mkFitts None None None None)
            (enrich [] attempts)).
  { unfold enrich. generalize (@None Z) as prev.
    induction attempts as [|a rest IH]; intros prev; [constructor|].
    cbn [enrichFrom]. constructor; [|apply IH].
    rewrite enrichOne_basic by (left; reflexivity). repeat split. }
  split; [exact Hbare|]. split.
  - clear Hbare. unfold enrich. generalize (@None Z) as prev.
    induction attempts as [|a rest IH]; intros prev; [constructor|].
    cbn [enrichFrom]. constructor; [|apply IH].
    intros Hmissed. change (click (enrichOne allSamples a prev)) with (click a)
      in Hmissed.
    rewrite enrichOne_basic by (right; exact Hmissed). repeat split.
  - cbv zeta.
    cbn [MotorSummary.aggregate MotorSummary.movementTime_mean
         MotorSummary.meanSpeed_mean MotorSummary.jerkRMS_mean
         MotorSummary.throughput_mean MotorSummary.ID_mean].
    pose proof (Forall_filter_keeps _ (fun a => hit (click a)) _ Hbare) as Hhits.
    repeat split;
      (rewrite nonNull_none; [reflexivity|]);
      (eapply List.Forall_impl; [|exact Hhits]);
      intros e (Hm & Hk & Hf); cbn beta; rewrite ?Hm, ?Hk, ?Hf; reflexivity.
Qed.

End Enrichment.

Section Scenarios.

#[local] Existing Instance ScenarioMath.


End Scenarios.

End EnrichmentProperties.
